(** * PhotoBooth: the capture session, the camera manager and the export
      pipeline of [src/app/page.tsx], embedded as state transformers.

    The component's [useState] cells and [useRef] cells are the fields of one
    record; every handler of the component is a function on that record.
    A handler reads React state through the closure of the render that
    created it, so the handlers that do so take the captured values as an
    explicit [Closure] argument; refs are read from the record itself.

    What the browser decides (the clock, the outcome of [getUserMedia],
    of a decode, of a draw) is an argument of the handler it concerns.
    An [async] handler is run to its end as one event, and its decodes or
    its ready-wait settle within it; the unmount cleanup, which ends the
    component, is left out. *)

From Stdlib Require Import ZArith List String Ascii Bool Lia Arith.
From Stdlib Require Import DecimalString DecimalZ QArith Qround Sorted.
From Stdlib Require Import Permutation.
Import ListNotations.

Local Open Scope string_scope.
Local Open Scope Z_scope.

(** ** JavaScript primitives used by the component *)

Module JS.

(** [Number.prototype.toString] on an integer: its decimal digits. *)
Definition toString (z : Z) : string :=
  NilZero.string_of_int (Z.to_int z).

(** [a || b] on numbers: [0] is falsy. *)
Definition numOr (a b : Z) : Z := if a =? 0 then b else a.

(** [a || b] on strings: the empty string is falsy. *)
Definition strOr (a b : string) : string :=
  if String.eqb a "" then b else a.

(** [!!s] on a string. *)
Definition truthy (s : string) : bool := negb (String.eqb s "").

(** [s.includes(sub)]. *)
Fixpoint includes (sub s : string) : bool :=
  if String.prefix sub s then true
  else match s with
       | EmptyString => false
       | String _ rest => includes sub rest
       end.

Fixpoint dropChars (n : nat) (s : string) : string :=
  match n, s with
  | O, _ => s
  | S _, EmptyString => EmptyString
  | S k, String _ rest => dropChars k rest
  end.

(** [s.replace(pat, rep)] with a string pattern: the first occurrence
    only. *)
Fixpoint replace (pat rep s : string) : string :=
  if String.prefix pat s then rep ++ dropChars (String.length pat) s
  else match s with
       | EmptyString => EmptyString
       | String c rest => String c (replace pat rep rest)
       end.

(** [xs.slice(-n)]: the last [n] elements. *)
Definition sliceLast {A : Type} (n : nat) (xs : list A) : list A :=
  skipn (List.length xs - n)%nat xs.

(** [Math.ceil(a / b)] for integers [a] and [b <> 0]; the quotient of two
    small integers is exact in double precision. *)
Definition ceilDiv (a b : Z) : Z := Qceiling (inject_Z a / inject_Z b).

(** [Math.floor(a / b)]. *)
Definition floorDiv (a b : Z) : Z := Qfloor (inject_Z a / inject_Z b).

(** [a % b]: the remainder has the sign of the dividend. *)
Definition rem (a b : Z) : Z := Z.rem a b.

End JS.

(** ** Data model *)

Record Photo : Type := mkPhoto {
  id : string;
  dataUrl : string;
  timestamp : Z
}.

Record Filter : Type := mkFilter {
  name : string;
  label : string;
  style : string;
  gradient : string
}.

Definition FILTERS : list Filter :=
  [ mkFilter "none" "Original" "" "from-gray-400 to-gray-600";
    mkFilter "grayscale" "B&W" "grayscale(100%)" "from-gray-800 to-gray-900";
    mkFilter "sepia" "Vintage" "sepia(100%)" "from-amber-600 to-orange-700";
    mkFilter "blur" "Soft" "blur(1px)" "from-blue-400 to-purple-500";
    mkFilter "contrast" "Pop" "contrast(120%) saturate(130%)"
             "from-pink-500 to-rose-600" ].

(** A [MediaStreamTrack]: [stop()] on it is recorded in the state's
    [stoppedTracks]. *)
Record Track : Type := mkTrack {
  trackId : nat;
  kind : string
}.

Definition MediaStream : Type := list Track.

(** The [<video>] element behind [videoRef]. *)
Record VideoElement : Type := mkVideo {
  srcObject : option MediaStream
}.

(** The hidden [<canvas>] behind [canvasRef]. *)
Record Canvas : Type := mkCanvas {
  canvasWidth : Z;
  canvasHeight : Z;
  ctxFilter : string
}.

(** What a [useCallback] closure has captured from the render that created
    it: [capturePhoto] depends on [maxPhotos], [currentFilter] and
    [photos.length]; [startCountdown] on [capturePhoto], [maxPhotos] and
    [photos.length]. *)
Record Closure : Type := mkClosure {
  c_photosLength : Z;
  c_maxPhotos : Z;
  c_currentFilter : string
}.

(** The interval behind [countdownTimerRef]: the callback's local [count]
    and the [capturePhoto] it closed over. *)
Record Timer : Type := mkTimer {
  count : Z;
  t_capturePhoto : Closure
}.

(** ** The component's state

    The twelve [useState] cells, the five [useRef] cells, and the part of
    the browser the handlers act on: how many times the wall clock has been
    read, the tracks on which [stop()] has been called, the pending 3 s
    ready-timeouts of [startCamera], and whether the mount effect's
    [checkVideoElement] poll is still scheduled. *)

Record State : Type := mkState {
  isStreaming : bool;
  photos : list Photo;
  maxPhotos : Z;
  countdown : Z;
  isCapturing : bool;
  showSettings : bool;
  currentFilter : string;
  isSessionActive : bool;
  flashEffect : bool;
  isLoading : bool;
  error : string;
  debugInfo : list string;
  videoRef : option VideoElement;
  canvasRef : option Canvas;
  streamRef : option MediaStream;
  countdownTimerRef : option Timer;
  flashTimerRef : option bool;
  clockReads : nat;
  stoppedTracks : list Track;
  pendingReadyTimeouts : nat;
  videoPollPending : bool
}.

Definition upd_isStreaming (f : bool -> bool) (s : State) : State :=
  mkState (f (isStreaming s)) (photos s) (maxPhotos s) (countdown s)
    (isCapturing s) (showSettings s) (currentFilter s) (isSessionActive s)
    (flashEffect s) (isLoading s) (error s) (debugInfo s) (videoRef s)
    (canvasRef s) (streamRef s) (countdownTimerRef s) (flashTimerRef s)
    (clockReads s) (stoppedTracks s) (pendingReadyTimeouts s)
    (videoPollPending s).

Definition upd_photos (f : list Photo -> list Photo) (s : State) : State :=
  mkState (isStreaming s) (f (photos s)) (maxPhotos s) (countdown s)
    (isCapturing s) (showSettings s) (currentFilter s) (isSessionActive s)
    (flashEffect s) (isLoading s) (error s) (debugInfo s) (videoRef s)
    (canvasRef s) (streamRef s) (countdownTimerRef s) (flashTimerRef s)
    (clockReads s) (stoppedTracks s) (pendingReadyTimeouts s)
    (videoPollPending s).

Definition upd_maxPhotos (f : Z -> Z) (s : State) : State :=
  mkState (isStreaming s) (photos s) (f (maxPhotos s)) (countdown s)
    (isCapturing s) (showSettings s) (currentFilter s) (isSessionActive s)
    (flashEffect s) (isLoading s) (error s) (debugInfo s) (videoRef s)
    (canvasRef s) (streamRef s) (countdownTimerRef s) (flashTimerRef s)
    (clockReads s) (stoppedTracks s) (pendingReadyTimeouts s)
    (videoPollPending s).

Definition upd_countdown (f : Z -> Z) (s : State) : State :=
  mkState (isStreaming s) (photos s) (maxPhotos s) (f (countdown s))
    (isCapturing s) (showSettings s) (currentFilter s) (isSessionActive s)
    (flashEffect s) (isLoading s) (error s) (debugInfo s) (videoRef s)
    (canvasRef s) (streamRef s) (countdownTimerRef s) (flashTimerRef s)
    (clockReads s) (stoppedTracks s) (pendingReadyTimeouts s)
    (videoPollPending s).

Definition upd_isCapturing (f : bool -> bool) (s : State) : State :=
  mkState (isStreaming s) (photos s) (maxPhotos s) (countdown s)
    (f (isCapturing s)) (showSettings s) (currentFilter s) (isSessionActive s)
    (flashEffect s) (isLoading s) (error s) (debugInfo s) (videoRef s)
    (canvasRef s) (streamRef s) (countdownTimerRef s) (flashTimerRef s)
    (clockReads s) (stoppedTracks s) (pendingReadyTimeouts s)
    (videoPollPending s).

Definition upd_showSettings (f : bool -> bool) (s : State) : State :=
  mkState (isStreaming s) (photos s) (maxPhotos s) (countdown s)
    (isCapturing s) (f (showSettings s)) (currentFilter s) (isSessionActive s)
    (flashEffect s) (isLoading s) (error s) (debugInfo s) (videoRef s)
    (canvasRef s) (streamRef s) (countdownTimerRef s) (flashTimerRef s)
    (clockReads s) (stoppedTracks s) (pendingReadyTimeouts s)
    (videoPollPending s).

Definition upd_currentFilter (f : string -> string) (s : State) : State :=
  mkState (isStreaming s) (photos s) (maxPhotos s) (countdown s)
    (isCapturing s) (showSettings s) (f (currentFilter s)) (isSessionActive s)
    (flashEffect s) (isLoading s) (error s) (debugInfo s) (videoRef s)
    (canvasRef s) (streamRef s) (countdownTimerRef s) (flashTimerRef s)
    (clockReads s) (stoppedTracks s) (pendingReadyTimeouts s)
    (videoPollPending s).

Definition upd_isSessionActive (f : bool -> bool) (s : State) : State :=
  mkState (isStreaming s) (photos s) (maxPhotos s) (countdown s)
    (isCapturing s) (showSettings s) (currentFilter s) (f (isSessionActive s))
    (flashEffect s) (isLoading s) (error s) (debugInfo s) (videoRef s)
    (canvasRef s) (streamRef s) (countdownTimerRef s) (flashTimerRef s)
    (clockReads s) (stoppedTracks s) (pendingReadyTimeouts s)
    (videoPollPending s).

Definition upd_flashEffect (f : bool -> bool) (s : State) : State :=
  mkState (isStreaming s) (photos s) (maxPhotos s) (countdown s)
    (isCapturing s) (showSettings s) (currentFilter s) (isSessionActive s)
    (f (flashEffect s)) (isLoading s) (error s) (debugInfo s) (videoRef s)
    (canvasRef s) (streamRef s) (countdownTimerRef s) (flashTimerRef s)
    (clockReads s) (stoppedTracks s) (pendingReadyTimeouts s)
    (videoPollPending s).

Definition upd_isLoading (f : bool -> bool) (s : State) : State :=
  mkState (isStreaming s) (photos s) (maxPhotos s) (countdown s)
    (isCapturing s) (showSettings s) (currentFilter s) (isSessionActive s)
    (flashEffect s) (f (isLoading s)) (error s) (debugInfo s) (videoRef s)
    (canvasRef s) (streamRef s) (countdownTimerRef s) (flashTimerRef s)
    (clockReads s) (stoppedTracks s) (pendingReadyTimeouts s)
    (videoPollPending s).

Definition upd_error (f : string -> string) (s : State) : State :=
  mkState (isStreaming s) (photos s) (maxPhotos s) (countdown s)
    (isCapturing s) (showSettings s) (currentFilter s) (isSessionActive s)
    (flashEffect s) (isLoading s) (f (error s)) (debugInfo s) (videoRef s)
    (canvasRef s) (streamRef s) (countdownTimerRef s) (flashTimerRef s)
    (clockReads s) (stoppedTracks s) (pendingReadyTimeouts s)
    (videoPollPending s).

Definition upd_debugInfo (f : list string -> list string) (s : State) : State :=
  mkState (isStreaming s) (photos s) (maxPhotos s) (countdown s)
    (isCapturing s) (showSettings s) (currentFilter s) (isSessionActive s)
    (flashEffect s) (isLoading s) (error s) (f (debugInfo s)) (videoRef s)
    (canvasRef s) (streamRef s) (countdownTimerRef s) (flashTimerRef s)
    (clockReads s) (stoppedTracks s) (pendingReadyTimeouts s)
    (videoPollPending s).

Definition upd_videoRef (f : option VideoElement -> option VideoElement)
           (s : State) : State :=
  mkState (isStreaming s) (photos s) (maxPhotos s) (countdown s)
    (isCapturing s) (showSettings s) (currentFilter s) (isSessionActive s)
    (flashEffect s) (isLoading s) (error s) (debugInfo s) (f (videoRef s))
    (canvasRef s) (streamRef s) (countdownTimerRef s) (flashTimerRef s)
    (clockReads s) (stoppedTracks s) (pendingReadyTimeouts s)
    (videoPollPending s).

Definition upd_canvasRef (f : option Canvas -> option Canvas)
           (s : State) : State :=
  mkState (isStreaming s) (photos s) (maxPhotos s) (countdown s)
    (isCapturing s) (showSettings s) (currentFilter s) (isSessionActive s)
    (flashEffect s) (isLoading s) (error s) (debugInfo s) (videoRef s)
    (f (canvasRef s)) (streamRef s) (countdownTimerRef s) (flashTimerRef s)
    (clockReads s) (stoppedTracks s) (pendingReadyTimeouts s)
    (videoPollPending s).

Definition upd_streamRef (f : option MediaStream -> option MediaStream)
           (s : State) : State :=
  mkState (isStreaming s) (photos s) (maxPhotos s) (countdown s)
    (isCapturing s) (showSettings s) (currentFilter s) (isSessionActive s)
    (flashEffect s) (isLoading s) (error s) (debugInfo s) (videoRef s)
    (canvasRef s) (f (streamRef s)) (countdownTimerRef s) (flashTimerRef s)
    (clockReads s) (stoppedTracks s) (pendingReadyTimeouts s)
    (videoPollPending s).

Definition upd_countdownTimerRef (f : option Timer -> option Timer)
           (s : State) : State :=
  mkState (isStreaming s) (photos s) (maxPhotos s) (countdown s)
    (isCapturing s) (showSettings s) (currentFilter s) (isSessionActive s)
    (flashEffect s) (isLoading s) (error s) (debugInfo s) (videoRef s)
    (canvasRef s) (streamRef s) (f (countdownTimerRef s)) (flashTimerRef s)
    (clockReads s) (stoppedTracks s) (pendingReadyTimeouts s)
    (videoPollPending s).

Definition upd_flashTimerRef (f : option bool -> option bool)
           (s : State) : State :=
  mkState (isStreaming s) (photos s) (maxPhotos s) (countdown s)
    (isCapturing s) (showSettings s) (currentFilter s) (isSessionActive s)
    (flashEffect s) (isLoading s) (error s) (debugInfo s) (videoRef s)
    (canvasRef s) (streamRef s) (countdownTimerRef s) (f (flashTimerRef s))
    (clockReads s) (stoppedTracks s) (pendingReadyTimeouts s)
    (videoPollPending s).

Definition upd_clockReads (f : nat -> nat) (s : State) : State :=
  mkState (isStreaming s) (photos s) (maxPhotos s) (countdown s)
    (isCapturing s) (showSettings s) (currentFilter s) (isSessionActive s)
    (flashEffect s) (isLoading s) (error s) (debugInfo s) (videoRef s)
    (canvasRef s) (streamRef s) (countdownTimerRef s) (flashTimerRef s)
    (f (clockReads s)) (stoppedTracks s) (pendingReadyTimeouts s)
    (videoPollPending s).

Definition upd_stoppedTracks (f : list Track -> list Track)
           (s : State) : State :=
  mkState (isStreaming s) (photos s) (maxPhotos s) (countdown s)
    (isCapturing s) (showSettings s) (currentFilter s) (isSessionActive s)
    (flashEffect s) (isLoading s) (error s) (debugInfo s) (videoRef s)
    (canvasRef s) (streamRef s) (countdownTimerRef s) (flashTimerRef s)
    (clockReads s) (f (stoppedTracks s)) (pendingReadyTimeouts s)
    (videoPollPending s).

Definition upd_pendingReadyTimeouts (f : nat -> nat) (s : State) : State :=
  mkState (isStreaming s) (photos s) (maxPhotos s) (countdown s)
    (isCapturing s) (showSettings s) (currentFilter s) (isSessionActive s)
    (flashEffect s) (isLoading s) (error s) (debugInfo s) (videoRef s)
    (canvasRef s) (streamRef s) (countdownTimerRef s) (flashTimerRef s)
    (clockReads s) (stoppedTracks s) (f (pendingReadyTimeouts s))
    (videoPollPending s).

Definition upd_videoPollPending (f : bool -> bool) (s : State) : State :=
  mkState (isStreaming s) (photos s) (maxPhotos s) (countdown s)
    (isCapturing s) (showSettings s) (currentFilter s) (isSessionActive s)
    (flashEffect s) (isLoading s) (error s) (debugInfo s) (videoRef s)
    (canvasRef s) (streamRef s) (countdownTimerRef s) (flashTimerRef s)
    (clockReads s) (stoppedTracks s) (pendingReadyTimeouts s)
    (f (videoPollPending s)).

(** What the browser supplies to one run of [capturePhoto]. *)
Record CaptureEnv : Type := mkCaptureEnv {
  ctxAvailable : bool;          (* canvas.getContext("2d") is not null *)
  videoWidth : Z;
  clientWidth : Z;
  videoHeight : Z;
  clientHeight : Z;
  drawResult : string + string  (* the data URL, or what drawImage /
                                   toDataURL threw *)
}.

(** A thrown JavaScript value, as far as the handlers look at it. *)
Record JsError : Type := mkJsError {
  instanceofError : bool;
  message : string;
  asString : string             (* its rendering inside a template string *)
}.

Definition newError (msg : string) : JsError :=
  mkJsError true msg ("Error: " ++ msg).

Inductive GumResult : Type :=
| Granted (stream : MediaStream)
| Rejected (e : JsError).

(** Which of the three things [startCamera] waits for happens first. *)
Inductive ReadySignal : Type :=
| LoadedMetadata
| VideoError (e : string)
| ReadyTimeout.

(** What the browser supplies to one run of [startCamera]. *)
Record CameraEnv : Type := mkCameraEnv {
  mediaDevicesSupported : bool;
  enumerated : option nat;      (* number of "videoinput" devices, or
                                   enumerateDevices rejected *)
  idealAttempt : GumResult;
  basicAttempt : GumResult;
  minimalAttempt : GumResult;
  playRejection : option string;
  ready : ReadySignal
}.

(** What the mount effect reads from [navigator] and [window.location]. *)
Record MountEnv : Type := mkMountEnv {
  userAgent : string;
  protocol : string;
  hostname : string;
  hasGetUserMedia : bool
}.

Inductive Format : Type := png | jpeg | pdf.

Definition formatString (f : Format) : string :=
  match f with png => "png" | jpeg => "jpeg" | pdf => "pdf" end.

(** A click on a generated [<a download=... href=...>]. *)
Record Download : Type := mkDownload {
  download : string;
  href : string
}.

(** Where building and clicking one download link throws, if it does. *)
Inductive LinkFault : Type :=
| NoFault
| ThrowsBeforeClick (e : string)
| ThrowsAfterClick (e : string).

(** One [ctx.drawImage(img, x, y, w, h)] on the export canvas. *)
Record Draw : Type := mkDraw {
  d_index : nat;
  d_image : string;
  d_x : Z;
  d_y : Z;
  d_w : Z;
  d_h : Z
}.

(** How the decode of one collage image settles: [onload] (where
    [drawImage] may still throw) or [onerror]. *)
Inductive DecodeOutcome : Type :=
| Decoded (drawThrows : option string)
| DecodeFailed.

Record Settle : Type := mkSettle {
  s_index : nat;
  s_outcome : DecodeOutcome
}.

(** What the browser supplies to one collage export. *)
Record CollageEnv : Type := mkCollageEnv {
  exportCtxAvailable : bool;
  settles : list Settle;        (* the decodes, in completion order *)
  collageDataUrl : string + string; (* exportCanvas.toDataURL, or what it
                                       threw *)
  collageLinkFault : LinkFault  (* where appendChild, click and
                                   removeChild throw, if they do *)
}.

(** The export canvas and the two counters of the collage closure. *)
Record Collage : Type := mkCollage {
  exportWidth : Z;
  exportHeight : Z;
  fillStyle : string;
  draws : list Draw;
  loadedCount : Z;
  totalPhotos : Z
}.

Definition seqState (f g : State -> State) : State -> State :=
  fun s => g (f s).

Infix ";;" := seqState (at level 61, left associativity).

Definition setIsStreaming (v : bool) := upd_isStreaming (fun _ => v).
Definition setPhotos (f : list Photo -> list Photo) := upd_photos f.
Definition setMaxPhotos (v : Z) := upd_maxPhotos (fun _ => v).
Definition setCountdown (v : Z) := upd_countdown (fun _ => v).
Definition setIsCapturing (v : bool) := upd_isCapturing (fun _ => v).
Definition setShowSettings (v : bool) := upd_showSettings (fun _ => v).
Definition setCurrentFilter (v : string) := upd_currentFilter (fun _ => v).
Definition setIsSessionActive (v : bool) := upd_isSessionActive (fun _ => v).
Definition setFlashEffect (v : bool) := upd_flashEffect (fun _ => v).
Definition setIsLoading (v : bool) := upd_isLoading (fun _ => v).
Definition setError (v : string) := upd_error (fun _ => v).
Definition setDebugInfo (f : list string -> list string) := upd_debugInfo f.

Definition photosLength (s : State) : Z := Z.of_nat (List.length (photos s)).

(** The closure the latest render hands to the handlers. *)
Definition closureOf (s : State) : Closure :=
  mkClosure (photosLength s) (maxPhotos s) (currentFilter s).

(** React commits the render between two events: the [<video>] element
    exists exactly while the session screen is shown. *)
Definition commit (s : State) : State :=
  if isSessionActive s then
    match videoRef s with
    | Some _ => s
    | None => upd_videoRef (fun _ => Some (mkVideo None)) s
    end
  else upd_videoRef (fun _ => None) s.

Definition stopTracks (st : MediaStream) : State -> State :=
  upd_stoppedTracks (fun done => (done ++ st)%list).

(** The browser's clock: the wall clock in milliseconds, by number of the
    reading, and the locale's rendering of a time of day. *)
Class WallClock : Type := {
  wallClock : nat -> Z;
  toLocaleTimeString : Z -> string
}.

Section Handlers.

Context {clock : WallClock}.

(** [Date.now()] / [new Date()]: the next reading. *)
Definition now (s : State) : Z := wallClock (clockReads s).
Definition tickClock : State -> State := upd_clockReads S.

(** [addDebugInfo] hands [setDebugInfo] an updater, and it is the updater
    that reads the clock: the stamp is taken when React runs it, at the
    render after the handler.  The log lines of a handler are stamped in
    the order of their calls, after every reading the handler takes
    itself; [capturePhoto] and the collage's [onload] are the handlers
    that do, and they place their log lines accordingly. *)
Definition addDebugInfo (info : string) (s : State) : State :=
  let stamp := toLocaleTimeString (now s) in
  setDebugInfo
    (fun prev =>
       (JS.sliceLast 9 prev ++ [(stamp ++ ": " ++ info)%string])%list)
    (tickClock s).

(** *** Device acquisition *)

(** Lines 133-169: the three [getUserMedia] attempts. *)
Definition acquireStream (env : CameraEnv) (s : State)
  : State * (MediaStream + JsError) :=
  match idealAttempt env with
  | Granted st =>
      (addDebugInfo "Camera access granted with ideal constraints" s,
       inl st)
  | Rejected e1 =>
      let s1 := addDebugInfo
                  ("Ideal constraints failed: " ++ asString e1
                     ++ ", trying basic constraints") s in
      match basicAttempt env with
      | Granted st =>
          (addDebugInfo "Camera access granted with basic constraints" s1,
           inl st)
      | Rejected e2 =>
          let s2 := addDebugInfo
                      ("Basic constraints failed: " ++ asString e2
                         ++ ", trying minimal constraints") s1 in
          match minimalAttempt env with
          | Granted st =>
              (addDebugInfo
                 "Camera access granted with minimal constraints" s2,
               inl st)
          | Rejected e3 => (s2, inr e3)
          end
      end
  end.

(** The body of the 3 s [setTimeout] inside [startCamera].  The callback
    tests the [isStreaming] of the render that created [startCamera],
    which, with dependencies [[addDebugInfo]], is the first render's
    [false]. *)
Definition readyTimeoutBody : State -> State :=
  addDebugInfo "Checking timeout condition" ;;
  addDebugInfo "Video loading timeout, assuming success" ;;
  setIsStreaming true.

Definition enumerateDevicesStep (env : CameraEnv) : State -> State :=
  match enumerated env with
  | Some n =>
      addDebugInfo
        ("Found " ++ JS.toString (Z.of_nat n) ++ " video devices") ;;
      (if Nat.eqb n 0
       then addDebugInfo "Could not enumerate devices, proceeding anyway"
       else fun s => s)
  | None => addDebugInfo "Could not enumerate devices, proceeding anyway"
  end.

(** The [try] block of [startCamera]: the state it leaves and the value
    it threw, if any. *)
Definition startCameraTry (env : CameraEnv) (s : State)
  : State * option JsError :=
  let s1 :=
    match videoRef s with
    | Some _ => s
    | None =>
        commit (addDebugInfo
                  "Video element not found - waiting for mount" s)
    end in
  match videoRef s1 with
  | None => (s1, Some (newError "Video element not found after waiting"))
  | Some _ =>
      let s2 := addDebugInfo "Video element found and captured" s1 in
      if negb (mediaDevicesSupported env) then
        (s2, Some (newError "getUserMedia is not supported in this browser"))
      else
        let s3 := (addDebugInfo "getUserMedia is supported" ;;
                   enumerateDevicesStep env) s2 in
        match acquireStream env s3 with
        | (s4, inr e) => (s4, Some e)
        | (s4, inl stream) =>
            let s5 :=
              (upd_videoRef (fun _ => Some (mkVideo (Some stream))) ;;
               upd_streamRef (fun _ => Some stream) ;;
               addDebugInfo "Stream assigned to video element" ;;
               upd_pendingReadyTimeouts S ;;
               match playRejection env with
               | Some e => addDebugInfo ("Video play error: " ++ e)
               | None => fun s => s
               end) s4 in
            match ready env with
            | LoadedMetadata =>
                ((addDebugInfo "Video metadata loaded" ;;
                  setIsStreaming true ;;
                  addDebugInfo "Camera started successfully") s5,
                 None)
            | VideoError e =>
                (addDebugInfo ("Video error: " ++ e) s5,
                 Some (newError "Video failed to load"))
            | ReadyTimeout =>
                ((upd_pendingReadyTimeouts Nat.pred ;;
                  readyTimeoutBody ;;
                  addDebugInfo "Camera started successfully") s5,
                 None)
            end
        end
  end.

(** The classification in the [catch] block of [startCamera]. *)
Definition classifyCameraError (errorMessage : string) : string :=
  if JS.includes "Permission denied" errorMessage
     || JS.includes "NotAllowedError" errorMessage
  then "Camera permission denied. Please allow camera access and try again."
  else if JS.includes "NotFoundError" errorMessage
          || JS.includes "No camera devices" errorMessage
  then "No camera found. Please connect a camera device."
  else if JS.includes "NotSupportedError" errorMessage
  then "Camera not supported in this browser. Try Chrome, Firefox, or Safari."
  else if JS.includes "getUserMedia is not supported" errorMessage
  then "Camera access not supported. Please use HTTPS or a modern browser."
  else if JS.includes "Video element not found" errorMessage
  then "Camera interface not ready. Please try again in a moment."
  else "Camera error: " ++ errorMessage.

Definition startCameraCatch (e : JsError) : State -> State :=
  let errorMessage :=
    if instanceofError e then message e else "Unknown error" in
  addDebugInfo ("Camera error: " ++ errorMessage) ;;
  setError errorMessage ;;
  setError (classifyCameraError errorMessage) ;;
  (fun s =>
     match streamRef s with
     | Some st => (stopTracks st ;; upd_streamRef (fun _ => None)) s
     | None => s
     end).

(** [startCamera], from its call to the end of its [finally], as it
    runs when no other handler and no timer is served while it awaits
    [enumerateDevices], [getUserMedia] and the ready promise. *)
Definition startCamera (env : CameraEnv) (s : State) : State :=
  let s0 := (setIsLoading true ;;
             setError "" ;;
             addDebugInfo "Starting camera...") s in
  let (s1, thrown) := startCameraTry env s0 in
  let s2 := match thrown with
            | Some e => startCameraCatch e s1
            | None => s1
            end in
  setIsLoading false s2.

(** [stream.getTracks().forEach(...)] of [stopCamera]. *)
Definition stopAndLogTracks (st : MediaStream) (s : State) : State :=
  fold_left
    (fun acc track =>
       addDebugInfo ("Stopped track: " ++ kind track)
                    (stopTracks [track] acc))
    st s.

Definition stopCamera : State -> State :=
  addDebugInfo "Stopping camera..." ;;
  (fun s =>
     match streamRef s with
     | Some st =>
         (stopAndLogTracks st ;; upd_streamRef (fun _ => None)) s
     | None => s
     end) ;;
  (fun s =>
     match videoRef s with
     | Some _ => upd_videoRef (fun _ => Some (mkVideo None)) s
     | None => s
     end) ;;
  setIsStreaming false ;;
  setError "".

(** *** The capture session *)

Definition currentFilterStyle (filterName : string) : string :=
  match find (fun f => String.eqb (name f) filterName) FILTERS with
  | Some f => JS.strOr (style f) "none"
  | None => "none"
  end.

(** [capturePhoto], as closed over [c].  [Date.now()] for the identifier
    and [new Date()] for the timestamp are read in the handler; the stamp
    of "Capturing photo...", logged before them, is read at the render
    that follows, so that line comes after them here. *)
Definition capturePhoto (c : Closure) (env : CaptureEnv) (s : State)
  : State :=
  match videoRef s, canvasRef s with
  | Some _, Some _ =>
      if c_maxPhotos c <=? c_photosLength c then s
      else
        let s1 :=
          (setFlashEffect true ;;
           (* clearTimeout of a previous flash timer, then a new one *)
           upd_flashTimerRef (fun _ => Some true)) s in
        if negb (ctxAvailable env) then
          (addDebugInfo "Capturing photo..." ;;
           addDebugInfo "Canvas context not available") s1
        else
          let w := JS.numOr (JS.numOr (videoWidth env) (clientWidth env))
                            640 in
          let h := JS.numOr (JS.numOr (videoHeight env) (clientHeight env))
                            480 in
          let s2 :=
            upd_canvasRef
              (fun _ => Some (mkCanvas w h
                                (currentFilterStyle (c_currentFilter c))))
              s1 in
          match drawResult env with
          | inl url =>
              let newPhoto :=
                mkPhoto (JS.toString (now s2)) url
                        (now (tickClock s2)) in
              (tickClock ;; tickClock ;;
               setPhotos (fun prev => (prev ++ [newPhoto])%list) ;;
               addDebugInfo "Capturing photo..." ;;
               addDebugInfo
                 ("Photo captured successfully ("
                    ++ JS.toString (c_photosLength c + 1) ++ "/"
                    ++ JS.toString (c_maxPhotos c) ++ ")")) s2
          | inr captureError =>
              (addDebugInfo "Capturing photo..." ;;
               addDebugInfo ("Photo capture failed: " ++ captureError) ;;
               setError "Failed to capture photo. Please try again.") s2
          end
  | _, _ => s
  end.

(** [startCountdown], as closed over [c] (its own [photos.length] and
    [maxPhotos], and the [capturePhoto] of the same render). *)
Definition startCountdown (c : Closure) (s : State) : State :=
  if c_maxPhotos c <=? c_photosLength c then s
  else
    (setIsCapturing true ;;
     setCountdown 3 ;;
     (* clearInterval of a running timer, then the new interval *)
     upd_countdownTimerRef (fun _ => Some (mkTimer 3 c))) s.

(** One firing of the interval created by [startCountdown]. *)
Definition countdownTick (env : CaptureEnv) (s : State) : State :=
  match countdownTimerRef s with
  | None => s
  | Some t =>
      let n := count t - 1 in
      let s1 :=
        (upd_countdownTimerRef
           (fun _ => Some (mkTimer n (t_capturePhoto t))) ;;
         setCountdown n) s in
      if n =? 0 then
        (upd_countdownTimerRef (fun _ => None) ;;
         capturePhoto (t_capturePhoto t) env ;;
         setCountdown 0 ;;
         setIsCapturing false) s1
      else s1
  end.

(** The 200 ms timeout set by [capturePhoto]; the ref keeps the stale
    handle. *)
Definition flashTimeout (s : State) : State :=
  match flashTimerRef s with
  | Some true =>
      (setFlashEffect false ;; upd_flashTimerRef (fun _ => Some false)) s
  | _ => s
  end.

Definition resetSession : State -> State :=
  addDebugInfo "Resetting session..." ;;
  setPhotos (fun _ => []) ;;
  setIsSessionActive false ;;
  setIsCapturing false ;;
  setCountdown 0 ;;
  setShowSettings false ;;
  setError "" ;;
  upd_countdownTimerRef (fun _ => None) ;;
  upd_flashTimerRef (fun _ => None) ;;
  stopCamera.

Definition startSession (env : CameraEnv) : State -> State :=
  setIsSessionActive true ;;
  commit ;;
  startCamera env.

Definition handleMaxPhotosChange (value : Z) : State -> State :=
  setMaxPhotos value.

(** *** The export pipeline *)

Definition photosPerRow : Z := 2.
Definition photoSize : Z := 300.
Definition margin : Z := 20.

(** One iteration of the [forEach] of the individual export. *)
Definition exportOne (format : Format) (fault : LinkFault)
           (index : nat) (photo : Photo)
           (acc : State * list Download) : State * list Download :=
  let (s, clicked) := acc in
  let link :=
    mkDownload
      ("photo-" ++ JS.toString (Z.of_nat index + 1) ++ "."
         ++ formatString format)
      (match format with
       | jpeg => JS.replace "image/png" "image/jpeg" (dataUrl photo)
       | _ => dataUrl photo
       end) in
  let logError e :=
    addDebugInfo ("Download error for photo "
                    ++ JS.toString (Z.of_nat index) ++ ": " ++ e) s in
  match fault with
  | NoFault => (s, (clicked ++ [link])%list)
  | ThrowsBeforeClick e => (logError e, clicked)
  | ThrowsAfterClick e => (logError e, (clicked ++ [link])%list)
  end.

Fixpoint forEachPhoto {A : Type} (body : nat -> Photo -> A -> A)
         (index : nat) (ps : list Photo) (acc : A) : A :=
  match ps with
  | [] => acc
  | p :: rest => forEachPhoto body (S index) rest (body index p acc)
  end.

Definition exportIndividual (format : Format) (faults : nat -> LinkFault)
           (ps : list Photo) (s : State) : State * list Download :=
  let (s1, clicked) :=
    forEachPhoto (fun i p => exportOne format (faults i) i p) 0 ps
                 (s, []) in
  (addDebugInfo
     (JS.toString (Z.of_nat (List.length ps)) ++ " photos exported as "
        ++ formatString format) s1,
   clicked).

Definition newCollage (ps : list Photo) : Collage :=
  let n := Z.of_nat (List.length ps) in
  mkCollage
    (photosPerRow * photoSize + (photosPerRow + 1) * margin)
    (JS.ceilDiv n photosPerRow * (photoSize + margin) + margin)
    "#0f0f23" [] 0 n.

Definition cellOf (index : nat) : Z * Z :=
  let row := JS.floorDiv (Z.of_nat index) photosPerRow in
  let col := JS.rem (Z.of_nat index) photosPerRow in
  (margin + col * (photoSize + margin),
   margin + row * (photoSize + margin)).

Definition CollageRun : Type := State * Collage * list Download.

(** [img.onload] of the photo at [index].  In the download block
    [Date.now()] is read for the file name before [toDataURL]; a throw
    before [link.click()] leaves no download, a throw after it
    ([removeChild]) leaves the download made, and either is logged as an
    export error. *)
Definition onload (env : CollageEnv) (index : nat) (photo : Photo)
           (drawThrows : option string) (r : CollageRun) : CollageRun :=
  let '(s, c, clicked) := r in
  match drawThrows with
  | Some drawError => (addDebugInfo ("Draw error: " ++ drawError) s, c,
                       clicked)
  | None =>
      let (x, y) := cellOf index in
      let c1 :=
        mkCollage (exportWidth c) (exportHeight c) (fillStyle c)
          (draws c ++ [mkDraw index (dataUrl photo) x y photoSize
                              photoSize])%list
          (loadedCount c + 1) (totalPhotos c) in
      if loadedCount c1 =? totalPhotos c1 then
        let fileName :=
          "photobooth-session-" ++ JS.toString (now s) ++ ".png" in
        let s1 := tickClock s in
        let exportFailed e :=
          addDebugInfo ("Export error: " ++ e) s1 in
        match collageDataUrl env with
        | inl url =>
            let link := mkDownload fileName url in
            match collageLinkFault env with
            | NoFault =>
                (addDebugInfo "Photo collage exported successfully" s1, c1,
                 (clicked ++ [link])%list)
            | ThrowsBeforeClick e => (exportFailed e, c1, clicked)
            | ThrowsAfterClick e =>
                (exportFailed e, c1, (clicked ++ [link])%list)
            end
        | inr exportError => (exportFailed exportError, c1, clicked)
        end
      else (s, c1, clicked)
  end.

(** [img.onerror] of the photo at [index]. *)
Definition onerror (index : nat) (r : CollageRun) : CollageRun :=
  let '(s, c, clicked) := r in
  let s1 := addDebugInfo
              ("Image load error for photo "
                 ++ JS.toString (Z.of_nat index)) s in
  let c1 :=
    mkCollage (exportWidth c) (exportHeight c) (fillStyle c) (draws c)
              (loadedCount c + 1) (totalPhotos c) in
  if loadedCount c1 =? totalPhotos c1
  then (addDebugInfo "Completed with errors" s1, c1, clicked)
  else (s1, c1, clicked).

Definition settle (env : CollageEnv) (ps : list Photo) (r : CollageRun)
           (ev : Settle) : CollageRun :=
  match nth_error ps (s_index ev) with
  | None => r
  | Some photo =>
      match s_outcome ev with
      | Decoded drawThrows => onload env (s_index ev) photo drawThrows r
      | DecodeFailed => onerror (s_index ev) r
      end
  end.

(** The collage branch of [exportPhotos], run until every decode of
    [settles env] has called back. *)
Definition exportCollage (env : CollageEnv) (ps : list Photo) (s : State)
  : State * option Collage * list Download :=
  if negb (exportCtxAvailable env) then
    (addDebugInfo "Could not get export canvas context" s, None, [])
  else
    let '(s1, c, clicked) :=
      fold_left (settle env ps) (settles env) (s, newCollage ps, []) in
    (s1, Some c, clicked).

Definition exportPhotos (format : Format) (faults : nat -> LinkFault)
           (env : CollageEnv) (ps : list Photo) (s : State)
  : State * option Collage * list Download :=
  match ps with
  | [] => (s, None, [])
  | _ :: _ =>
      let s1 :=
        addDebugInfo
          ("Exporting " ++ JS.toString (Z.of_nat (List.length ps))
             ++ " photos as " ++ formatString format) s in
      match format with
      | pdf => exportCollage env ps s1
      | _ =>
          let (s2, clicked) := exportIndividual format faults ps s1 in
          (s2, None, clicked)
      end
  end.

(** *** Mounting *)

Definition initialState : State :=
  mkState false [] 4 0 false false "none" false false false "" []
          None (Some (mkCanvas 300 150 "none")) None None None
          0%nat [] 0%nat false.

Definition boolString (b : bool) : string :=
  if b then "true" else "false".

Definition checkVideoElement (s : State) : State :=
  match videoRef s with
  | Some _ =>
      (addDebugInfo "Video element mounted successfully" ;;
       upd_videoPollPending (fun _ => false)) s
  | None =>
      (addDebugInfo "Video element not yet mounted" ;;
       upd_videoPollPending (fun _ => true)) s
  end.

(** The mount effect, run on the first render. *)
Definition mount (env : MountEnv) : State :=
  let isSecureContext :=
    String.eqb (protocol env) "https:"
    || String.eqb (hostname env) "localhost"
    || String.eqb (hostname env) "127.0.0.1"
    || String.eqb (hostname env) "" in
  (addDebugInfo "PhotoBooth initialized" ;;
   addDebugInfo ("Browser: " ++ userAgent env) ;;
   addDebugInfo ("Protocol: " ++ protocol env) ;;
   addDebugInfo ("getUserMedia supported: "
                   ++ boolString (hasGetUserMedia env)) ;;
   addDebugInfo ("Secure context: " ++ boolString isSecureContext) ;;
   (if isSecureContext then fun s => s
    else setError
           "Camera requires HTTPS or localhost. Please use a secure connection.") ;;
   checkVideoElement) initialState.

(** *** Events

    What can happen to the mounted component: a click on a control that
    the current render shows and has not disabled, or a timer firing.
    [enabled] transcribes the JSX: which screen is shown
    ([isSessionActive]), which controls it holds ([isStreaming],
    [showSettings], [error], [photos.length > 0]) and their [disabled]
    attributes; the range input offers 1..10.  React re-renders between
    two events, so a handler started by an event closes over the state
    that event found ([closureOf]). *)

Inductive Event : Type :=
| ChangeMaxPhotos (value : Z)
| ClickStartSession (env : CameraEnv)
| ClickRetry (env : CameraEnv)
| ClickSettings
| ClickReset
| ClickFilter (filterName : string)
| ClickStartCamera (env : CameraEnv)
| ClickTakePhoto
| ClickStop
| ClickExport (format : Format) (faults : nat -> LinkFault)
              (env : CollageEnv)
| IntervalFires (env : CaptureEnv)
| FlashTimeoutFires
| ReadyTimeoutFires
| VideoPollFires.

(** [disabled={isLoading || !!error}] *)
Definition startDisabled (s : State) : bool :=
  isLoading s || JS.truthy (error s).

(** [disabled={isCapturing || photos.length >= maxPhotos}] *)
Definition takePhotoDisabled (s : State) : bool :=
  isCapturing s || (maxPhotos s <=? photosLength s).

Definition enabled (e : Event) (s : State) : bool :=
  match e with
  | ChangeMaxPhotos value =>
      negb (isSessionActive s) && (1 <=? value) && (value <=? 10)
  | ClickStartSession _ => negb (isSessionActive s) && negb (startDisabled s)
  | ClickRetry _ => negb (isSessionActive s) && JS.truthy (error s)
  | ClickSettings | ClickReset => isSessionActive s
  | ClickFilter f =>
      isSessionActive s && showSettings s
      && existsb (fun x => String.eqb (name x) f) FILTERS
  | ClickStartCamera _ =>
      isSessionActive s && negb (isStreaming s) && negb (startDisabled s)
  | ClickTakePhoto =>
      isSessionActive s && isStreaming s && negb (takePhotoDisabled s)
  | ClickStop => isSessionActive s && isStreaming s
  | ClickExport _ _ _ =>
      isSessionActive s && negb (photosLength s =? 0)
  | IntervalFires _ =>
      match countdownTimerRef s with Some _ => true | None => false end
  | FlashTimeoutFires =>
      match flashTimerRef s with Some true => true | _ => false end
  | ReadyTimeoutFires => negb (Nat.eqb (pendingReadyTimeouts s) 0)
  | VideoPollFires => videoPollPending s
  end.

Definition handle (e : Event) : State -> State :=
  match e with
  | ChangeMaxPhotos value => handleMaxPhotosChange value
  | ClickStartSession env => startSession env
  | ClickRetry env =>
      setError "" ;; setDebugInfo (fun _ => []) ;; startSession env
  | ClickSettings => fun s => setShowSettings (negb (showSettings s)) s
  | ClickReset => resetSession
  | ClickFilter f => setCurrentFilter f
  | ClickStartCamera env => setError "" ;; startCamera env
  | ClickTakePhoto => fun s => startCountdown (closureOf s) s
  | ClickStop => stopCamera
  | ClickExport format faults env =>
      fun s => fst (fst (exportPhotos format faults env (photos s) s))
  | IntervalFires env => countdownTick env
  | FlashTimeoutFires => flashTimeout
  | ReadyTimeoutFires => upd_pendingReadyTimeouts Nat.pred ;; readyTimeoutBody
  | VideoPollFires => checkVideoElement
  end.

Definition step (s : State) (e : Event) : State :=
  if enabled e s then commit (handle e s) else s.

Definition run (es : list Event) (s : State) : State :=
  fold_left step es s.

(** The states the component can be in. *)
Inductive reachable : State -> Prop :=
| reachable_mount env : reachable (mount env)
| reachable_step s e : reachable s -> reachable (step s e).

End Handlers.

(** ** What the session invariant looks at *)

Definition sessionView (s : State) :=
  (photos s, maxPhotos s, isCapturing s, countdownTimerRef s, countdown s,
   isSessionActive s, canvasRef s).

(** [s'] has the session fields of [s] and a clock that has been read at
    least as often. *)
Definition quiet (s s' : State) : Prop :=
  sessionView s' = sessionView s /\ (clockReads s <= clockReads s')%nat.

(** [f] leaves the session's photos, target, countdown and timer alone. *)
Definition keeps (f : State -> State) : Prop :=
  forall s, quiet s (f s).

(** The invariant of the states between two events. *)
Record Inv (s : State) : Prop := mkInv {
  inv_target : 1 <= maxPhotos s <= 10;
  inv_cap : photosLength s <= maxPhotos s;
  inv_idle : isSessionActive s = false ->
             photos s = [] /\ countdownTimerRef s = None;
  inv_video : isSessionActive s = true -> videoRef s <> None;
  inv_canvas : canvasRef s <> None;
  inv_timer : forall t, countdownTimerRef s = Some t ->
              isCapturing s = true /\ countdown s = count t
              /\ 1 <= count t <= 3
              /\ c_photosLength (t_capturePhoto t) = photosLength s
              /\ c_maxPhotos (t_capturePhoto t) = maxPhotos s
              /\ photosLength s < maxPhotos s
}.

(** [s'] has the photos of [s] and a clock read at least as often. *)
Definition calm (s s' : State) : Prop :=
  photos s' = photos s /\ (clockReads s <= clockReads s')%nat.

(** ** The debug log and what lies outside it *)

(** The state with the debug log and the count of clock readings blanked:
    everything a release or a reset can be compared on apart from its own
    log lines. *)
Definition eraseLog (s : State) : State :=
  upd_debugInfo (fun _ => []) (upd_clockReads (fun _ => 0%nat) s).

Definition logView (s : State) : list string * nat :=
  (debugInfo s, clockReads s).

(** The tracks of the handle in [streamRef], none if there is no handle. *)
Definition tracksOf (s : State) : list Track :=
  match streamRef s with
  | Some st => st
  | None => []
  end.

Definition trackMessage (track : Track) : string :=
  "Stopped track: " ++ kind track.

(** The messages one [resetSession] logs, in order. *)
Definition resetMessages (s : State) : list string :=
  "Resetting session..." :: "Stopping camera..."
    :: map trackMessage (tracksOf s).

Section LogModel.

Context {clock : WallClock}.

(** [addDebugInfo] on the log view alone. *)
Definition addLog (v : list string * nat) (info : string)
  : list string * nat :=
  ((JS.sliceLast 9 (fst v)
      ++ [(toLocaleTimeString (wallClock (snd v)) ++ ": " ++ info)%string])
     %list,
   S (snd v)).

(** The entries that logging [infos] writes when the clock has been read
    [reads] times. *)
Fixpoint stampEntries (reads : nat) (infos : list string) : list string :=
  match infos with
  | [] => []
  | info :: rest =>
      (toLocaleTimeString (wallClock reads) ++ ": " ++ info)%string
        :: stampEntries (S reads) rest
  end.

End LogModel.

(** ** Photo identifiers *)

(** [Number(photo.id)]: the identifier read back as a number. *)
Definition idNumber (p : Photo) : Z :=
  match NilZero.int_of_string (id p) with
  | Some d => Z.of_int d
  | None => 0
  end.

Section IdentifierModel.

Context {clock : WallClock}.

(** One reading of the clock lies between [a] and [b]: every capture
    reads the clock for its identifier and then for its timestamp. *)
Definition apart (a b : nat) : Prop := (a + 2 <= b)%nat.

(** The identifiers of the photos are readings of the clock, taken at
    increasing reading numbers with the timestamps' readings between
    them, all in the past. *)
Definition idsFromReads (s : State) (reads : list nat) : Prop :=
  Forall2 (fun p r => id p = JS.toString (wallClock r)) (photos s) reads
  /\ StronglySorted apart reads
  /\ Forall (fun r => (r + 2 <= clockReads s)%nat) reads.

End IdentifierModel.

(** ** The export pipeline as the specification words it *)

Module ExportSpec.

Definition columns : Z := 2.
Definition cellSize : Z := 300.
Definition margin : Z := 20.

(** [columns * cellSize + (columns + 1) * margin] *)
Definition width : Z := columns * cellSize + (columns + 1) * margin.

(** [ceil(n / columns) * (cellSize + margin) + margin], the ceiling
    taken on integers. *)
Definition height (n : Z) : Z :=
  ((n + columns - 1) / columns) * (cellSize + margin) + margin.

(** The cell of the photo at sequence index [i]: row [i / columns],
    column [i mod columns]. *)
Definition cell (i : Z) : Z * Z :=
  (margin + (i mod columns) * (cellSize + margin),
   margin + (i / columns) * (cellSize + margin)).

(** [photo-<n>.<ext>], [n] counted from 1. *)
Definition fileName (index : nat) (ext : string) : string :=
  "photo-" ++ JS.toString (Z.of_nat index + 1) ++ "." ++ ext.

End ExportSpec.

(** The photos with their positions, as [forEach] hands them over. *)
Definition indexed {A : Type} (from : nat) (xs : list A) : list (nat * A) :=
  combine (seq from (List.length xs)) xs.

(** The link the individual export builds for the photo at [index]. *)
Definition photoLink (format : Format) (index : nat) (photo : Photo)
  : Download :=
  mkDownload
    ("photo-" ++ JS.toString (Z.of_nat index + 1) ++ "."
       ++ formatString format)
    (match format with
     | jpeg => JS.replace "image/png" "image/jpeg" (dataUrl photo)
     | _ => dataUrl photo
     end).

(** Whether the click of a link happens under a fault. *)
Definition clicks (fault : LinkFault) : bool :=
  match fault with
  | ThrowsBeforeClick _ => false
  | _ => true
  end.

(** The draw a settled decode causes, if any. *)
Definition drawOf (ps : list Photo) (ev : Settle) : list Draw :=
  match nth_error ps (s_index ev), s_outcome ev with
  | Some photo, Decoded None =>
      [mkDraw (s_index ev) (dataUrl photo)
              (fst (cellOf (s_index ev))) (snd (cellOf (s_index ev)))
              photoSize photoSize]
  | _, _ => []
  end.

(** ** Sample browsers and sessions *)

Module Sample.

(** A clock that advances one second per reading, rendered as the raw
    millisecond count. *)
Definition tickingClock : WallClock :=
  {| wallClock := fun n => 1700000000000 + 1000 * Z.of_nat n;
     toLocaleTimeString := JS.toString |}.

(** The same clock, set back by one hour after its 17th reading. *)
Definition steppedBackClock : WallClock :=
  {| wallClock := fun n =>
       if (n <? 17)%nat then 1700000000000 + 1000 * Z.of_nat n
       else 1700000000000 + 1000 * Z.of_nat n - 3600000;
     toLocaleTimeString := JS.toString |}.

(** A clock that shows every value at two consecutive readings, as a
    millisecond clock does that is read twice within one handler. *)
Definition coarseClock : WallClock :=
  {| wallClock := fun n => 1700000000000 + 1000 * (Z.of_nat n / 2);
     toLocaleTimeString := JS.toString |}.

Definition page : MountEnv :=
  mkMountEnv "Mozilla/5.0" "https:" "photobooth.example" true.

Definition overconstrained : JsError :=
  mkJsError true "Constraints could not be satisfied"
            "OverconstrainedError: Constraints could not be satisfied".

Definition webcam : MediaStream := [mkTrack 0 "video"].

(** The ideal constraints are rejected, the basic ones granted. *)
Definition fallbackCamera (signal : ReadySignal) : CameraEnv :=
  mkCameraEnv true (Some 1%nat) (Rejected overconstrained)
              (Granted webcam) (Rejected overconstrained) None signal.

Definition frame : CaptureEnv :=
  mkCaptureEnv true 640 640 480 480 (inl "data:image/png;base64,iVBORw0KGgo=").

Definition shot : list Event :=
  [ClickTakePhoto; IntervalFires frame; IntervalFires frame;
   IntervalFires frame].

(** A session of one photo, taken. *)
Definition oneShotSession : list Event :=
  (ChangeMaxPhotos 1 :: ClickStartSession (fallbackCamera LoadedMetadata)
     :: shot)%list.

(** A session of two photos, both taken. *)
Definition twoShotSession : list Event :=
  (ChangeMaxPhotos 2 :: ClickStartSession (fallbackCamera LoadedMetadata)
     :: shot ++ shot)%list.

(** A session in which the "Vintage" filter has been selected. *)
Definition sepiaSession : list Event :=
  [ClickStartSession (fallbackCamera LoadedMetadata); ClickSettings;
   ClickFilter "sepia"].

(** A session whose countdown has fired once and shows 2. *)
Definition countingSession : list Event :=
  [ClickStartSession (fallbackCamera LoadedMetadata); ClickTakePhoto;
   IntervalFires frame].

Definition twoPhotos : list Photo :=
  [mkPhoto "1700000015000" "data:image/png;base64,iVBORw0KGgo=" 1700000016000;
   mkPhoto "1700000019000" "data:image/png;base64,iVBORw0KGgo=" 1700000020000].

(** Both decodes load, the second one last. *)
Definition bothLoad : CollageEnv :=
  mkCollageEnv true [mkSettle 0 (Decoded None); mkSettle 1 (Decoded None)]
               (inl "data:image/png;base64,Y29sbGFnZQ==") NoFault.

(** The second decode fails, and settles last. *)
Definition failureLast : CollageEnv :=
  mkCollageEnv true [mkSettle 0 (Decoded None); mkSettle 1 DecodeFailed]
               (inl "data:image/png;base64,Y29sbGFnZQ==") NoFault.

(** The same two outcomes, the failure settling first. *)
Definition failureFirst : CollageEnv :=
  mkCollageEnv true [mkSettle 1 DecodeFailed; mkSettle 0 (Decoded None)]
               (inl "data:image/png;base64,Y29sbGFnZQ==") NoFault.

End Sample.

(** ** What the handlers do to the log and to the filter *)

(** [s'] has the filter of [s], and its debug log is the log of [s] or a
    log of at most ten entries. *)
Definition mild (s s' : State) : Prop :=
  currentFilter s' = currentFilter s
  /\ (debugInfo s' = debugInfo s
      \/ (List.length (debugInfo s') <= 10)%nat).

Definition gentle (f : State -> State) : Prop :=
  forall s, mild s (f s).

(** ** The outcome of an acquisition, read off its environment *)

(** The stream of the first attempt that is granted, in the order ideal,
    basic, minimal. *)
Definition firstGranted (env : CameraEnv) : option MediaStream :=
  match idealAttempt env, basicAttempt env, minimalAttempt env with
  | Granted st, _, _ => Some st
  | _, Granted st, _ => Some st
  | _, _, Granted st => Some st
  | _, _, _ => None
  end.

Definition readyFails (env : CameraEnv) : bool :=
  match ready env with
  | VideoError _ => true
  | _ => false
  end.

(** Whether the browser lets an acquisition through: [getUserMedia]
    exists, one attempt is granted, and the video element does not report
    an error.  What [enumerateDevices] found is not part of it. *)
Definition acquires (env : CameraEnv) : bool :=
  mediaDevicesSupported env
  && match firstGranted env with Some _ => true | None => false end
  && negb (readyFails env).

(** The message the [catch] block of [startCamera] reads off a thrown
    value. *)
Definition thrownMessage (e : JsError) : string :=
  if instanceofError e then message e else "Unknown error".

(** ** The session between two countdowns *)

(** With no interval behind [countdownTimerRef], the overlay shows nothing
    and the capturing flag is down. *)
Definition atRest (s : State) : Prop :=
  countdownTimerRef s = None -> countdown s = 0 /\ isCapturing s = false.

(** The test of the mount effect: HTTPS, or a local host name. *)
Definition secureOrigin (env : MountEnv) : bool :=
  String.eqb (protocol env) "https:"
  || String.eqb (hostname env) "localhost"
  || String.eqb (hostname env) "127.0.0.1"
  || String.eqb (hostname env) "".

(** The size [capturePhoto] gives the canvas: the first non-zero of the
    video's own size, its size on the page, and the fallback. *)
Definition captureWidth (env : CaptureEnv) : Z :=
  JS.numOr (JS.numOr (videoWidth env) (clientWidth env)) 640.

Definition captureHeight (env : CaptureEnv) : Z :=
  JS.numOr (JS.numOr (videoHeight env) (clientHeight env)) 480.

(** ** Counting the callbacks of a collage export *)

(** Whether a settled decode reaches [loadedCount++]: its image exists and
    it either failed to load or loaded and was drawn. *)
Definition counted (ps : list Photo) (ev : Settle) : bool :=
  match nth_error ps (s_index ev), s_outcome ev with
  | Some _, Decoded None => true
  | Some _, DecodeFailed => true
  | _, _ => false
  end.

Definition countedCallbacks (ps : list Photo) (evs : list Settle) : Z :=
  Z.of_nat (List.length (filter (counted ps) evs)).

(** [s'] is [s] apart from the debug log and the clock. *)
Definition onlyLogged (s s' : State) : Prop := eraseLog s' = eraseLog s.

(** ** The flash overlay *)

(** The flash the page shows and the 200 ms timeout that is to end it. *)
Definition flashView (s : State) : bool * option bool :=
  (flashEffect s, flashTimerRef s).

Definition steady (s s' : State) : Prop := flashView s' = flashView s.

(** [f] leaves the flash and its timeout alone. *)
Definition spares (f : State -> State) : Prop :=
  forall s, steady s (f s).

(** ** Further browsers, cameras and sessions *)

Module Scene.

Import Sample.

(** A page served over plain HTTP from a public host. *)
Definition insecurePage : MountEnv :=
  mkMountEnv "Mozilla/5.0" "http:" "photobooth.example" true.

(** A browser without [navigator.mediaDevices.getUserMedia]. *)
Definition legacyBrowser : CameraEnv :=
  mkCameraEnv false None (Granted webcam) (Granted webcam) (Granted webcam)
              None LoadedMetadata.

(** A camera that [enumerateDevices] does not list and that the ideal
    constraints open all the same. *)
Definition unlistedCamera : CameraEnv :=
  mkCameraEnv true (Some 0%nat) (Granted webcam)
              (Rejected overconstrained) (Rejected overconstrained)
              None LoadedMetadata.

(** The user refuses the permission prompt of the last attempt. *)
Definition deniedCamera : CameraEnv :=
  mkCameraEnv true (Some 1%nat) (Rejected overconstrained)
              (Rejected overconstrained)
              (Rejected (mkJsError true "Permission denied"
                                   "NotAllowedError: Permission denied"))
              None LoadedMetadata.

(** A canvas that gives no 2d context. *)
Definition noContext : CaptureEnv :=
  mkCaptureEnv false 640 640 480 480
               (inl "data:image/png;base64,iVBORw0KGgo=").

(** A video element that has no size yet. *)
Definition unsizedVideo : CaptureEnv :=
  mkCaptureEnv true 0 0 0 0 (inl "data:image/png;base64,iVBORw0KGgo=").

(** A session that was started and whose camera was stopped. *)
Definition stoppedSession : list Event :=
  [ClickStartSession (fallbackCamera LoadedMetadata); ClickStop].

(** A session whose countdown shows 1. *)
Definition lastSecondSession : list Event :=
  [ClickStartSession (fallbackCamera LoadedMetadata); ClickTakePhoto;
   IntervalFires frame; IntervalFires frame].

(** A session whose first countdown has just ended in a capture. *)
Definition flashingSession : list Event :=
  (ClickStartSession (fallbackCamera LoadedMetadata) :: shot)%list.

(** The camera is stopped and started again, then the photos are
    exported. *)
Definition restartAndExport : list Event :=
  [ClickStop; ClickStartCamera (fallbackCamera LoadedMetadata);
   ClickExport png (fun _ => NoFault) bothLoad].

(** A session that took its one photo and was reset. *)
Definition resetAfterShot : list Event :=
  (oneShotSession ++ [ClickReset])%list.

(** Of two decodes only the first has settled. *)
Definition oneSettled : CollageEnv :=
  mkCollageEnv true [mkSettle 0 (Decoded None)]
               (inl "data:image/png;base64,Y29sbGFnZQ==") NoFault.

End Scene.

(** * Properties *)

Section Frames.

Context {clock : WallClock}.

Lemma quiet_refl s : quiet s s.
Proof. split; [reflexivity | apply Nat.le_refl]. Qed.

Lemma quiet_trans s1 s2 s3 : quiet s1 s2 -> quiet s2 s3 -> quiet s1 s3.
Proof.
  intros [V1 C1] [V2 C2]. split.
  - now rewrite V2.
  - eapply Nat.le_trans; eassumption.
Qed.

Lemma keeps_view f s : keeps f -> sessionView (f s) = sessionView s.
Proof. intro H. apply H. Qed.

Lemma keeps_id : keeps (fun s => s).
Proof. intro s. apply quiet_refl. Qed.

Lemma keeps_seq f g : keeps f -> keeps g -> keeps (f ;; g).
Proof.
  intros Hf Hg s. unfold seqState.
  eapply quiet_trans; [apply Hf | apply Hg].
Qed.

Lemma keeps_addDebugInfo info : keeps (addDebugInfo info).
Proof. intro s. split; [reflexivity | cbn; lia]. Qed.

Lemma keeps_tickClock : keeps tickClock.
Proof. intro s. split; [reflexivity | cbn; lia]. Qed.

Lemma keeps_setIsStreaming b : keeps (setIsStreaming b).
Proof. intro s. split; [reflexivity | cbn; lia]. Qed.

Lemma keeps_setError e : keeps (setError e).
Proof. intro s. split; [reflexivity | cbn; lia]. Qed.

Lemma keeps_setIsLoading b : keeps (setIsLoading b).
Proof. intro s. split; [reflexivity | cbn; lia]. Qed.

Lemma keeps_setFlashEffect b : keeps (setFlashEffect b).
Proof. intro s. split; [reflexivity | cbn; lia]. Qed.

Lemma keeps_setShowSettings b : keeps (setShowSettings b).
Proof. intro s. split; [reflexivity | cbn; lia]. Qed.

Lemma keeps_setCurrentFilter f : keeps (setCurrentFilter f).
Proof. intro s. split; [reflexivity | cbn; lia]. Qed.

Lemma keeps_setDebugInfo f : keeps (setDebugInfo f).
Proof. intro s. split; [reflexivity | cbn; lia]. Qed.

Lemma keeps_videoRef f : keeps (upd_videoRef f).
Proof. intro s. split; [reflexivity | cbn; lia]. Qed.

Lemma keeps_streamRef f : keeps (upd_streamRef f).
Proof. intro s. split; [reflexivity | cbn; lia]. Qed.

Lemma keeps_flashTimerRef f : keeps (upd_flashTimerRef f).
Proof. intro s. split; [reflexivity | cbn; lia]. Qed.

Lemma keeps_pendingReadyTimeouts f : keeps (upd_pendingReadyTimeouts f).
Proof. intro s. split; [reflexivity | cbn; lia]. Qed.

Lemma keeps_videoPollPending f : keeps (upd_videoPollPending f).
Proof. intro s. split; [reflexivity | cbn; lia]. Qed.

Lemma keeps_stopTracks st : keeps (stopTracks st).
Proof. intro s. split; [reflexivity | cbn; lia]. Qed.

Lemma keeps_commit : keeps commit.
Proof.
  intro s. unfold commit.
  destruct (isSessionActive s); [destruct (videoRef s)|];
    split; (reflexivity || (cbn; lia)).
Qed.

End Frames.

Create HintDb frame.

#[export] Hint Resolve keeps_id keeps_addDebugInfo keeps_tickClock
  keeps_setIsStreaming keeps_setError keeps_setIsLoading keeps_setFlashEffect
  keeps_setShowSettings keeps_setCurrentFilter keeps_setDebugInfo
  keeps_videoRef keeps_streamRef keeps_flashTimerRef
  keeps_pendingReadyTimeouts keeps_videoPollPending keeps_stopTracks
  keeps_commit : frame.

(** Splits a sequence of updates and closes the primitive ones. *)
Ltac frame :=
  repeat lazymatch goal with
         | |- keeps (seqState _ _) => apply keeps_seq
         end;
  try solve [auto with frame].

Section FrameLemmas.

Context {clock : WallClock}.

Lemma keeps_readyTimeoutBody : keeps readyTimeoutBody.
Proof. unfold readyTimeoutBody. frame. Qed.

Lemma keeps_enumerateDevicesStep env : keeps (enumerateDevicesStep env).
Proof.
  unfold enumerateDevicesStep.
  destruct (enumerated env) as [n|]; [destruct (Nat.eqb n 0)|]; frame.
Qed.

Lemma keeps_stopAndLogTracks st : keeps (stopAndLogTracks st).
Proof.
  unfold stopAndLogTracks. induction st as [|track st IH]; intro s.
  - apply quiet_refl.
  - cbn [fold_left]. eapply quiet_trans; [|apply IH].
    split; [reflexivity | cbn; lia].
Qed.

Lemma keeps_stopCamera : keeps stopCamera.
Proof.
  unfold stopCamera. frame.
  - intro s. destruct (streamRef s) as [st|]; [|apply quiet_refl].
    apply keeps_seq; [apply keeps_stopAndLogTracks | frame].
  - intro s. destruct (videoRef s); [|apply quiet_refl].
    split; [reflexivity | cbn; lia].
Qed.

Lemma keeps_startCameraCatch e : keeps (startCameraCatch e).
Proof.
  unfold startCameraCatch. frame.
  intro s. destruct (streamRef s); [|apply quiet_refl].
  split; [reflexivity | cbn; lia].
Qed.

Lemma acquireStream_quiet env s : quiet s (fst (acquireStream env s)).
Proof.
  unfold acquireStream.
  destruct (idealAttempt env); [split; [reflexivity | cbn; lia]|].
  destruct (basicAttempt env); [split; [reflexivity | cbn; lia]|].
  destruct (minimalAttempt env); split; (reflexivity || (cbn; lia)).
Qed.

Lemma startCameraTry_quiet env s : quiet s (fst (startCameraTry env s)).
Proof.
  unfold startCameraTry.
  set (s1 := match videoRef s with Some _ => s | None => _ end).
  assert (H1 : quiet s s1).
  { subst s1. destruct (videoRef s); [apply quiet_refl|].
    eapply quiet_trans; [apply keeps_addDebugInfo | apply keeps_commit]. }
  destruct (videoRef s1); [|exact H1].
  destruct (mediaDevicesSupported env); cbn [negb];
    [|eapply quiet_trans; [exact H1 | apply keeps_addDebugInfo]].
  match goal with
  | |- context [acquireStream env ?x] =>
      assert (H3 : quiet s x);
      [| pose proof (acquireStream_quiet env x) as HA;
         destruct (acquireStream env x) as [s4 [stream|e]] ]
  end.
  { eapply quiet_trans; [exact H1|].
    eapply quiet_trans; [apply keeps_addDebugInfo|].
    apply (keeps_seq (addDebugInfo "getUserMedia is supported")
                     (enumerateDevicesStep env));
      auto using keeps_enumerateDevicesStep with frame. }
  - cbn [fst] in HA.
    assert (H4 : quiet s s4) by (eapply quiet_trans; eassumption).
    match goal with
    | |- context [seqState ?f ?g s4] =>
        assert (K5 : keeps (f ;; g))
    end.
    { frame. destruct (playRejection env); frame. }
    match goal with
    | |- context [?f s4] =>
        lazymatch f with
        | seqState _ _ =>
            assert (H5 : quiet s (f s4))
              by (eapply quiet_trans; [exact H4 | apply K5]);
            set (s5 := f s4) in *
        end
    end.
    destruct (ready env); cbn [fst];
      (eapply quiet_trans; [exact H5|]).
    + apply (keeps_seq _ _
               (keeps_seq _ _ (keeps_addDebugInfo _)
                          (keeps_setIsStreaming _))
               (keeps_addDebugInfo _)).
    + apply keeps_addDebugInfo.
    + apply (keeps_seq _ _
               (keeps_seq _ _ (keeps_pendingReadyTimeouts _)
                          keeps_readyTimeoutBody)
               (keeps_addDebugInfo _)).
  - cbn [fst] in *. eapply quiet_trans; eassumption.
Qed.

Lemma keeps_startCamera env : keeps (startCamera env).
Proof.
  intro s. unfold startCamera.
  match goal with
  | |- context [startCameraTry env ?x] =>
      assert (H0 : quiet s x);
      [| pose proof (startCameraTry_quiet env x) as HT;
         destruct (startCameraTry env x) as [s1 thrown] ]
  end.
  { apply (keeps_seq _ _
             (keeps_seq _ _ (keeps_setIsLoading _) (keeps_setError _))
             (keeps_addDebugInfo _)). }
  cbn [fst] in HT.
  eapply quiet_trans; [exact H0|].
  eapply quiet_trans; [exact HT|].
  eapply quiet_trans; [|apply keeps_setIsLoading].
  destruct thrown as [e|];
    [apply keeps_startCameraCatch | apply quiet_refl].
Qed.

End FrameLemmas.

Section ExportFrames.

Context {clock : WallClock}.

Lemma exportOne_quiet format fault index photo acc :
  quiet (fst acc) (fst (exportOne format fault index photo acc)).
Proof.
  destruct acc as [s clicked]. unfold exportOne.
  destruct fault; split; (reflexivity || (cbn; lia)).
Qed.

Lemma forEachPhoto_quiet format faults ps : forall index acc,
  quiet (fst acc)
        (fst (forEachPhoto (fun i p => exportOne format (faults i) i p)
                           index ps acc)).
Proof.
  induction ps as [|p ps IH]; intros index acc; cbn [forEachPhoto].
  - apply quiet_refl.
  - eapply quiet_trans; [apply exportOne_quiet | apply IH].
Qed.

Lemma exportIndividual_quiet format faults ps s :
  quiet s (fst (exportIndividual format faults ps s)).
Proof.
  unfold exportIndividual.
  pose proof (forEachPhoto_quiet format faults ps 0%nat (s, [])) as H.
  destruct (forEachPhoto _ 0%nat ps (s, [])) as [s1 clicked].
  cbn [fst] in *.
  eapply quiet_trans; [exact H | apply keeps_addDebugInfo].
Qed.

Lemma settle_quiet env ps r ev :
  quiet (fst (fst r)) (fst (fst (settle env ps r ev))).
Proof.
  destruct r as [[s c] clicked]. unfold settle.
  destruct (nth_error ps (s_index ev)) as [photo|]; [|apply quiet_refl].
  destruct (s_outcome ev) as [[drawError|]|].
  - apply keeps_addDebugInfo.
  - unfold onload. destruct (cellOf (s_index ev)) as [x y].
    match goal with |- context [if ?b then _ else _] => destruct b end;
      [destruct (collageDataUrl env); [destruct (collageLinkFault env)|]|];
      split; (reflexivity || (cbn; lia)).
  - unfold onerror.
    match goal with |- context [if ?b then _ else _] => destruct b end;
      split; (reflexivity || (cbn; lia)).
Qed.

Lemma settles_quiet env ps evs : forall r,
  quiet (fst (fst r)) (fst (fst (fold_left (settle env ps) evs r))).
Proof.
  induction evs as [|ev evs IH]; intro r; cbn [fold_left].
  - apply quiet_refl.
  - eapply quiet_trans; [apply settle_quiet | apply IH].
Qed.

Lemma exportPhotos_quiet format faults env ps s :
  quiet s (fst (fst (exportPhotos format faults env ps s))).
Proof.
  unfold exportPhotos. destruct ps as [|p ps]; [apply quiet_refl|].
  set (s1 := addDebugInfo _ s).
  assert (H1 : quiet s s1) by apply keeps_addDebugInfo.
  assert (HI : forall f,
             quiet s
               (fst (fst (let (s2, clicked) :=
                            exportIndividual f faults (p :: ps) s1 in
                          (s2, @None Collage, clicked))))).
  { intro f. pose proof (exportIndividual_quiet f faults (p :: ps) s1) as H.
    destruct (exportIndividual f faults (p :: ps) s1) as [s2 clicked].
    cbn [fst] in *. eapply quiet_trans; eassumption. }
  destruct format; try apply HI.
  unfold exportCollage.
  destruct (exportCtxAvailable env); cbn [negb];
    [|eapply quiet_trans; [exact H1 | apply keeps_addDebugInfo]].
  pose proof (settles_quiet env (p :: ps) (settles env)
                (s1, newCollage (p :: ps), [])) as H.
  destruct (fold_left _ (settles env) _) as [[s2 c] clicked].
  cbn [fst] in *. eapply quiet_trans; eassumption.
Qed.

Lemma keeps_checkVideoElement : keeps checkVideoElement.
Proof.
  intro s. unfold checkVideoElement.
  destruct (videoRef s); split; (reflexivity || (cbn; lia)).
Qed.

Lemma keeps_flashTimeout : keeps flashTimeout.
Proof.
  intro s. unfold flashTimeout.
  destruct (flashTimerRef s) as [[|]|];
    split; (reflexivity || (cbn; lia)).
Qed.

End ExportFrames.

Section Capture.

Context {clock : WallClock}.

(** What one run of [capturePhoto] can change: the photo sequence grows
    by at most one photo, and only if the closure saw room for it; the
    new photo's identifier is a reading of the clock taken during the
    run, and the run reads the clock at least once more after it. *)
Lemma capturePhoto_effect c env s :
  let s' := capturePhoto c env s in
  maxPhotos s' = maxPhotos s
  /\ isCapturing s' = isCapturing s
  /\ countdownTimerRef s' = countdownTimerRef s
  /\ countdown s' = countdown s
  /\ isSessionActive s' = isSessionActive s
  /\ videoRef s' = videoRef s
  /\ (canvasRef s <> None -> canvasRef s' <> None)
  /\ (clockReads s <= clockReads s')%nat
  /\ (photos s' = photos s
      \/ (c_photosLength c < c_maxPhotos c
          /\ exists p r,
              photos s' = (photos s ++ [p])%list
              /\ id p = JS.toString (wallClock r)
              /\ (clockReads s <= r /\ r + 2 <= clockReads s')%nat)).
Proof.
  unfold capturePhoto.
  destruct (videoRef s) as [v|] eqn:Hv;
    [|cbn; rewrite Hv; intuition lia].
  destruct (canvasRef s) as [cv|] eqn:Hc;
    [|cbn; rewrite Hv; intuition lia].
  destruct (c_maxPhotos c <=? c_photosLength c) eqn:Hfull;
    [cbn; rewrite Hv, Hc; intuition (congruence || lia)|].
  apply Z.leb_gt in Hfull.
  destruct (ctxAvailable env); cbn [negb].
  - destruct (drawResult env) as [url|captureError]; cbn; rewrite ?Hv.
    + repeat split; try discriminate; try lia.
      right. split; [exact Hfull|].
      eexists. exists (clockReads s).
      split; [reflexivity|]. split; [reflexivity | lia].
    + repeat split; try discriminate; try lia. left; reflexivity.
  - cbn. rewrite Hv, Hc. repeat split; try lia; try discriminate; auto.
Qed.

End Capture.

Section Invariant.

Context {clock : WallClock}.

Lemma view_is s ps m cap tm cd act cv :
  sessionView s = (ps, m, cap, tm, cd, act, cv) ->
  photos s = ps /\ maxPhotos s = m /\ isCapturing s = cap
  /\ countdownTimerRef s = tm /\ countdown s = cd
  /\ isSessionActive s = act /\ canvasRef s = cv.
Proof.
  unfold sessionView. intro H. injection H. tauto.
Qed.

Lemma view_fields s s' :
  sessionView s' = sessionView s ->
  photos s' = photos s /\ maxPhotos s' = maxPhotos s
  /\ isCapturing s' = isCapturing s
  /\ countdownTimerRef s' = countdownTimerRef s
  /\ countdown s' = countdown s
  /\ isSessionActive s' = isSessionActive s
  /\ canvasRef s' = canvasRef s.
Proof.
  intro H. apply view_is. exact H.
Qed.

Lemma commit_video s :
  isSessionActive (commit s) = true -> videoRef (commit s) <> None.
Proof.
  unfold commit. destruct (isSessionActive s) eqn:Ha.
  - destruct (videoRef s) eqn:Hv; cbn; intros _; congruence.
  - cbn. congruence.
Qed.

(** Committing a state whose session fields are in order gives a state
    that satisfies the invariant. *)
Lemma Inv_commit s :
  1 <= maxPhotos s <= 10 ->
  photosLength s <= maxPhotos s ->
  (isSessionActive s = false ->
   photos s = [] /\ countdownTimerRef s = None) ->
  canvasRef s <> None ->
  (forall t, countdownTimerRef s = Some t ->
             isCapturing s = true /\ countdown s = count t
             /\ 1 <= count t <= 3
             /\ c_photosLength (t_capturePhoto t) = photosLength s
             /\ c_maxPhotos (t_capturePhoto t) = maxPhotos s
             /\ photosLength s < maxPhotos s) ->
  Inv (commit s).
Proof.
  intros Ht Hc Hi Hcv Htm.
  destruct (view_fields _ _ (keeps_view commit s keeps_commit))
    as (Hp & Hm & Hcap & Hti & Hcd & Ha & Hcan).
  assert (Hlen : photosLength (commit s) = photosLength s)
    by (unfold photosLength; now rewrite Hp).
  constructor; try apply commit_video;
    rewrite ?Hlen, ?Hm, ?Hp, ?Hti, ?Ha, ?Hcan, ?Hcap, ?Hcd; auto.
Qed.

Lemma Inv_keeps s s' :
  Inv s -> sessionView s' = sessionView s -> Inv (commit s').
Proof.
  intros [Ht Hc Hi _ Hcv Htm] Hv.
  destruct (view_fields _ _ Hv) as (Hp & Hm & Hcap & Hti & Hcd & Ha & Hcan).
  assert (Hlen : photosLength s' = photosLength s)
    by (unfold photosLength; now rewrite Hp).
  apply Inv_commit;
    rewrite ?Hlen, ?Hm, ?Hp, ?Hti, ?Ha, ?Hcan, ?Hcap, ?Hcd; auto.
Qed.

(** Entering the session screen: the session fields stay, the session
    becomes active. *)
Lemma Inv_startSession s env (f : State -> State) :
  Inv s -> keeps f -> Inv (commit (startSession env (f s))).
Proof.
  intros [Ht Hc Hi _ Hcv Htm] Hf.
  set (s' := startSession env (f s)).
  assert (Hv : sessionView s'
               = (photos s, maxPhotos s, isCapturing s,
                  countdownTimerRef s, countdown s, true, canvasRef s)).
  { subst s'. unfold startSession, seqState.
    rewrite (keeps_view _ _ (keeps_startCamera env)).
    rewrite (keeps_view _ _ keeps_commit).
    destruct (view_fields _ _ (keeps_view _ s Hf))
      as (Hp & Hm & Hcap & Hti & Hcd & Ha & Hcan).
    unfold sessionView. cbn. now rewrite Hp, Hm, Hcap, Hti, Hcd, Hcan. }
  apply view_is in Hv.
  destruct Hv as (Hp & Hm & Hcap & Hti & Hcd & Ha & Hcan).
  assert (Hlen : photosLength s' = photosLength s)
    by (unfold photosLength; now rewrite Hp).
  apply Inv_commit;
    rewrite ?Hlen, ?Hm, ?Hp, ?Hti, ?Ha, ?Hcan, ?Hcap, ?Hcd; auto.
  discriminate.
Qed.

Lemma Inv_mount env : Inv (mount env).
Proof.
  unfold mount.
  match goal with
  | |- Inv (?f initialState) =>
      assert (K : keeps f);
      [| pose proof (view_fields _ _ (keeps_view _ initialState K))
           as Hv;
         set (s0 := f initialState) in * ]
  end.
  { frame.
    - destruct (_ || _); frame.
    - apply keeps_checkVideoElement. }
  destruct Hv as (Hp & Hm & Hcap & Hti & Hcd & Ha & Hcan).
  cbn in Hp, Hm, Hcap, Hti, Hcd, Ha, Hcan.
  constructor; unfold photosLength; rewrite ?Hp, ?Hm, ?Hti, ?Ha, ?Hcan;
    cbn; try lia; try discriminate; auto.
Qed.

Lemma Inv_step s e : Inv s -> Inv (step s e).
Proof.
  intro HI. unfold step.
  destruct (enabled e s) eqn:Hen; [|exact HI].
  destruct e; cbn [handle enabled] in *.
  - (* ChangeMaxPhotos *)
    destruct HI as [Ht Hc Hi _ Hcv Htm].
    apply andb_prop in Hen as [Hen Hhi].
    apply andb_prop in Hen as [Hidle Hlo].
    apply negb_true_iff in Hidle. destruct (Hi Hidle) as [Hp Hno].
    apply Z.leb_le in Hlo, Hhi.
    unfold handleMaxPhotosChange.
    apply Inv_commit; unfold photosLength; simpl; rewrite ?Hp, ?Hno.
    + lia.
    + simpl. lia.
    + auto.
    + exact Hcv.
    + discriminate.
  - (* ClickStartSession *)
    apply (Inv_startSession s env (fun x => x) HI keeps_id).
  - (* ClickRetry *)
    unfold seqState.
    apply (Inv_startSession s env
             (fun x => setDebugInfo (fun _ => []) (setError "" x)) HI).
    intro x. split; [reflexivity | cbn; lia].
  - (* ClickSettings *)
    apply Inv_keeps with (s := s); [exact HI | reflexivity].
  - (* ClickReset *)
    destruct HI as [Ht Hc Hi _ Hcv Htm].
    assert (Hv : sessionView (resetSession s)
                 = ([], maxPhotos s, false, None, 0, false, canvasRef s)).
    { unfold resetSession, seqState.
      rewrite (keeps_view _ _ keeps_stopCamera). reflexivity. }
    apply view_is in Hv.
    destruct Hv as (Hp & Hm & Hcap & Hti & Hcd & Ha & Hcan).
    apply Inv_commit; unfold photosLength;
      rewrite ?Hm, ?Hp, ?Hti, ?Ha, ?Hcan.
    + exact Ht.
    + simpl. lia.
    + auto.
    + exact Hcv.
    + discriminate.
  - (* ClickFilter *)
    apply Inv_keeps with (s := s); [exact HI | reflexivity].
  - (* ClickStartCamera *)
    apply Inv_keeps with (s := s); [exact HI|].
    unfold seqState. rewrite (keeps_view _ _ (keeps_startCamera env)).
    reflexivity.
  - (* ClickTakePhoto *)
    destruct HI as [Ht Hc Hi _ Hcv Htm].
    unfold takePhotoDisabled in Hen.
    repeat (apply andb_prop in Hen as [Hen ?]).
    match goal with
    | H : negb (_ || _) = true |- _ =>
        apply negb_true_iff, orb_false_iff in H as [Hcap Hroom]
    end.
    apply Z.leb_gt in Hroom.
    unfold startCountdown, closureOf. cbn [c_maxPhotos c_photosLength].
    destruct (maxPhotos s <=? photosLength s) eqn:Hfull;
      [apply Z.leb_le in Hfull; lia|].
    apply Inv_commit; unfold photosLength in *; cbn; auto.
    + intros Hidle. congruence.
    + intros t [= <-]. cbn. repeat split; auto; lia.
  - (* ClickStop *)
    apply Inv_keeps with (s := s); [exact HI | apply keeps_stopCamera].
  - (* ClickExport *)
    apply Inv_keeps with (s := s); [exact HI | apply exportPhotos_quiet].
  - (* IntervalFires *)
    destruct HI as [Ht Hc Hi Hvid Hcv Htm].
    unfold countdownTick.
    destruct (countdownTimerRef s) as [t|] eqn:Htimer; [|discriminate].
    destruct (Htm t eq_refl) as (Hcap & Hcd & Hcount & Hlen & Hmax & Hroom).
    assert (Hact : isSessionActive s = true).
    { destruct (isSessionActive s) eqn:Ha; [reflexivity|].
      destruct (Hi eq_refl) as [_ Hno]. congruence. }
    destruct (count t - 1 =? 0) eqn:Hzero.
    + unfold seqState.
      match goal with
      | |- context [capturePhoto ?c ?en ?x] =>
          pose proof (capturePhoto_effect c en x) as HE;
          set (s' := capturePhoto c en x) in *
      end.
      cbn zeta in HE.
      destruct HE as (Em & Ecap & Eti & Ecd & Ea & Ev & Ecv & _ & Eph).
      cbn in Em, Ecap, Eti, Ecd, Ea, Ev, Ecv, Eph.
      apply Inv_commit; unfold photosLength in *; cbn;
        rewrite ?Em, ?Ea, ?Eti; auto; try congruence.
      * destruct Eph as [-> | (Hlt & p & r & -> & _)]; [exact Hc|].
        rewrite length_app, Nat2Z.inj_add. cbn. lia.
    + apply Z.eqb_neq in Hzero.
      apply Inv_commit; unfold photosLength in *; cbn; auto.
      * congruence.
      * intros t' [= <-]. cbn. repeat split; auto; lia.
  - (* FlashTimeoutFires *)
    apply Inv_keeps with (s := s); [exact HI | apply keeps_flashTimeout].
  - (* ReadyTimeoutFires *)
    apply Inv_keeps with (s := s); [exact HI|].
    unfold seqState. rewrite (keeps_view _ _ keeps_readyTimeoutBody).
    reflexivity.
  - (* VideoPollFires *)
    apply Inv_keeps with (s := s); [exact HI|].
    apply keeps_checkVideoElement.
Qed.

Lemma Inv_reachable s : reachable s -> Inv s.
Proof.
  induction 1; auto using Inv_mount, Inv_step.
Qed.

Lemma reachable_run es : forall s, reachable s -> reachable (run es s).
Proof.
  unfold run. induction es as [|e es IH]; intros s Hs; cbn [fold_left].
  - exact Hs.
  - apply IH. now constructor.
Qed.

End Invariant.

Section Countdown.

Context {clock : WallClock}.

Lemma run_app es1 es2 s : run (es1 ++ es2) s = run es2 (run es1 s).
Proof. unfold run. apply fold_left_app. Qed.

Lemma Inv_run es : forall s, Inv s -> Inv (run es s).
Proof.
  unfold run. induction es as [|e es IH]; intros s Hs; cbn [fold_left].
  - exact Hs.
  - apply IH, Inv_step, Hs.
Qed.

Lemma Inv_active_of_timer s t :
  Inv s -> countdownTimerRef s = Some t -> isSessionActive s = true.
Proof.
  intros HI Ht. destruct (isSessionActive s) eqn:Ha; [reflexivity|].
  destruct (inv_idle s HI Ha) as [_ Hno]. congruence.
Qed.

(** A click on "Take Photo" does nothing while the button is disabled. *)
Lemma takePhoto_disabled_noop s :
  takePhotoDisabled s = true -> step s ClickTakePhoto = s.
Proof.
  intro Hd. unfold step. cbn [enabled]. rewrite Hd.
  now rewrite !andb_false_r.
Qed.

Lemma step_interval env s t :
  countdownTimerRef s = Some t ->
  step s (IntervalFires env) = commit (countdownTick env s).
Proof.
  intro Ht. unfold step. cbn [enabled handle]. now rewrite Ht.
Qed.

Lemma step_interval_none env s :
  countdownTimerRef s = None -> step s (IntervalFires env) = s.
Proof.
  intro Ht. unfold step. cbn [enabled]. now rewrite Ht.
Qed.

(** A firing of the interval that does not reach zero only counts
    down. *)
Lemma tick_counts_down env s t :
  Inv s -> countdownTimerRef s = Some t -> count t - 1 <> 0 ->
  let s' := step s (IntervalFires env) in
  countdownTimerRef s' = Some (mkTimer (count t - 1) (t_capturePhoto t))
  /\ countdown s' = count t - 1
  /\ photos s' = photos s
  /\ isCapturing s' = true.
Proof.
  intros HI Ht Hnz.
  destruct (inv_timer s HI t Ht) as (Hcap & _).
  pose proof (Inv_active_of_timer s t HI Ht) as Ha.
  cbv zeta. rewrite (step_interval env s t Ht).
  unfold countdownTick. rewrite Ht.
  apply Z.eqb_neq in Hnz. rewrite Hnz.
  match goal with
  | |- context [commit ?x] =>
      destruct (view_fields _ _ (keeps_view commit x keeps_commit))
        as (Hp & _ & Hc & Hti & Hcd & _)
  end.
  rewrite Hp, Hc, Hti, Hcd. cbn. auto.
Qed.

(** The firings before the last one: [j] of them leave [count t - j] on
    the clock and the photos as they were. *)
Lemma ticks_count_down envs : forall s t,
  Inv s -> countdownTimerRef s = Some t ->
  Z.of_nat (List.length envs) < count t ->
  let s' := run (map IntervalFires envs) s in
  countdownTimerRef s'
  = Some (mkTimer (count t - Z.of_nat (List.length envs))
                  (t_capturePhoto t))
  /\ countdown s' = count t - Z.of_nat (List.length envs)
  /\ photos s' = photos s
  /\ isCapturing s' = true.
Proof.
  induction envs as [|env envs IH]; intros s t HI Ht Hlen.
  - destruct (inv_timer s HI t Ht) as (Hcap & Hcd & _).
    cbn. rewrite Z.sub_0_r. destruct t; cbn in *. auto.
  - cbn [List.length map] in *. rewrite Nat2Z.inj_succ in *.
    change (run (IntervalFires env :: map IntervalFires envs) s)
      with (run (map IntervalFires envs) (step s (IntervalFires env))).
    assert (Hnz : count t - 1 <> 0) by lia.
    destruct (tick_counts_down env s t HI Ht Hnz)
      as (Hti & Hcd & Hp & Hcap).
    specialize (IH (step s (IntervalFires env)) _
                   (Inv_step _ _ HI) Hti).
    cbn [count t_capturePhoto] in IH.
    assert (Hlt : Z.of_nat (List.length envs) < count t - 1) by lia.
    destruct (IH Hlt) as (Hti' & Hcd' & Hp' & Hcap').
    cbv zeta. rewrite Hti', Hcd', Hp', Hcap', Hp.
    replace (count t - Z.succ (Z.of_nat (List.length envs)))
      with (count t - 1 - Z.of_nat (List.length envs)) by lia.
    auto.
Qed.

(** When the closure saw room and the browser delivers a frame,
    [capturePhoto] appends exactly one photo made of that frame. *)
Lemma capturePhoto_appends c env s url :
  videoRef s <> None -> canvasRef s <> None ->
  c_photosLength c < c_maxPhotos c ->
  ctxAvailable env = true -> drawResult env = inl url ->
  exists p, photos (capturePhoto c env s) = (photos s ++ [p])%list
            /\ dataUrl p = url.
Proof.
  intros Hv Hc Hroom Hctx Hdraw. unfold capturePhoto.
  destruct (videoRef s); [|congruence].
  destruct (canvasRef s); [|congruence].
  apply Z.leb_gt in Hroom. rewrite Hroom, Hctx, Hdraw. cbn [negb].
  eexists. split; reflexivity.
Qed.

(** The firing that reaches zero clears the interval, captures once and
    leaves the countdown. *)
Lemma tick_captures env s t :
  Inv s -> countdownTimerRef s = Some t -> count t = 1 ->
  let s' := step s (IntervalFires env) in
  countdownTimerRef s' = None
  /\ countdown s' = 0
  /\ isCapturing s' = false
  /\ (photos s' = photos s
      \/ exists p, photos s' = (photos s ++ [p])%list)
  /\ (ctxAvailable env = true ->
      forall url, drawResult env = inl url ->
      exists p, photos s' = (photos s ++ [p])%list /\ dataUrl p = url).
Proof.
  intros HI Ht Hone.
  destruct (inv_timer s HI t Ht) as (Hcap & _ & _ & Hlen & Hmax & Hroom).
  pose proof (Inv_active_of_timer s t HI Ht) as Ha.
  pose proof (inv_video s HI Ha) as Hvid.
  pose proof (inv_canvas s HI) as Hcv.
  cbv zeta. rewrite (step_interval env s t Ht).
  unfold countdownTick. rewrite Ht, Hone. cbn [Z.sub Z.eqb Z.add Z.opp
    Z.pos_sub]. unfold seqState.
  match goal with
  | |- context [capturePhoto ?c env ?x] =>
      pose proof (capturePhoto_effect c env x) as HE;
      pose proof (fun url => capturePhoto_appends c env x url) as HA;
      set (sc := capturePhoto c env x) in *
  end.
  cbv zeta in HE.
  destruct HE as (_ & _ & Eti & _ & _ & _ & _ & _ & Eph).
  cbn in Eti, Eph, HA.
  match goal with
  | |- context [commit ?x] =>
      destruct (view_fields _ _ (keeps_view commit x keeps_commit))
        as (Hp & _ & Hc & Hti & Hcd & _)
  end.
  rewrite Hp, Hc, Hti, Hcd. cbn.
  repeat split; auto.
  - destruct Eph as [E | (_ & p & r & E & _)]; eauto.
  - intros Hctx url Hdraw. apply HA; auto. lia.
Qed.

End Countdown.

Section SessionClaims.

Context {clock : WallClock}.

(** C1.  Whatever the user and the timers do after the component is
    mounted, the target photo count stays within 1..10 and the photo
    sequence never holds more photos than the target; once the count has
    reached the target, a further capture request is a no-op: the click
    on "Take Photo" is ignored, [startCountdown] returns at its guard and
    so does [capturePhoto]. *)
Theorem photo_count_never_exceeds_target (env : MountEnv)
        (es : list Event) :
  let s := run es (mount env) in
  1 <= maxPhotos s <= 10
  /\ photosLength s <= maxPhotos s
  /\ (photosLength s = maxPhotos s ->
      step s ClickTakePhoto = s
      /\ startCountdown (closureOf s) s = s
      /\ forall cenv, capturePhoto (closureOf s) cenv s = s).
Proof.
  cbv zeta.
  pose proof (Inv_run es _ (Inv_mount env)) as HI.
  set (s := run es (mount env)) in *.
  split; [apply (inv_target s HI)|].
  split; [apply (inv_cap s HI)|].
  intro Hfull.
  assert (Hleb : (maxPhotos s <=? photosLength s) = true)
    by (apply Z.leb_le; lia).
  repeat split.
  - apply takePhoto_disabled_noop. unfold takePhotoDisabled.
    rewrite Hleb. apply orb_true_r.
  - unfold startCountdown, closureOf. cbn [c_maxPhotos c_photosLength].
    now rewrite Hleb.
  - intro cenv. unfold capturePhoto, closureOf.
    cbn [c_maxPhotos c_photosLength]. rewrite Hleb.
    destruct (videoRef s), (canvasRef s); reflexivity.
Qed.

(** C2.  While a countdown is running, a capture request changes
    nothing: the state, and with it the single interval and its count,
    is the one before the click.  The countdown then goes through every
    remaining value, one per firing, without touching the photos, and its
    last firing clears the interval and captures exactly once: at most
    one photo is appended, exactly one when the browser delivers the
    frame, and no further firing can happen. *)
Theorem capture_request_during_countdown_is_ignored (s : State)
        (t : Timer) :
  reachable s -> countdownTimerRef s = Some t ->
  let s0 := step s ClickTakePhoto in
  s0 = s
  /\ forall envs lastEnv,
      Z.of_nat (List.length envs) = count t - 1 ->
      (forall j, (j <= List.length envs)%nat ->
         let sj := run (map IntervalFires (firstn j envs)) s0 in
         countdown sj = count t - Z.of_nat j
         /\ photos sj = photos s
         /\ isCapturing sj = true
         /\ exists t', countdownTimerRef sj = Some t')
      /\ let sEnd := run (map IntervalFires (envs ++ [lastEnv])) s0 in
         countdownTimerRef sEnd = None
         /\ countdown sEnd = 0
         /\ isCapturing sEnd = false
         /\ (photos sEnd = photos s
             \/ exists p, photos sEnd = (photos s ++ [p])%list)
         /\ (ctxAvailable lastEnv = true ->
             forall url, drawResult lastEnv = inl url ->
             exists p, photos sEnd = (photos s ++ [p])%list
                       /\ dataUrl p = url)
         /\ forall e, step sEnd (IntervalFires e) = sEnd.
Proof.
  intros Hreach Ht. cbv zeta.
  pose proof (Inv_reachable s Hreach) as HI.
  destruct (inv_timer s HI t Ht) as (Hcap & _).
  assert (Hnoop : step s ClickTakePhoto = s).
  { apply takePhoto_disabled_noop. unfold takePhotoDisabled.
    now rewrite Hcap. }
  rewrite Hnoop. split; [reflexivity|].
  intros envs lastEnv Hlen. split.
  - intros j Hj.
    assert (Hj' : List.length (firstn j envs) = j)
      by (apply firstn_length_le; exact Hj).
    destruct (ticks_count_down (firstn j envs) s t HI Ht)
      as (Hti & Hcd & Hp & Hc); [rewrite Hj'; lia|].
    rewrite Hj' in *. eauto.
  - rewrite map_app, run_app.
    assert (Hlt : Z.of_nat (List.length envs) < count t) by lia.
    destruct (ticks_count_down envs s t HI Ht Hlt)
      as (Hti & _ & Hp & _).
    set (sMid := run (map IntervalFires envs) s) in *.
    assert (HIm : Inv sMid) by (apply Inv_run, HI).
    change (run (map IntervalFires [lastEnv]) sMid)
      with (step sMid (IntervalFires lastEnv)).
    destruct (tick_captures lastEnv sMid _ HIm Hti)
      as (Eti & Ecd & Ecap & Eph & Eone);
      [cbn [count]; lia|].
    rewrite Hp in *. repeat split; auto.
    intro e. apply step_interval_none, Eti.
Qed.

(** The handler itself has no guard on a running countdown: it is the
    disabled button that keeps the request away.  Called on a state with
    a running interval and room for a photo, [startCountdown] replaces
    the interval by a fresh one at 3. *)
Remark startCountdown_replaces_interval (s : State) :
  photosLength s < maxPhotos s ->
  countdownTimerRef (startCountdown (closureOf s) s)
  = Some (mkTimer 3 (closureOf s))
  /\ countdown (startCountdown (closureOf s) s) = 3.
Proof.
  intro Hroom. unfold startCountdown, closureOf.
  cbn [c_maxPhotos c_photosLength].
  apply Z.leb_gt in Hroom. rewrite Hroom. split; reflexivity.
Qed.

End SessionClaims.

Section SliceLast.

Context {A : Type}.

Lemma sliceLast_snoc (l : list A) (x : A) :
  (JS.sliceLast 9 l ++ [x] = JS.sliceLast 10 (l ++ [x]))%list.
Proof.
  unfold JS.sliceLast. rewrite length_app. cbn [List.length].
  replace (List.length l + 1 - 10)%nat with (List.length l - 9)%nat
    by lia.
  rewrite skipn_app.
  replace (List.length l - 9 - List.length l)%nat with 0%nat by lia.
  reflexivity.
Qed.

Lemma sliceLast_app_sliceLast (n : nat) (l m : list A) :
  JS.sliceLast n (JS.sliceLast n l ++ m) = JS.sliceLast n (l ++ m).
Proof.
  unfold JS.sliceLast.
  destruct (Nat.le_gt_cases (List.length l) n) as [Hle | Hgt].
  - replace (List.length l - n)%nat with 0%nat by lia. reflexivity.
  - rewrite !length_app, length_skipn.
    replace (List.length l - (List.length l - n) + List.length m - n)%nat
      with (List.length m) by lia.
    replace (List.length l + List.length m - n)%nat
      with (List.length m + (List.length l - n))%nat by lia.
    rewrite <- skipn_skipn. f_equal.
    rewrite skipn_app.
    replace (List.length l - n - List.length l)%nat with 0%nat by lia.
    reflexivity.
Qed.

End SliceLast.

Section Log.

Context {clock : WallClock}.

Lemma logView_addDebugInfo info s :
  logView (addDebugInfo info s) = addLog (logView s) info.
Proof. reflexivity. Qed.

Lemma logView_stopAndLogTracks st : forall s,
  logView (stopAndLogTracks st s)
  = fold_left addLog (map trackMessage st) (logView s).
Proof.
  unfold stopAndLogTracks.
  induction st as [|track st IH]; intro s; cbn [fold_left map].
  - reflexivity.
  - rewrite IH. reflexivity.
Qed.

Lemma logView_stopCamera s :
  logView (stopCamera s)
  = fold_left addLog ("Stopping camera..." :: map trackMessage (tracksOf s))
              (logView s).
Proof.
  unfold stopCamera, seqState, tracksOf. cbn [fold_left].
  rewrite <- logView_addDebugInfo.
  set (s1 := addDebugInfo "Stopping camera..." s).
  change (streamRef s) with (streamRef s1).
  destruct (streamRef s1) as [st|].
  - rewrite <- logView_stopAndLogTracks.
    match goal with
    | |- context [videoRef ?x] => destruct (videoRef x)
    end; reflexivity.
  - destruct (videoRef s1); reflexivity.
Qed.

Lemma logView_resetSession s :
  logView (resetSession s) = fold_left addLog (resetMessages s) (logView s).
Proof.
  unfold resetSession, seqState, resetMessages. cbn [fold_left].
  rewrite logView_stopCamera. reflexivity.
Qed.

(** Logging a non-empty run of messages leaves the last ten entries of
    the old log followed by the new entries. *)
Lemma fold_addLog infos : forall log reads,
  infos <> [] ->
  fst (fold_left addLog infos (log, reads))
  = JS.sliceLast 10 (log ++ stampEntries reads infos)%list.
Proof.
  induction infos as [|info rest IH]; intros log reads Hne;
    [congruence|].
  cbn [fold_left stampEntries]. unfold addLog at 2. cbn [fst snd].
  destruct rest as [|info' rest'].
  - cbn [fold_left fst stampEntries]. apply sliceLast_snoc.
  - rewrite IH by discriminate.
    rewrite sliceLast_snoc, sliceLast_app_sliceLast.
    now rewrite <- app_assoc.
Qed.

End Log.

(** Two states with the same fields are the same state. *)
Lemma state_ext (a b : State) :
  isStreaming a = isStreaming b -> photos a = photos b ->
  maxPhotos a = maxPhotos b -> countdown a = countdown b ->
  isCapturing a = isCapturing b -> showSettings a = showSettings b ->
  currentFilter a = currentFilter b ->
  isSessionActive a = isSessionActive b -> flashEffect a = flashEffect b ->
  isLoading a = isLoading b -> error a = error b ->
  debugInfo a = debugInfo b -> videoRef a = videoRef b ->
  canvasRef a = canvasRef b -> streamRef a = streamRef b ->
  countdownTimerRef a = countdownTimerRef b ->
  flashTimerRef a = flashTimerRef b -> clockReads a = clockReads b ->
  stoppedTracks a = stoppedTracks b ->
  pendingReadyTimeouts a = pendingReadyTimeouts b ->
  videoPollPending a = videoPollPending b ->
  a = b.
Proof.
  destruct a, b. cbn. intros. subst. reflexivity.
Qed.

Section Release.

Context {clock : WallClock}.

Lemma stopAndLogTracks_fields st : forall s,
  stoppedTracks (stopAndLogTracks st s) = (stoppedTracks s ++ st)%list
  /\ eraseLog (stopAndLogTracks st s) = eraseLog (stopTracks st s).
Proof.
  unfold stopAndLogTracks.
  induction st as [|track st IH]; intro s; cbn [fold_left].
  - split; [now rewrite app_nil_r|].
    apply state_ext; try reflexivity.
    change (stoppedTracks s = (stoppedTracks s ++ [])%list).
    now rewrite app_nil_r.
  - destruct (IH (addDebugInfo ("Stopped track: " ++ kind track)
                               (stopTracks [track] s))) as [E1 E2].
    split.
    + rewrite E1.
      change (((stoppedTracks s ++ [track]) ++ st)%list
              = (stoppedTracks s ++ [track] ++ st)%list).
      symmetry. apply app_assoc.
    + rewrite E2. apply state_ext; try reflexivity.
      change (((stoppedTracks s ++ [track]) ++ st)%list
              = (stoppedTracks s ++ [track] ++ st)%list).
      symmetry. apply app_assoc.
Qed.

(** What [stopCamera] leaves behind, whatever it started from. *)
Lemma stopCamera_released s :
  let s' := stopCamera s in
  streamRef s' = None
  /\ isStreaming s' = false
  /\ error s' = ""
  /\ stoppedTracks s' = (stoppedTracks s ++ tracksOf s)%list
  /\ videoRef s' = match videoRef s with
                   | Some _ => Some (mkVideo None)
                   | None => None
                   end.
Proof.
  unfold stopCamera, seqState, tracksOf.
  set (s1 := addDebugInfo "Stopping camera..." s).
  change (streamRef s) with (streamRef s1).
  change (videoRef s) with (videoRef s1).
  change (stoppedTracks s) with (stoppedTracks s1).
  set (s2 := match streamRef s1 with
             | Some st => upd_streamRef (fun _ => None)
                                        (stopAndLogTracks st s1)
             | None => s1
             end).
  assert (H2 : streamRef s2 = None
               /\ stoppedTracks s2
                  = (stoppedTracks s1
                       ++ match streamRef s1 with
                          | Some st => st
                          | None => []
                          end)%list
               /\ videoRef s2 = videoRef s1).
  { subst s2. destruct (streamRef s1) as [st|] eqn:Hst.
    - destruct (stopAndLogTracks_fields st s1) as [E1 E2].
      repeat split; [exact E1|].
      change (videoRef (eraseLog (stopAndLogTracks st s1))
              = videoRef (eraseLog (stopTracks st s1))).
      now rewrite E2.
    - rewrite app_nil_r. auto. }
  destruct H2 as (H2a & H2b & H2c).
  set (s3 := match videoRef s2 with
             | Some _ => upd_videoRef (fun _ => Some (mkVideo None)) s2
             | None => s2
             end).
  assert (H3 : streamRef s3 = None
               /\ stoppedTracks s3 = stoppedTracks s2
               /\ videoRef s3 = match videoRef s1 with
                                | Some _ => Some (mkVideo None)
                                | None => None
                                end).
  { subst s3. rewrite <- H2c.
    destruct (videoRef s2) eqn:Hv; auto. }
  destruct H3 as (H3a & H3b & H3c).
  cbv zeta. repeat split.
  - exact H3a.
  - rewrite <- H2b, <- H3b. reflexivity.
  - rewrite <- H3c. reflexivity.
Qed.

(** On a state that a release has left, another release changes nothing
    but the log. *)
Lemma stopCamera_on_released s :
  streamRef s = None -> isStreaming s = false -> error s = "" ->
  (videoRef s = None \/ videoRef s = Some (mkVideo None)) ->
  eraseLog (stopCamera s) = eraseLog s.
Proof.
  intros Hst Hstr Herr Hvid.
  unfold stopCamera, seqState.
  set (s1 := addDebugInfo "Stopping camera..." s).
  change (streamRef s1) with (streamRef s). rewrite Hst.
  change (videoRef s1) with (videoRef s).
  destruct Hvid as [Hv | Hv]; rewrite Hv;
    apply state_ext; try reflexivity;
    cbn [isStreaming error videoRef eraseLog]; auto.
Qed.

End Release.

Section ResetClaims.

Context {clock : WallClock}.

Lemma debugInfo_logView x : debugInfo x = fst (logView x).
Proof. reflexivity. Qed.

Lemma eraseLog_stoppedTracks x :
  stoppedTracks (eraseLog x) = stoppedTracks x.
Proof. reflexivity. Qed.

(** The fields that neither [stopCamera] nor its log lines touch. *)
Lemma stopCamera_untouched s :
  currentFilter (stopCamera s) = currentFilter s
  /\ flashTimerRef (stopCamera s) = flashTimerRef s
  /\ showSettings (stopCamera s) = showSettings s.
Proof.
  unfold stopCamera, seqState.
  set (s1 := addDebugInfo "Stopping camera..." s).
  set (s2 := match streamRef s1 with
             | Some st => upd_streamRef (fun _ => None)
                                        (stopAndLogTracks st s1)
             | None => s1
             end).
  assert (H2 : currentFilter s2 = currentFilter s
               /\ flashTimerRef s2 = flashTimerRef s
               /\ showSettings s2 = showSettings s).
  { subst s2. destruct (streamRef s1) as [st|]; [|repeat split].
    destruct (stopAndLogTracks_fields st s1) as [_ E].
    repeat split.
    - change (currentFilter (eraseLog (stopAndLogTracks st s1))
              = currentFilter s). now rewrite E.
    - change (flashTimerRef (eraseLog (stopAndLogTracks st s1))
              = flashTimerRef s). now rewrite E.
    - change (showSettings (eraseLog (stopAndLogTracks st s1))
              = showSettings s). now rewrite E. }
  destruct H2 as (Ha & Hb & Hc).
  destruct (videoRef s2); repeat split; assumption.
Qed.

(** [resetSession] ends with [stopCamera]. *)
Lemma resetSession_eq s :
  resetSession s
  = stopCamera
      ((addDebugInfo "Resetting session..." ;;
        setPhotos (fun _ => []) ;;
        setIsSessionActive false ;;
        setIsCapturing false ;;
        setCountdown 0 ;;
        setShowSettings false ;;
        setError "" ;;
        upd_countdownTimerRef (fun _ => None) ;;
        upd_flashTimerRef (fun _ => None)) s).
Proof. reflexivity. Qed.

(** C3, as the code has it.  From every state, [resetSession] leaves the
    welcome screen ([isSessionActive] and [isStreaming] false), no photos,
    the countdown at 0, the capturing flag cleared, both timers cancelled,
    the error slot empty and the device handle released, every track of
    it stopped; releasing again stops nothing and changes nothing outside
    the log.  The selected filter is not reset: it is the one selected
    before. *)
Theorem reset_returns_to_idle_and_keeps_filter (s : State) :
  let s' := resetSession s in
  isSessionActive s' = false
  /\ isStreaming s' = false
  /\ photos s' = []
  /\ countdown s' = 0
  /\ isCapturing s' = false
  /\ countdownTimerRef s' = None
  /\ flashTimerRef s' = None
  /\ error s' = ""
  /\ streamRef s' = None
  /\ stoppedTracks s' = (stoppedTracks s ++ tracksOf s)%list
  /\ currentFilter s' = currentFilter s
  /\ eraseLog (stopCamera s') = eraseLog s'
  /\ stoppedTracks (stopCamera s') = stoppedTracks s'.
Proof.
  cbv zeta. rewrite resetSession_eq.
  match goal with
  | |- context [stopCamera ?x] => set (s0 := x)
  end.
  destruct (stopCamera_released s0) as (Hst & Hstr & Herr & Htr & Hvid).
  destruct (stopCamera_untouched s0) as (Hfil & Hfl & _).
  destruct (view_fields _ _ (keeps_view _ s0 keeps_stopCamera))
    as (Hp & _ & Hcap & Hti & Hcd & Ha & _).
  assert (Hidem : eraseLog (stopCamera (stopCamera s0))
                  = eraseLog (stopCamera s0)).
  { apply stopCamera_on_released; auto.
    rewrite Hvid. destruct (videoRef s0); auto. }
  repeat split; try assumption.
  - rewrite <- (eraseLog_stoppedTracks (stopCamera (stopCamera s0))).
    rewrite Hidem. apply eraseLog_stoppedTracks.
Qed.

(** C9, as the code has it.  A second release, or a release with no
    handle, stops no track, leaves the handle absent and the error slot
    empty, and agrees with a single release on every field outside the
    log; the log itself gets one more "Stopping camera..." entry each
    time. *)
Theorem release_is_idempotent_up_to_the_log (s : State) :
  let once := stopCamera s in
  let twice := stopCamera once in
  eraseLog twice = eraseLog once
  /\ streamRef once = None
  /\ streamRef twice = None
  /\ error twice = ""
  /\ stoppedTracks once = (stoppedTracks s ++ tracksOf s)%list
  /\ stoppedTracks twice = stoppedTracks once
  /\ debugInfo twice
     = JS.sliceLast 10
         (debugInfo once
            ++ [(toLocaleTimeString (wallClock (clockReads once))
                   ++ ": Stopping camera...")%string])%list.
Proof.
  cbv zeta.
  destruct (stopCamera_released s) as (Hst & Hstr & Herr & Htr & Hvid).
  destruct (stopCamera_released (stopCamera s))
    as (Hst2 & _ & Herr2 & _).
  assert (Hidem : eraseLog (stopCamera (stopCamera s))
                  = eraseLog (stopCamera s)).
  { apply stopCamera_on_released; auto.
    rewrite Hvid. destruct (videoRef s); auto. }
  repeat split; try assumption.
  - rewrite <- (eraseLog_stoppedTracks (stopCamera (stopCamera s))).
    rewrite Hidem. apply eraseLog_stoppedTracks.
  - rewrite (debugInfo_logView (stopCamera (stopCamera s))).
    rewrite logView_stopCamera. unfold tracksOf. rewrite Hst.
    cbn [map]. unfold logView.
    rewrite fold_addLog by discriminate. reflexivity.
Qed.

(** C10, as the code has it.  [resetSession] leaves the target photo
    count as it was and does not clear the debug log: the log after the
    reset is the last ten entries of the old log followed by the lines
    the reset writes ("Resetting session...", "Stopping camera..." and
    one "Stopped track" line per track of a live handle).  The photos,
    the countdown, the capturing flag, the settings panel and the error
    slot are cleared. *)
Theorem reset_keeps_target_and_rolls_log (s : State) :
  maxPhotos (resetSession s) = maxPhotos s
  /\ debugInfo (resetSession s)
     = JS.sliceLast 10
         (debugInfo s ++ stampEntries (clockReads s) (resetMessages s))%list
  /\ (2 <= List.length (resetMessages s))%nat
  /\ photos (resetSession s) = []
  /\ countdown (resetSession s) = 0
  /\ isCapturing (resetSession s) = false
  /\ showSettings (resetSession s) = false
  /\ error (resetSession s) = "".
Proof.
  split; [|split; [|split]].
  4: { rewrite resetSession_eq.
       match goal with
       | |- context [stopCamera ?x] => set (s0 := x)
       end.
       destruct (stopCamera_released s0) as (_ & _ & Herr & _).
       destruct (stopCamera_untouched s0) as (_ & _ & Hset).
       destruct (view_fields _ _ (keeps_view _ s0 keeps_stopCamera))
         as (Hp & _ & Hcap & _ & Hcd & _).
       rewrite Hp, Hcd, Hcap, Hset, Herr. repeat split. }
  - rewrite resetSession_eq.
    match goal with
    | |- maxPhotos (stopCamera ?x) = _ =>
        destruct (view_fields _ _ (keeps_view _ x keeps_stopCamera))
          as (_ & Hm & _); rewrite Hm
    end.
    reflexivity.
  - rewrite (debugInfo_logView (resetSession s)).
    rewrite logView_resetSession. unfold logView.
    rewrite fold_addLog by discriminate. reflexivity.
  - unfold resetMessages. cbn [List.length]. lia.
Qed.

End ResetClaims.

Section Acquisition.

Context {clock : WallClock}.




End Acquisition.

Lemma toString_inj (a b : Z) : JS.toString a = JS.toString b -> a = b.
Proof.
  unfold JS.toString. intro H.
  assert (K : forall z, NilZero.int_of_string
                          (NilZero.string_of_int (Z.to_int z))
                        = Some (Z.to_int z)).
  { intro z. apply NilZero.isi; destruct z; cbn; try discriminate;
      intros [= E]; revert E; apply DecimalPos.Unsigned.to_uint_nonnil. }
  apply DecimalZ.to_int_inj.
  pose proof (K a) as Ka. rewrite H, K in Ka. now injection Ka.
Qed.

Section Identifiers.

Context {clock : WallClock}.

Lemma calm_trans s1 s2 s3 : calm s1 s2 -> calm s2 s3 -> calm s1 s3.
Proof.
  intros [P1 C1] [P2 C2]. split; [congruence | lia].
Qed.

Lemma quiet_calm s s' : quiet s s' -> calm s s'.
Proof.
  intros [V C]. apply view_fields in V. destruct V as (Hp & _).
  split; assumption.
Qed.

Lemma calm_startSession env s : calm s (startSession env s).
Proof.
  unfold startSession, seqState.
  apply (calm_trans _ (setIsSessionActive true s));
    [split; [reflexivity | apply Nat.le_refl]|].
  apply quiet_calm.
  eapply quiet_trans; [apply keeps_commit | apply keeps_startCamera].
Qed.

(** What one event can do to the photo sequence: nothing, empty it, or
    append one photo whose identifier is a reading of the clock taken
    during the event, with at least one more reading after it. *)
Lemma step_photos s e :
  (clockReads s <= clockReads (step s e))%nat
  /\ (photos (step s e) = photos s
      \/ photos (step s e) = []
      \/ exists p r,
          photos (step s e) = (photos s ++ [p])%list
          /\ id p = JS.toString (wallClock r)
          /\ (clockReads s <= r /\ r + 2 <= clockReads (step s e))%nat).
Proof.
  assert (Q : forall s', calm s s' ->
              (clockReads s <= clockReads (commit s'))%nat
              /\ (photos (commit s') = photos s
                  \/ photos (commit s') = []
                  \/ exists p r,
                      photos (commit s') = (photos s ++ [p])%list
                      /\ id p = JS.toString (wallClock r)
                      /\ (clockReads s <= r
                          /\ r + 2 <= clockReads (commit s'))%nat)).
  { intros s' Hc.
    destruct (calm_trans _ _ _ Hc (quiet_calm _ _ (keeps_commit s')))
      as [P C].
    auto. }
  unfold step. destruct (enabled e s) eqn:Hen; [|auto].
  destruct e; cbn [handle].
  - (* ChangeMaxPhotos *)
    apply Q. split; [reflexivity | apply Nat.le_refl].
  - (* ClickStartSession *)
    apply Q, calm_startSession.
  - (* ClickRetry *)
    apply Q. unfold seqState.
    eapply calm_trans; [|apply calm_startSession].
    split; [reflexivity | apply Nat.le_refl].
  - (* ClickSettings *)
    apply Q. split; [reflexivity | apply Nat.le_refl].
  - (* ClickReset *)
    rewrite resetSession_eq.
    match goal with
    | |- context [stopCamera ?x] =>
        destruct (quiet_trans _ _ _ (keeps_stopCamera x)
                              (keeps_commit (stopCamera x))) as [V C];
        apply view_fields in V; destruct V as (Hp & _)
    end.
    split; [|right; left; rewrite Hp; reflexivity].
    eapply Nat.le_trans; [|exact C]. cbn. lia.
  - (* ClickFilter *)
    apply Q. split; [reflexivity | apply Nat.le_refl].
  - (* ClickStartCamera *)
    apply Q. unfold seqState. apply quiet_calm.
    eapply quiet_trans; [apply keeps_setError | apply keeps_startCamera].
  - (* ClickTakePhoto *)
    apply Q. unfold startCountdown.
    destruct (_ <=? _); split; (reflexivity || apply Nat.le_refl).
  - (* ClickStop *)
    apply Q, quiet_calm, keeps_stopCamera.
  - (* ClickExport *)
    apply Q, quiet_calm, exportPhotos_quiet.
  - (* IntervalFires *)
    unfold countdownTick.
    destruct (countdownTimerRef s) as [t|]; [|apply Q; split; auto].
    destruct (count t - 1 =? 0);
      [|apply Q; split; [reflexivity | apply Nat.le_refl]].
    unfold seqState.
    match goal with
    | |- context [capturePhoto ?c env ?x] =>
        pose proof (capturePhoto_effect c env x) as HE;
        set (sc := capturePhoto c env x) in *;
        change (clockReads x) with (clockReads s) in HE;
        change (photos x) with (photos s) in HE
    end.
    cbv zeta in HE.
    destruct HE as (_ & _ & _ & _ & _ & _ & _ & Ecl & Eph).
    match goal with
    | |- context [commit ?x] =>
        destruct (keeps_commit x) as [V C];
        apply view_fields in V; destruct V as (Hp & _);
        change (photos x) with (photos sc) in Hp;
        change (clockReads x) with (clockReads sc) in C;
        set (sEnd := commit x) in *
    end.
    split; [lia|].
    rewrite Hp.
    destruct Eph as [E | (_ & p & r & E & Hid & Hr)]; [now left|].
    right; right. exists p, r. repeat split; auto; lia.
  - (* FlashTimeoutFires *)
    apply Q, quiet_calm, keeps_flashTimeout.
  - (* ReadyTimeoutFires *)
    apply Q, quiet_calm. unfold seqState.
    eapply quiet_trans;
      [apply keeps_pendingReadyTimeouts | apply keeps_readyTimeoutBody].
  - (* VideoPollFires *)
    apply Q, quiet_calm, keeps_checkVideoElement.
Qed.

End Identifiers.

Lemma idNumber_toString (p : Photo) (z : Z) :
  id p = JS.toString z -> idNumber p = z.
Proof.
  unfold idNumber, JS.toString. intros ->.
  rewrite NilZero.isi.
  - apply DecimalZ.of_to.
  - destruct z; cbn; try discriminate.
    intros [= E]. revert E. apply DecimalPos.Unsigned.to_uint_nonnil.
  - destruct z; cbn; try discriminate.
    intros [= E]. revert E. apply DecimalPos.Unsigned.to_uint_nonnil.
Qed.

Section IdentifierClaims.

Context {clock : WallClock}.

Lemma StronglySorted_snoc (l : list nat) (x : nat) :
  StronglySorted apart l -> Forall (fun r => apart r x) l ->
  StronglySorted apart (l ++ [x]).
Proof.
  induction l as [|a l IH]; intros Hs Hf; cbn.
  - repeat constructor.
  - inversion Hs; subst. inversion Hf; subst.
    constructor; [auto|].
    apply Forall_app. split; [assumption | repeat constructor; assumption].
Qed.

Lemma ids_step s e reads :
  idsFromReads s reads -> exists reads', idsFromReads (step s e) reads'.
Proof.
  intros (Hids & Hsort & Hpast).
  destruct (step_photos s e) as [Hclock [Hp | [Hp | (p & r & Hp & Hid & Hr)]]].
  - exists reads. unfold idsFromReads. rewrite Hp.
    repeat split; auto.
    eapply Forall_impl; [|exact Hpast]. cbn. intros; lia.
  - exists []. unfold idsFromReads. rewrite Hp.
    repeat split; constructor.
  - exists (reads ++ [r])%list. unfold idsFromReads. rewrite Hp.
    repeat split.
    + apply Forall2_app; [assumption | repeat constructor; assumption].
    + apply StronglySorted_snoc; [assumption|].
      eapply Forall_impl; [|exact Hpast]. unfold apart. cbn. intros; lia.
    + apply Forall_app. split.
      * eapply Forall_impl; [|exact Hpast]. cbn. intros; lia.
      * repeat constructor. lia.
Qed.

Lemma ids_mount env : idsFromReads (mount env) [].
Proof.
  pose proof (Inv_mount env) as HI.
  assert (Hp : photos (mount env) = []).
  { destruct (isSessionActive (mount env)) eqn:Ha.
    - exfalso. revert Ha. unfold mount, seqState.
      unfold checkVideoElement.
      match goal with
      | |- context [videoRef ?x] => destruct (videoRef x)
      end; destruct (_ || _); discriminate.
    - apply (inv_idle _ HI Ha). }
  unfold idsFromReads. rewrite Hp. repeat split; constructor.
Qed.

Lemma ids_run es : forall s reads,
  idsFromReads s reads -> exists reads', idsFromReads (run es s) reads'.
Proof.
  unfold run. induction es as [|e es IH]; intros s reads H;
    cbn [fold_left].
  - eauto.
  - destruct (ids_step s e reads H) as [reads' H']. eauto.
Qed.

Lemma apart_in (reads : list nat) :
  StronglySorted apart reads ->
  forall i j, In i reads -> In j reads -> (i < j)%nat -> (i + 2 <= j)%nat.
Proof.
  unfold apart.
  induction reads as [|a l IH]; intros Hs i j Hi Hj Hij; [contradiction|].
  inversion Hs as [|? ? Hs' Hall]; subst. rewrite Forall_forall in Hall.
  destruct Hi as [<- | Hi], Hj as [<- | Hj].
  - lia.
  - apply Hall, Hj.
  - specialize (Hall i Hi). lia.
  - apply IH; assumption.
Qed.

Lemma ids_in (ps : list Photo) (reads : list nat) (q : Photo) :
  Forall2 (fun p r => id p = JS.toString (wallClock r)) ps reads ->
  In q ps ->
  exists r, In r reads /\ id q = JS.toString (wallClock r).
Proof.
  induction 1 as [|p r ps reads Hp _ IH]; intro Hq; [contradiction|].
  destruct Hq as [<- | Hq].
  - exists r. split; [now left | exact Hp].
  - destruct (IH Hq) as (r' & Hr' & E). exists r'. split; [now right | exact E].
Qed.

(** The identifiers, read as numbers, are ordered as the clock orders the
    readings they were taken at. *)
Lemma ids_sorted (R : Z -> Z -> Prop) (ps : list Photo)
      (reads : list nat) :
  Forall2 (fun p r => id p = JS.toString (wallClock r)) ps reads ->
  StronglySorted apart reads ->
  (forall i j, In i reads -> In j reads -> (i < j)%nat ->
               R (wallClock i) (wallClock j)) ->
  StronglySorted R (map idNumber ps).
Proof.
  induction 1 as [|p r ps reads Hp Hrest IH]; intros Hs HR; cbn [map].
  - constructor.
  - inversion Hs as [|? ? Hs' Hall]; subst.
    constructor.
    + apply IH; [exact Hs'|].
      intros i j Hi Hj. apply HR; now right.
    + rewrite Forall_forall. intros x Hx.
      apply in_map_iff in Hx. destruct Hx as (q & <- & Hq).
      destruct (ids_in ps reads q Hrest Hq) as (r' & Hr' & E).
      rewrite (idNumber_toString p _ Hp), (idNumber_toString q _ E).
      apply HR; [now left | now right|].
      rewrite Forall_forall in Hall. specialize (Hall r' Hr').
      unfold apart in Hall. lia.
Qed.

(** C8, as the code has it.  Each photo's identifier is the decimal
    rendering of the wall clock read at its capture ([Date.now()]), and
    a later capture reads the clock later, with the reading for the
    earlier photo's timestamp in between.  So the identifiers never
    decrease in capture order when the clock never runs backwards, and
    they are pairwise distinct and increasing when the clock shows a
    greater value at a later capture than at an earlier one; the code has
    no other source of identifiers. *)
Theorem photo_ids_follow_the_clock (env : MountEnv) (es : list Event) :
  let s := run es (mount env) in
  exists reads,
    Forall2 (fun p r => id p = JS.toString (wallClock r))
            (photos s) reads
    /\ (forall i j, In i reads -> In j reads -> (i < j)%nat ->
                    (i + 2 <= j)%nat)
    /\ StronglySorted lt reads
    /\ ((forall i j, (i <= j)%nat -> wallClock i <= wallClock j) ->
        StronglySorted Z.le (map idNumber (photos s)))
    /\ ((forall i j, In i reads -> In j reads -> (i < j)%nat ->
                     wallClock i < wallClock j) ->
        NoDup (map id (photos s))
        /\ StronglySorted Z.lt (map idNumber (photos s))).
Proof.
  cbv zeta.
  destruct (ids_run es _ _ (ids_mount env)) as (reads & Hids & Hsort & _).
  exists reads.
  split; [exact Hids|]. split; [exact (apart_in reads Hsort)|].
  split.
  { clear Hids. induction Hsort as [|a l _ IH Hall]; constructor.
    - exact IH.
    - eapply Forall_impl; [|exact Hall]. unfold apart. intros; lia. }
  split.
  { intro Hmono. apply (ids_sorted Z.le _ reads Hids Hsort).
    intros i j _ _ Hij. apply Hmono. lia. }
  intro Hclock.
  pose proof (ids_sorted Z.lt _ reads Hids Hsort Hclock) as Hnum.
  split; [|exact Hnum].
  set (ps := photos (run es (mount env))) in *. clearbody ps.
  clear Hids Hsort Hclock. induction ps as [|p ps IH]; cbn.
  - constructor.
  - cbn in Hnum. inversion Hnum as [|? ? Hs Hlt]; subst.
    constructor; [|auto].
    intro Hin. apply in_map_iff in Hin. destruct Hin as (q & Hq & Hin).
    rewrite Forall_forall in Hlt.
    specialize (Hlt (idNumber q) (in_map idNumber _ _ Hin)).
    unfold idNumber in Hlt. rewrite Hq in Hlt. lia.
Qed.

End IdentifierClaims.

(** ** Integer division as JavaScript computes it *)

Lemma floorDiv_2 (a : Z) : JS.floorDiv a 2 = a / 2.
Proof.
  unfold JS.floorDiv, Qfloor, Qdiv, Qmult, Qinv, inject_Z. cbn.
  now rewrite Z.mul_1_r.
Qed.

Lemma ceilDiv_2 (a : Z) : JS.ceilDiv a 2 = (a + 1) / 2.
Proof.
  unfold JS.ceilDiv, Qceiling, Qfloor, Qopp, Qdiv, Qmult, Qinv, inject_Z.
  cbn. rewrite Z.mul_1_r.
  pose proof (Z.div_mod a 2 ltac:(lia)) as Ha.
  pose proof (Z.mod_pos_bound a 2 ltac:(lia)) as Hb.
  pose proof (Z.div_mod (- a) 2 ltac:(lia)) as Hc.
  pose proof (Z.mod_pos_bound (- a) 2 ltac:(lia)) as Hd.
  pose proof (Z.div_mod (a + 1) 2 ltac:(lia)) as He.
  pose proof (Z.mod_pos_bound (a + 1) 2 ltac:(lia)) as Hf.
  lia.
Qed.

Lemma rem_2 (i : nat) : JS.rem (Z.of_nat i) 2 = Z.of_nat i mod 2.
Proof.
  unfold JS.rem. apply Z.rem_mod_nonneg; lia.
Qed.

Lemma cellOf_spec (i : nat) : cellOf i = ExportSpec.cell (Z.of_nat i).
Proof.
  unfold cellOf, ExportSpec.cell, photosPerRow, photoSize, margin,
    ExportSpec.margin, ExportSpec.columns, ExportSpec.cellSize.
  now rewrite floorDiv_2, rem_2.
Qed.

Section IndividualExport.

Context {clock : WallClock}.

Lemma forEachPhoto_clicked format faults ps : forall index s clicked,
  snd (forEachPhoto (fun i p => exportOne format (faults i) i p)
                    index ps (s, clicked))
  = (clicked
       ++ flat_map (fun ip => if clicks (faults (fst ip))
                              then [photoLink format (fst ip) (snd ip)]
                              else [])
                   (indexed index ps))%list.
Proof.
  unfold indexed.
  induction ps as [|p ps IH]; intros index s clicked;
    cbn [forEachPhoto List.length seq combine flat_map fst snd].
  - now rewrite app_nil_r.
  - unfold exportOne at 2. fold (photoLink format index p).
    destruct (faults index); cbn [clicks app]; rewrite IH.
    + rewrite <- app_assoc. reflexivity.
    + reflexivity.
    + rewrite <- app_assoc. reflexivity.
Qed.

Lemma exportIndividual_clicked format faults ps s :
  snd (exportIndividual format faults ps s)
  = flat_map (fun ip => if clicks (faults (fst ip))
                        then [photoLink format (fst ip) (snd ip)]
                        else [])
             (indexed 0 ps).
Proof.
  unfold exportIndividual.
  pose proof (forEachPhoto_clicked format faults ps 0%nat s []) as H.
  destruct (forEachPhoto _ 0%nat ps (s, [])) as [s1 clicked].
  exact H.
Qed.

Lemma indexed_nth {A : Type} (xs : list A) : forall from j x,
  nth_error xs j = Some x -> In ((from + j)%nat, x) (indexed from xs).
Proof.
  unfold indexed.
  induction xs as [|a xs IH]; intros from j x Hj;
    [destruct j; discriminate|].
  cbn [List.length seq combine]. destruct j as [|j]; cbn in Hj.
  - injection Hj as ->. left. now rewrite Nat.add_0_r.
  - right. rewrite <- Nat.add_succ_comm. apply IH. exact Hj.
Qed.

Lemma flat_map_all {A B : Type} (f : A -> B) (keep : A -> bool) xs :
  (forall x, In x xs -> keep x = true) ->
  flat_map (fun x => if keep x then [f x] else []) xs = map f xs.
Proof.
  induction xs as [|x xs IH]; intro H; cbn.
  - reflexivity.
  - rewrite (H x (or_introl eq_refl)). cbn. f_equal.
    apply IH. intros y Hy. apply H. now right.
Qed.

Lemma indexed_in {A : Type} (xs : list A) from i x :
  In (i, x) (indexed from xs) ->
  (from <= i < from + List.length xs)%nat.
Proof.
  unfold indexed. intro H. apply in_combine_l in H.
  apply in_seq in H. lia.
Qed.

Lemma map_fst_indexed {A : Type} (xs : list A) : forall from,
  map fst (indexed from xs) = seq from (List.length xs).
Proof.
  unfold indexed.
  induction xs as [|x xs IH]; intro from; cbn [List.length seq combine map].
  - reflexivity.
  - cbn [fst]. now rewrite IH.
Qed.

(** C5.  The individual export goes through the photos in sequence
    order and clicks, for the photo at position [i] (counted from 0),
    the link named [photo-(i+1).png] for the PNG export and
    [photo-(i+1).jpeg] for the JPEG export; a link whose construction
    throws before its click is the only one missing, whatever happens to
    the others.  With no such failure the clicks are exactly the [K]
    links, named [photo-1] to [photo-K] with that extension, in sequence
    order. *)
Theorem individual_export_triggers_each_photo (format : Format)
        (faults : nat -> LinkFault) (env : CollageEnv)
        (ps : list Photo) (s : State) :
  format <> pdf -> ps <> [] ->
  let clicked := snd (exportPhotos format faults env ps s) in
  let extension := match format with
                   | png => "png"
                   | jpeg => "jpeg"
                   | pdf => "pdf"
                   end in
  clicked
  = flat_map (fun ip => if clicks (faults (fst ip))
                        then [photoLink format (fst ip) (snd ip)]
                        else [])
             (indexed 0 ps)
  /\ (forall j p, nth_error ps j = Some p -> clicks (faults j) = true ->
                  In (photoLink format j p) clicked)
  /\ (forall j p,
        download (photoLink format j p) = ExportSpec.fileName j extension)
  /\ ((forall i, (i < List.length ps)%nat -> faults i = NoFault) ->
      clicked = map (fun ip => photoLink format (fst ip) (snd ip))
                    (indexed 0 ps)
      /\ List.length clicked = List.length ps
      /\ map download clicked
         = map (fun i => ExportSpec.fileName i extension)
               (seq 0 (List.length ps))).
Proof.
  intros Hfmt Hne. cbv zeta.
  assert (E : snd (exportPhotos format faults env ps s)
              = flat_map
                  (fun ip => if clicks (faults (fst ip))
                             then [photoLink format (fst ip) (snd ip)]
                             else [])
                  (indexed 0 ps)).
  { unfold exportPhotos. destruct ps as [|p ps]; [congruence|].
    set (s1 := addDebugInfo _ s).
    pose proof (exportIndividual_clicked format faults (p :: ps) s1) as H.
    destruct format; try congruence;
      destruct (exportIndividual _ faults (p :: ps) s1) as [s2 clicked];
      exact H. }
  rewrite E. split; [reflexivity|]. split; [|split].
  - intros j p Hj Hok. apply in_flat_map.
    exists (j, p). split.
    + apply (indexed_nth ps 0%nat j p Hj).
    + cbn [fst snd]. rewrite Hok. now left.
  - intros j p. destruct format; reflexivity.
  - intro Hall.
    rewrite flat_map_all.
    + split; [reflexivity|]. split.
      * unfold indexed.
        rewrite length_map, length_combine, length_seq. lia.
      * rewrite map_map, <- (map_fst_indexed ps 0), map_map.
        apply map_ext. intros [i x]. cbn [fst snd].
        destruct format; reflexivity.
    + intros [i x] Hin. cbn [fst].
      apply indexed_in in Hin. rewrite Hall by lia. reflexivity.
Qed.

End IndividualExport.

Section CollageExport.

Context {clock : WallClock}.

Lemma settle_draws env ps r ev :
  draws (snd (fst (settle env ps r ev)))
  = (draws (snd (fst r)) ++ drawOf ps ev)%list
  /\ exportWidth (snd (fst (settle env ps r ev)))
     = exportWidth (snd (fst r))
  /\ exportHeight (snd (fst (settle env ps r ev)))
     = exportHeight (snd (fst r)).
Proof.
  destruct r as [[s c] clicked]. unfold settle, drawOf.
  destruct (nth_error ps (s_index ev)) as [photo|];
    [|cbn; now rewrite app_nil_r].
  destruct (s_outcome ev) as [[drawError|]|].
  - cbn. now rewrite app_nil_r.
  - unfold onload. destruct (cellOf (s_index ev)) as [x y].
    match goal with |- context [if ?b then _ else _] => destruct b end;
      [destruct (collageDataUrl env); [destruct (collageLinkFault env)|]|]; cbn; auto.
  - unfold onerror.
    match goal with |- context [if ?b then _ else _] => destruct b end;
      cbn; now rewrite app_nil_r.
Qed.

Lemma settles_draws env ps evs : forall r,
  draws (snd (fst (fold_left (settle env ps) evs r)))
  = (draws (snd (fst r)) ++ flat_map (drawOf ps) evs)%list
  /\ exportWidth (snd (fst (fold_left (settle env ps) evs r)))
     = exportWidth (snd (fst r))
  /\ exportHeight (snd (fst (fold_left (settle env ps) evs r)))
     = exportHeight (snd (fst r)).
Proof.
  induction evs as [|ev evs IH]; intro r; cbn [fold_left flat_map].
  - now rewrite app_nil_r.
  - destruct (IH (settle env ps r ev)) as (D & W & H).
    destruct (settle_draws env ps r ev) as (D' & W' & H').
    rewrite D, W, H, D', W', H'. now rewrite <- app_assoc.
Qed.

(** C7.  The export canvas of a collage of [n >= 1] photos is
    [columns * cellSize + (columns + 1) * margin = 660] pixels wide and
    [ceil(n / columns) * (cellSize + margin) + margin] pixels tall, with 2
    columns, cells of 300 and margins of 20.  Each decode that loads is
    drawn, as a 300 x 300 square, at the cell of its own sequence index:
    what is drawn for a decode does not depend on the decodes that
    settled before it, so any other completion order of the same decodes
    draws the same squares at the same places. *)
Theorem collage_layout_follows_sequence_index (env : CollageEnv)
        (ps : list Photo) (s : State) :
  ps <> [] -> exportCtxAvailable env = true ->
  exists s' c clicked,
    exportCollage env ps s = (s', Some c, clicked)
    /\ exportWidth c = ExportSpec.width
    /\ exportWidth c = 660
    /\ exportHeight c = ExportSpec.height (Z.of_nat (List.length ps))
    /\ draws c = flat_map (drawOf ps) (settles env)
    /\ (forall d, In d (draws c) ->
         (d_x d, d_y d) = ExportSpec.cell (Z.of_nat (d_index d))
         /\ d_w d = ExportSpec.cellSize /\ d_h d = ExportSpec.cellSize
         /\ exists photo, nth_error ps (d_index d) = Some photo
                          /\ d_image d = dataUrl photo)
    /\ forall order,
         Permutation order (settles env) ->
         Permutation (flat_map (drawOf ps) order) (draws c).
Proof.
  intros Hne Hctx. unfold exportCollage. rewrite Hctx. cbn [negb].
  destruct (settles_draws env ps (settles env) (s, newCollage ps, []))
    as (D & W & H).
  destruct (fold_left _ (settles env) _) as [[s' c] clicked].
  cbn [fst snd] in *.
  exists s', c, clicked. split; [reflexivity|].
  split; [exact W|]. split; [exact W|].
  split.
  { rewrite H. unfold newCollage, ExportSpec.height. cbn [exportHeight].
    rewrite ceilDiv_2. unfold ExportSpec.columns.
    replace (Z.of_nat (List.length ps) + 2 - 1)
      with (Z.of_nat (List.length ps) + 1) by lia.
    reflexivity. }
  split; [exact D|].
  split;
    [|intros order Hperm; rewrite D; cbn [draws newCollage app];
      apply Permutation_flat_map; exact Hperm].
  intros d Hd. rewrite D in Hd. cbn [draws newCollage app] in Hd.
  apply in_flat_map in Hd. destruct Hd as (ev & _ & Hd).
  unfold drawOf in Hd.
  destruct (nth_error ps (s_index ev)) as [photo|] eqn:Hn; [|contradiction].
  destruct (s_outcome ev) as [[?|]|]; try contradiction.
  destruct Hd as [<- | []]. cbn [d_x d_y d_w d_h d_index d_image].
  rewrite <- cellOf_spec. destruct (cellOf (s_index ev)). cbn [fst snd].
  repeat split. eauto.
Qed.

(** A collage export never clicks more than one link. *)
Lemma collage_at_most_one_download env ps s :
  (List.length (snd (exportCollage env ps s)) <= 1)%nat.
Proof.
  unfold exportCollage. destruct (exportCtxAvailable env); cbn [negb];
    [|cbn; lia].
  assert (J : forall evs r,
             (loadedCount (snd (fst r)) < totalPhotos (snd (fst r))
              /\ snd r = [])
             \/ (totalPhotos (snd (fst r)) <= loadedCount (snd (fst r))
                 /\ (List.length (snd r) <= 1)%nat) ->
             (List.length (snd (fold_left (settle env ps) evs r)) <= 1)%nat).
  { induction evs as [|ev evs IH]; intros r Hr; cbn [fold_left].
    - destruct Hr as [[_ ->] | [_ H]]; cbn; lia.
    - apply IH. clear IH. destruct r as [[s0 c] clicked].
      cbn [fst snd] in *. unfold settle.
      destruct (nth_error ps (s_index ev)) as [photo|]; [|exact Hr].
      destruct (s_outcome ev) as [[drawError|]|].
      + exact Hr.
      + unfold onload. destruct (cellOf (s_index ev)) as [x y].
        cbn [loadedCount totalPhotos].
        destruct (loadedCount c + 1 =? totalPhotos c) eqn:E.
        * apply Z.eqb_eq in E.
          destruct Hr as [[Hlt ->] | [Hge _]]; [|lia].
          destruct (collageDataUrl env); [destruct (collageLinkFault env)|];
            cbn; right; split; lia.
        * apply Z.eqb_neq in E. cbn.
          destruct Hr as [[Hlt ->] | [Hge Hlen]];
            [left; split; [lia | reflexivity] | right; split; [lia|auto]].
      + unfold onerror. cbn [loadedCount totalPhotos].
        destruct (loadedCount c + 1 =? totalPhotos c) eqn:E; cbn.
        * apply Z.eqb_eq in E.
          destruct Hr as [[Hlt ->] | [Hge Hlen]];
            right; split; cbn; lia.
        * apply Z.eqb_neq in E.
          destruct Hr as [[Hlt ->] | [Hge Hlen]];
            [left; split; [lia | reflexivity] | right; split; [lia|auto]]. }
  specialize (J (settles env) (s, newCollage ps, [])).
  destruct (fold_left _ (settles env) _) as [[s' c] clicked].
  cbn [fst snd] in *. apply J.
  destruct ps as [|p ps].
  - right. cbn. split; lia.
  - left. cbn [newCollage loadedCount totalPhotos List.length].
    split; [lia | reflexivity].
Qed.

End CollageExport.

(** ** Further properties of the handlers *)

Lemma sliceLast_length {A : Type} (n : nat) (l : list A) :
  (List.length (JS.sliceLast n l) <= n)%nat.
Proof.
  unfold JS.sliceLast. rewrite length_skipn. lia.
Qed.

(** Closes a goal [gentle f] for an update [f] of a field other than the
    log and the filter. *)
Ltac gentle_field := intro; split; [reflexivity | left; reflexivity].

Section Mild.

Context {clock : WallClock}.

Lemma mild_refl s : mild s s.
Proof. split; [reflexivity | left; reflexivity]. Qed.

Lemma mild_trans s1 s2 s3 : mild s1 s2 -> mild s2 s3 -> mild s1 s3.
Proof.
  intros [F1 L1] [F2 L2]. split; [congruence|].
  destruct L2 as [E2 | B2]; [|right; exact B2].
  rewrite E2. exact L1.
Qed.

Lemma gentle_seq f g : gentle f -> gentle g -> gentle (f ;; g).
Proof.
  intros Hf Hg s. unfold seqState.
  eapply mild_trans; [apply Hf | apply Hg].
Qed.

Lemma gentle_id : gentle (fun s => s).
Proof. intro s. apply mild_refl. Qed.

Lemma gentle_addDebugInfo info : gentle (addDebugInfo info).
Proof.
  intro s. split; [reflexivity|]. right.
  change (List.length
            (JS.sliceLast 9 (debugInfo s)
               ++ [(toLocaleTimeString (now s) ++ ": " ++ info)%string])%list
          <= 10)%nat.
  rewrite length_app. cbn [List.length].
  pose proof (sliceLast_length 9 (debugInfo s)). lia.
Qed.

Lemma gentle_commit : gentle commit.
Proof.
  intro s. unfold commit.
  destruct (isSessionActive s); [destruct (videoRef s)|];
    split; (reflexivity || (left; reflexivity)).
Qed.

End Mild.

(** Splits a sequence of updates and closes the log lines and the plain
    field updates. *)
Ltac gentle :=
  repeat lazymatch goal with
         | |- gentle (seqState _ _) => apply gentle_seq
         end;
  try first [ apply gentle_addDebugInfo | apply gentle_id
            | apply gentle_commit | gentle_field ].

Section MildHandlers.

Context {clock : WallClock}.

Lemma gentle_readyTimeoutBody : gentle readyTimeoutBody.
Proof. unfold readyTimeoutBody. gentle. Qed.

Lemma gentle_enumerateDevicesStep env : gentle (enumerateDevicesStep env).
Proof.
  unfold enumerateDevicesStep.
  destruct (enumerated env) as [n|]; [destruct (Nat.eqb n 0)|]; gentle.
Qed.

Lemma gentle_stopAndLogTracks st : gentle (stopAndLogTracks st).
Proof.
  unfold stopAndLogTracks. induction st as [|track st IH]; intro s.
  - apply mild_refl.
  - cbn [fold_left]. eapply mild_trans; [|apply IH].
    apply (gentle_seq (stopTracks [track]) (addDebugInfo _)); gentle.
Qed.

Lemma gentle_stopCamera : gentle stopCamera.
Proof.
  unfold stopCamera. gentle.
  - intro s. destruct (streamRef s) as [st|]; [|apply mild_refl].
    apply gentle_seq; [apply gentle_stopAndLogTracks | gentle].
  - intro s. destruct (videoRef s); [|apply mild_refl].
    split; [reflexivity | left; reflexivity].
Qed.

Lemma gentle_startCameraCatch e : gentle (startCameraCatch e).
Proof.
  unfold startCameraCatch. gentle.
  intro s. destruct (streamRef s); [|apply mild_refl].
  split; [reflexivity | left; reflexivity].
Qed.

Lemma acquireStream_mild env s : mild s (fst (acquireStream env s)).
Proof.
  unfold acquireStream.
  destruct (idealAttempt env); [apply gentle_addDebugInfo|].
  destruct (basicAttempt env);
    [apply (gentle_seq (addDebugInfo _) (addDebugInfo _)); gentle|].
  destruct (minimalAttempt env); cbn [fst].
  - apply (gentle_seq (addDebugInfo _ ;; addDebugInfo _) (addDebugInfo _));
      gentle.
  - apply (gentle_seq (addDebugInfo _) (addDebugInfo _)); gentle.
Qed.

Lemma startCameraTry_mild env s : mild s (fst (startCameraTry env s)).
Proof.
  unfold startCameraTry.
  set (s1 := match videoRef s with Some _ => s | None => _ end).
  assert (H1 : mild s s1).
  { subst s1. destruct (videoRef s); [apply mild_refl|].
    eapply mild_trans; [apply gentle_addDebugInfo | apply gentle_commit]. }
  destruct (videoRef s1); [|exact H1].
  destruct (mediaDevicesSupported env); cbn [negb];
    [|eapply mild_trans; [exact H1 | apply gentle_addDebugInfo]].
  match goal with
  | |- context [acquireStream env ?x] =>
      assert (H3 : mild s x);
      [| pose proof (acquireStream_mild env x) as HA;
         destruct (acquireStream env x) as [s4 [stream|e]] ]
  end.
  { eapply mild_trans; [exact H1|].
    eapply mild_trans; [apply gentle_addDebugInfo|].
    apply (gentle_seq (addDebugInfo "getUserMedia is supported")
                      (enumerateDevicesStep env));
      [gentle | apply gentle_enumerateDevicesStep]. }
  - cbn [fst] in HA.
    assert (H4 : mild s s4) by (eapply mild_trans; eassumption).
    match goal with
    | |- context [seqState ?f ?g s4] =>
        assert (K5 : gentle (f ;; g))
    end.
    { gentle. destruct (playRejection env); gentle. }
    match goal with
    | |- context [?f s4] =>
        lazymatch f with
        | seqState _ _ =>
            assert (H5 : mild s (f s4))
              by (eapply mild_trans; [exact H4 | apply K5]);
            set (s5 := f s4) in *
        end
    end.
    destruct (ready env); cbn [fst];
      (eapply mild_trans; [exact H5|]).
    + apply (gentle_seq (addDebugInfo _ ;; setIsStreaming true)
                        (addDebugInfo _)); gentle.
    + apply gentle_addDebugInfo.
    + apply (gentle_seq (upd_pendingReadyTimeouts Nat.pred
                           ;; readyTimeoutBody) (addDebugInfo _));
        gentle. apply gentle_readyTimeoutBody.
  - cbn [fst] in *. eapply mild_trans; eassumption.
Qed.

Lemma gentle_startCamera env : gentle (startCamera env).
Proof.
  intro s. unfold startCamera.
  match goal with
  | |- context [startCameraTry env ?x] =>
      assert (H0 : mild s x);
      [| pose proof (startCameraTry_mild env x) as HT;
         destruct (startCameraTry env x) as [s1 thrown] ]
  end.
  { apply (gentle_seq (setIsLoading true ;; setError "")
                      (addDebugInfo _)); gentle. }
  cbn [fst] in HT.
  eapply mild_trans; [exact H0|].
  eapply mild_trans; [exact HT|].
  eapply mild_trans; [|apply (ltac:(gentle_field) : gentle (setIsLoading false))].
  destruct thrown as [e|];
    [apply gentle_startCameraCatch | apply mild_refl].
Qed.

Lemma exportOne_mild format fault index photo acc :
  mild (fst acc) (fst (exportOne format fault index photo acc)).
Proof.
  destruct acc as [s clicked]. unfold exportOne.
  destruct fault; cbn [fst];
    (apply mild_refl || apply gentle_addDebugInfo).
Qed.

Lemma forEachPhoto_mild format faults ps : forall index acc,
  mild (fst acc)
       (fst (forEachPhoto (fun i p => exportOne format (faults i) i p)
                          index ps acc)).
Proof.
  induction ps as [|p ps IH]; intros index acc; cbn [forEachPhoto].
  - apply mild_refl.
  - eapply mild_trans; [apply exportOne_mild | apply IH].
Qed.

Lemma exportIndividual_mild format faults ps s :
  mild s (fst (exportIndividual format faults ps s)).
Proof.
  unfold exportIndividual.
  pose proof (forEachPhoto_mild format faults ps 0%nat (s, [])) as H.
  destruct (forEachPhoto _ 0%nat ps (s, [])) as [s1 clicked].
  cbn [fst] in *.
  eapply mild_trans; [exact H | apply gentle_addDebugInfo].
Qed.

Lemma settle_mild env ps r ev :
  mild (fst (fst r)) (fst (fst (settle env ps r ev))).
Proof.
  destruct r as [[s c] clicked]. unfold settle.
  destruct (nth_error ps (s_index ev)) as [photo|]; [|apply mild_refl].
  destruct (s_outcome ev) as [[drawError|]|].
  - apply gentle_addDebugInfo.
  - unfold onload. destruct (cellOf (s_index ev)) as [x y].
    match goal with |- context [if ?b then _ else _] => destruct b end;
      [destruct (collageDataUrl env); [destruct (collageLinkFault env)|]|]; cbn [fst];
      try apply mild_refl;
      apply (gentle_seq tickClock (addDebugInfo _)); gentle.
  - unfold onerror.
    match goal with |- context [if ?b then _ else _] => destruct b end;
      cbn [fst];
      [apply (gentle_seq (addDebugInfo _) (addDebugInfo _)); gentle
      | apply gentle_addDebugInfo].
Qed.

Lemma settles_mild env ps evs : forall r,
  mild (fst (fst r)) (fst (fst (fold_left (settle env ps) evs r))).
Proof.
  induction evs as [|ev evs IH]; intro r; cbn [fold_left].
  - apply mild_refl.
  - eapply mild_trans; [apply settle_mild | apply IH].
Qed.

Lemma exportPhotos_mild format faults env ps s :
  mild s (fst (fst (exportPhotos format faults env ps s))).
Proof.
  unfold exportPhotos. destruct ps as [|p ps]; [apply mild_refl|].
  set (s1 := addDebugInfo _ s).
  assert (H1 : mild s s1) by apply gentle_addDebugInfo.
  assert (HI : forall f,
             mild s
               (fst (fst (let (s2, clicked) :=
                            exportIndividual f faults (p :: ps) s1 in
                          (s2, @None Collage, clicked))))).
  { intro f. pose proof (exportIndividual_mild f faults (p :: ps) s1) as H.
    destruct (exportIndividual f faults (p :: ps) s1) as [s2 clicked].
    cbn [fst] in *. eapply mild_trans; eassumption. }
  destruct format; try apply HI.
  unfold exportCollage.
  destruct (exportCtxAvailable env); cbn [negb];
    [|eapply mild_trans; [exact H1 | apply gentle_addDebugInfo]].
  pose proof (settles_mild env (p :: ps) (settles env)
                (s1, newCollage (p :: ps), [])) as H.
  destruct (fold_left _ (settles env) _) as [[s2 c] clicked].
  cbn [fst] in *. eapply mild_trans; eassumption.
Qed.

Lemma gentle_checkVideoElement : gentle checkVideoElement.
Proof.
  intro s. unfold checkVideoElement.
  destruct (videoRef s);
    apply (gentle_seq (addDebugInfo _) (upd_videoPollPending _)); gentle.
Qed.

Lemma gentle_flashTimeout : gentle flashTimeout.
Proof.
  intro s. unfold flashTimeout.
  destruct (flashTimerRef s) as [[|]|];
    split; (reflexivity || (left; reflexivity)).
Qed.

Lemma gentle_capturePhoto c env : gentle (capturePhoto c env).
Proof.
  intro s. unfold capturePhoto.
  destruct (videoRef s); [|apply mild_refl].
  destruct (canvasRef s); [|apply mild_refl].
  destruct (c_maxPhotos c <=? c_photosLength c); [apply mild_refl|].
  match goal with
  | |- context [seqState ?f ?g s] =>
      assert (K1 : gentle (f ;; g)) by gentle;
      pose proof (K1 s) as H1; set (s1 := (f ;; g) s) in *
  end.
  destruct (ctxAvailable env); cbn [negb];
    [|eapply mild_trans;
      [exact H1
      |apply (gentle_seq (addDebugInfo _) (addDebugInfo _)); gentle]].
  match goal with
  | |- context [upd_canvasRef ?f s1] =>
      assert (H2 : mild s (upd_canvasRef f s1))
        by (eapply mild_trans;
            [exact H1 | split; [reflexivity | left; reflexivity]]);
      set (s2 := upd_canvasRef f s1) in *
  end.
  eapply mild_trans; [exact H2|].
  destruct (drawResult env) as [url|captureError].
  - match goal with
    | |- mild s2 (?f s2) => cut (gentle f); [intro K; apply K|]
    end.
    gentle.
  - match goal with
    | |- mild s2 (?f s2) => cut (gentle f); [intro K; apply K|]
    end.
    gentle.
Qed.

Lemma gentle_countdownTick env : gentle (countdownTick env).
Proof.
  intro s. unfold countdownTick.
  destruct (countdownTimerRef s) as [t|]; [|apply mild_refl].
  destruct (count t - 1 =? 0).
  - match goal with
    | |- mild s (?f (?g s)) =>
        apply (gentle_seq g f); [gentle|]
    end.
    gentle. apply gentle_capturePhoto.
  - match goal with
    | |- mild s (?g s) => cut (gentle g); [intro K; apply K|]
    end.
    gentle.
Qed.

Lemma gentle_startCountdown c : gentle (startCountdown c).
Proof.
  intro s. unfold startCountdown.
  destruct (_ <=? _); [apply mild_refl|].
  match goal with
  | |- mild s (?g s) => cut (gentle g); [intro K; apply K|]
  end.
  gentle.
Qed.

Lemma gentle_resetSession : gentle resetSession.
Proof.
  unfold resetSession. gentle. apply gentle_stopCamera.
Qed.

Lemma gentle_startSession env : gentle (startSession env).
Proof.
  unfold startSession. gentle. apply gentle_startCamera.
Qed.

(** Every handler but the filter buttons' is gentle. *)
Lemma handle_mild e s :
  (forall f, e <> ClickFilter f) -> mild s (handle e s).
Proof.
  intro Hf. destruct e; cbn [handle].
  - split; [reflexivity | left; reflexivity].
  - apply gentle_startSession.
  - match goal with
    | |- mild s (?g s) => cut (gentle g); [intro K; apply K|]
    end.
    gentle.
    + intro x. split; [reflexivity | right; cbn; lia].
    + apply gentle_startSession.
  - split; [reflexivity | left; reflexivity].
  - apply gentle_resetSession.
  - exfalso. eapply Hf. reflexivity.
  - apply (gentle_seq (setError "") (startCamera env));
      [gentle | apply gentle_startCamera].
  - apply gentle_startCountdown.
  - apply gentle_stopCamera.
  - apply exportPhotos_mild.
  - apply gentle_countdownTick.
  - apply gentle_flashTimeout.
  - apply (gentle_seq (upd_pendingReadyTimeouts Nat.pred) readyTimeoutBody);
      [gentle | apply gentle_readyTimeoutBody].
  - apply gentle_checkVideoElement.
Qed.

Lemma step_log_bound s e :
  (List.length (debugInfo s) <= 10)%nat ->
  (List.length (debugInfo (step s e)) <= 10)%nat.
Proof.
  intro Hb. unfold step. destruct (enabled e s); [|exact Hb].
  assert (Hc : forall x, debugInfo (commit x) = debugInfo x).
  { intro x. unfold commit.
    destruct (isSessionActive x); [destruct (videoRef x)|]; reflexivity. }
  rewrite Hc.
  destruct e;
    try (match goal with
         | |- context [handle ?ev s] =>
             destruct (handle_mild ev s ltac:(discriminate))
               as [_ [-> | H]]; [exact Hb | exact H]
         end).
  cbn [handle]. exact Hb.
Qed.

Lemma mount_log_bound env : (List.length (debugInfo (mount env)) <= 10)%nat.
Proof.
  unfold mount.
  match goal with
  | |- context [?f initialState] =>
      assert (K : gentle f);
      [| destruct (K initialState) as [_ [E | H]];
         [rewrite E; cbn; lia | exact H] ]
  end.
  gentle.
  - destruct (_ || _); gentle.
  - apply gentle_checkVideoElement.
Qed.

(** X1.  The debug log never holds more than ten entries: whatever the
    user and the timers do after the component is mounted, and whatever
    the browser answers, [debugInfo] has at most ten entries. *)
Theorem debug_log_holds_at_most_ten_entries (env : MountEnv)
        (es : list Event) :
  (List.length (debugInfo (run es (mount env))) <= 10)%nat.
Proof.
  unfold run.
  assert (G : forall s, (List.length (debugInfo s) <= 10)%nat ->
                        (List.length (debugInfo (fold_left step es s))
                         <= 10)%nat).
  { induction es as [|e es IH]; intros s Hs; cbn [fold_left];
      [exact Hs | apply IH, step_log_bound, Hs]. }
  apply G, mount_log_bound.
Qed.

Lemma step_currentFilter s e :
  (forall f, e <> ClickFilter f) ->
  currentFilter (step s e) = currentFilter s.
Proof.
  intro Hne. unfold step. destruct (enabled e s); [|reflexivity].
  assert (Hc : forall x, currentFilter (commit x) = currentFilter x).
  { intro x. unfold commit.
    destruct (isSessionActive x); [destruct (videoRef x)|]; reflexivity. }
  rewrite Hc. apply (handle_mild e s Hne).
Qed.

(** X2.  Only the filter buttons and the range input change the settings:
    an event other than a click on a filter leaves the selected filter as
    it is (a reset, a new session and a capture included), and an event
    other than a change of the range input leaves the target photo count
    as it is. *)
Theorem settings_change_only_by_their_controls (s : State) (e : Event) :
  ((forall f, e <> ClickFilter f) ->
   currentFilter (step s e) = currentFilter s)
  /\ ((forall v, e <> ChangeMaxPhotos v) ->
      maxPhotos (step s e) = maxPhotos s).
Proof.
  assert (Hc : forall x, currentFilter (commit x) = currentFilter x
                         /\ maxPhotos (commit x) = maxPhotos x).
  { intro x. unfold commit.
    destruct (isSessionActive x); [destruct (videoRef x)|];
      split; reflexivity. }
  split; intro Hne; [apply step_currentFilter, Hne|].
  unfold step; destruct (enabled e s); try reflexivity.
  - rewrite (proj2 (Hc _)).
    destruct e; cbn [handle];
      try (exfalso; eapply Hne; reflexivity).
    + unfold startSession, seqState.
      rewrite (proj1 (proj2 (view_fields _ _
                 (keeps_view _ _ (keeps_startCamera env))))).
      rewrite (proj2 (Hc _)). reflexivity.
    + unfold startSession, seqState.
      rewrite (proj1 (proj2 (view_fields _ _
                 (keeps_view _ _ (keeps_startCamera env))))).
      rewrite (proj2 (Hc _)). reflexivity.
    + reflexivity.
    + rewrite resetSession_eq.
      rewrite (proj1 (proj2 (view_fields _ _
                 (keeps_view _ _ keeps_stopCamera)))).
      reflexivity.
    + reflexivity.
    + unfold seqState.
      rewrite (proj1 (proj2 (view_fields _ _
                 (keeps_view _ _ (keeps_startCamera env))))).
      reflexivity.
    + unfold startCountdown. destruct (_ <=? _); reflexivity.
    + apply (proj1 (proj2 (view_fields _ _
                 (keeps_view _ _ keeps_stopCamera)))).
    + apply (proj1 (proj2 (view_fields _ _
                 (proj1 (exportPhotos_quiet format faults env (photos s) s))))).
    + unfold countdownTick.
      destruct (countdownTimerRef s) as [t|]; [|reflexivity].
      destruct (count t - 1 =? 0); [|reflexivity].
      unfold seqState.
      match goal with
      | |- context [capturePhoto ?c ?en ?x] =>
          destruct (capturePhoto_effect c en x) as (Em & _)
      end.
      cbv zeta in Em. exact Em.
    + apply (proj1 (proj2 (view_fields _ _
                 (keeps_view _ _ keeps_flashTimeout)))).
    + unfold seqState.
      rewrite (proj1 (proj2 (view_fields _ _
                 (keeps_view _ _ keeps_readyTimeoutBody)))).
      reflexivity.
    + apply (proj1 (proj2 (view_fields _ _
                 (keeps_view _ _ keeps_checkVideoElement)))).
Qed.

End MildHandlers.

Lemma classifyCameraError_nonempty (m : string) :
  classifyCameraError m <> "".
Proof.
  unfold classifyCameraError.
  repeat match goal with
         | |- context [if ?b then _ else _] => destruct b
         end; discriminate.
Qed.

Section AcquisitionOutcome.

Context {clock : WallClock}.

(** The [try] block of [startCamera] on a mounted video element. *)
Lemma startCameraTry_mounted env s v :
  videoRef s = Some v ->
  let r := startCameraTry env s in
  error (fst r) = error s
  /\ stoppedTracks (fst r) = stoppedTracks s
  /\ if acquires env
     then snd r = None
          /\ isStreaming (fst r) = true
          /\ streamRef (fst r) = firstGranted env
          /\ videoRef (fst r) = Some (mkVideo (firstGranted env))
     else snd r <> None
          /\ isStreaming (fst r) = isStreaming s
          /\ (mediaDevicesSupported env = true ->
              firstGranted env = None ->
              forall e3, minimalAttempt env = Rejected e3 ->
                         snd r = Some e3 /\ streamRef (fst r) = streamRef s).
Proof.
  intro Hv. unfold startCameraTry, acquires, firstGranted, readyFails.
  rewrite Hv. cbv iota. rewrite Hv.
  destruct (mediaDevicesSupported env); cbn [negb andb];
    [|cbv zeta; cbn [fst snd]; repeat split; discriminate].
  unfold acquireStream, enumerateDevicesStep.
  destruct (enumerated env) as [n|]; [destruct (Nat.eqb n 0)|];
    destruct (idealAttempt env) as [st1|e1];
    try destruct (basicAttempt env) as [st2|e2];
    try destruct (minimalAttempt env) as [st3|e3];
    destruct (playRejection env); destruct (ready env);
    cbv zeta; cbn [fst snd negb andb];
    repeat split; try discriminate; try reflexivity;
    try (intros; discriminate);
    try (intros _ _ e3' [= <-]; split; reflexivity);
    try congruence.
Qed.

Lemma startCameraCatch_fields e s :
  error (startCameraCatch e s) = classifyCameraError (thrownMessage e)
  /\ streamRef (startCameraCatch e s) = None
  /\ stoppedTracks (startCameraCatch e s)
     = (stoppedTracks s ++ tracksOf s)%list
  /\ isStreaming (startCameraCatch e s) = isStreaming s.
Proof.
  unfold startCameraCatch, seqState, tracksOf, thrownMessage.
  set (s2 := setError _ (setError _ (addDebugInfo _ s))).
  change (streamRef s) with (streamRef s2).
  change (stoppedTracks s) with (stoppedTracks s2).
  change (isStreaming s) with (isStreaming s2).
  assert (He : error s2
               = classifyCameraError
                   (if instanceofError e then message e else "Unknown error"))
    by reflexivity.
  destruct (streamRef s2) as [st|] eqn:Hst.
  - repeat split; try exact He; reflexivity.
  - rewrite Hst, app_nil_r. repeat split; try exact He; reflexivity.
Qed.

Lemma setIsLoading_error b x : error (setIsLoading b x) = error x.
Proof. reflexivity. Qed.

(** X4.  With the video element mounted, an acquisition ends with an
    empty error slot exactly when [getUserMedia] exists, one of the three
    attempts is granted and the video element does not report an error.
    The device enumeration has no say: zero devices found, or a failed
    enumeration, stops nothing. *)
Theorem startCamera_succeeds_iff (env : CameraEnv) (s : State) :
  videoRef s <> None ->
  (error (startCamera env s) = "" <-> acquires env = true).
Proof.
  intro Hv. unfold startCamera.
  set (s0 := (setIsLoading true ;; setError "" ;;
              addDebugInfo "Starting camera...") s).
  destruct (videoRef s) as [v|] eqn:Hvs; [|congruence].
  assert (Hv0 : videoRef s0 = Some v) by exact Hvs.
  destruct (startCameraTry_mounted env s0 v Hv0) as (He & _ & Hr).
  destruct (startCameraTry env s0) as [s1 thrown]. cbn [fst snd] in *.
  destruct (acquires env).
  - destruct Hr as (-> & _). split; [reflexivity|]. intros _. exact He.
  - destruct Hr as (Hthrown & _).
    destruct thrown as [e|]; [|congruence].
    destruct (startCameraCatch_fields e s1) as (E & _).
    split; [|discriminate]. intro H.
    exfalso. apply (classifyCameraError_nonempty (thrownMessage e)).
    rewrite <- E. exact H.
Qed.

(** X5.  When all three attempts are rejected it is the error of the
    last, minimal attempt that is classified into the error slot (a
    message containing "Permission denied" gives the permission text); the
    errors of the first two attempts only reach the debug log.  No stream
    is held afterwards, and a stream held before is stopped. *)
Theorem startCamera_reports_last_rejection (env : CameraEnv) (s : State)
        (e1 e2 e3 : JsError) :
  videoRef s <> None -> mediaDevicesSupported env = true ->
  idealAttempt env = Rejected e1 -> basicAttempt env = Rejected e2 ->
  minimalAttempt env = Rejected e3 ->
  let s' := startCamera env s in
  error s' = classifyCameraError (thrownMessage e3)
  /\ (JS.includes "Permission denied" (thrownMessage e3) = true ->
      error s'
      = "Camera permission denied. Please allow camera access and try again.")
  /\ streamRef s' = None
  /\ stoppedTracks s' = (stoppedTracks s ++ tracksOf s)%list
  /\ isStreaming s' = isStreaming s
  /\ isLoading s' = false.
Proof.
  intros Hv Hsup H1 H2 H3. cbv zeta. unfold startCamera.
  set (s0 := (setIsLoading true ;; setError "" ;;
              addDebugInfo "Starting camera...") s).
  destruct (videoRef s) as [v|] eqn:Hvs; [|congruence].
  assert (Hv0 : videoRef s0 = Some v) by exact Hvs.
  destruct (startCameraTry_mounted env s0 v Hv0) as (_ & Htr & Hr).
  assert (Hfg : firstGranted env = None)
    by (unfold firstGranted; now rewrite H1, H2, H3).
  assert (Ha : acquires env = false)
    by (unfold acquires; rewrite Hfg; now rewrite andb_false_r).
  rewrite Ha in Hr. destruct Hr as (_ & Hstr & Hlast).
  destruct (Hlast Hsup Hfg e3 H3) as [Hthrown Hst].
  destruct (startCameraTry env s0) as [s1 thrown]. cbn [fst snd] in *.
  subst thrown.
  destruct (startCameraCatch_fields e3 s1) as (E & S & T & I).
  assert (Etr : tracksOf s1 = tracksOf s)
    by (unfold tracksOf; rewrite Hst; reflexivity).
  split; [exact E|]. split.
  { intro Hp.
    transitivity (classifyCameraError (thrownMessage e3)); [exact E|].
    unfold classifyCameraError. now rewrite Hp. }
  split; [exact S|]. split.
  { transitivity (stoppedTracks s1 ++ tracksOf s1)%list; [exact T|].
    rewrite Htr, Etr. reflexivity. }
  split; [|reflexivity].
  transitivity (isStreaming s1); [exact I | exact Hstr].
Qed.

(** X6.  Without [navigator.mediaDevices.getUserMedia] no attempt is
    made: the outcome does not depend on what the attempts, the
    enumeration or the video element would have answered, and the error
    slot reads "Camera access not supported. Please use HTTPS or a modern
    browser." *)
Theorem startCamera_without_getUserMedia (env : CameraEnv) (s : State) :
  videoRef s <> None -> mediaDevicesSupported env = false ->
  error (startCamera env s)
  = "Camera access not supported. Please use HTTPS or a modern browser."
  /\ isLoading (startCamera env s) = false
  /\ forall env', mediaDevicesSupported env' = false ->
                  startCamera env' s = startCamera env s.
Proof.
  intros Hv Hsup.
  assert (U : forall en, mediaDevicesSupported en = false ->
              startCamera en s
              = setIsLoading false
                  (startCameraCatch
                     (newError "getUserMedia is not supported in this browser")
                     (addDebugInfo "Video element found and captured"
                        ((setIsLoading true ;; setError "" ;;
                          addDebugInfo "Starting camera...") s)))).
  { intros en Hen. unfold startCamera, startCameraTry.
    set (s0 := (setIsLoading true ;; setError "" ;;
                addDebugInfo "Starting camera...") s).
    destruct (videoRef s) as [v|] eqn:Hvs; [|congruence].
    assert (Hv0 : videoRef s0 = Some v) by exact Hvs.
    rewrite Hv0. cbv iota. rewrite Hv0, Hen. reflexivity. }
  rewrite (U env Hsup). split; [|split].
  - rewrite setIsLoading_error.
    match goal with
    | |- error (startCameraCatch ?e ?x) = _ =>
        destruct (startCameraCatch_fields e x) as (E & _); rewrite E
    end.
    vm_compute. reflexivity.
  - reflexivity.
  - intros env' Hsup'. apply (U env' Hsup').
Qed.

End AcquisitionOutcome.

Lemma commit_fields (x : State) :
  isStreaming (commit x) = isStreaming x
  /\ streamRef (commit x) = streamRef x
  /\ error (commit x) = error x
  /\ canvasRef (commit x) = canvasRef x
  /\ currentFilter (commit x) = currentFilter x
  /\ photos (commit x) = photos x
  /\ countdownTimerRef (commit x) = countdownTimerRef x
  /\ countdown (commit x) = countdown x
  /\ isCapturing (commit x) = isCapturing x
  /\ isSessionActive (commit x) = isSessionActive x
  /\ isLoading (commit x) = isLoading x.
Proof.
  unfold commit.
  destruct (isSessionActive x) eqn:Ha; [destruct (videoRef x)|];
    cbn; rewrite ?Ha; repeat split; reflexivity.
Qed.

Lemma numOr_nonzero (a b : Z) : b <> 0 -> JS.numOr a b <> 0.
Proof.
  unfold JS.numOr. intro Hb.
  destruct (a =? 0) eqn:E; [exact Hb | now apply Z.eqb_neq].
Qed.

Lemma currentFilterStyle_nonempty (f : string) : currentFilterStyle f <> "".
Proof.
  unfold currentFilterStyle, FILTERS. cbn [find name].
  repeat match goal with
         | |- context [if ?b then _ else _] => destruct b
         end; cbn; discriminate.
Qed.

Section SessionStates.

Context {clock : WallClock}.

Lemma atRest_step s e : atRest s -> atRest (step s e).
Proof.
  intro Hr. unfold step. destruct (enabled e s); [|exact Hr].
  assert (K : forall x, (countdownTimerRef x = countdownTimerRef s
                         /\ countdown x = countdown s
                         /\ isCapturing x = isCapturing s) ->
                        atRest (commit x)).
  { intros x (Ht & Hc & Hcap). unfold atRest.
    destruct (commit_fields x) as (_ & _ & _ & _ & _ & _ & -> & -> & -> & _).
    rewrite Ht, Hc, Hcap. exact Hr. }
  assert (Q : forall x, quiet s x -> atRest (commit x)).
  { intros x [V _]. apply view_fields in V.
    destruct V as (_ & _ & Hcap & Ht & Hc & _). apply K. auto. }
  assert (Z0 : forall x, countdownTimerRef x = None -> countdown x = 0 ->
                         isCapturing x = false -> atRest (commit x)).
  { intros x Ht Hc Hcap. unfold atRest.
    destruct (commit_fields x) as (_ & _ & _ & _ & _ & _ & -> & -> & -> & _).
    auto. }
  assert (N : forall x t, countdownTimerRef x = Some t -> atRest (commit x)).
  { intros x t Ht. unfold atRest.
    destruct (commit_fields x) as (_ & _ & _ & _ & _ & _ & -> & _).
    rewrite Ht. discriminate. }
  destruct e; cbn [handle].
  - apply K. repeat split.
  - apply K. unfold startSession, seqState.
    destruct (view_fields _ _ (keeps_view _ (commit (setIsSessionActive true s))
                                 (keeps_startCamera env)))
      as (_ & _ & -> & -> & -> & _).
    destruct (commit_fields (setIsSessionActive true s))
      as (_ & _ & _ & _ & _ & _ & -> & -> & -> & _).
    repeat split.
  - apply K. unfold startSession, seqState.
    match goal with
    | |- context [startCamera env (commit ?x)] =>
        destruct (view_fields _ _ (keeps_view _ (commit x)
                                     (keeps_startCamera env)))
          as (_ & _ & -> & -> & -> & _);
        destruct (commit_fields x)
          as (_ & _ & _ & _ & _ & _ & -> & -> & -> & _)
    end.
    repeat split.
  - apply K. repeat split.
  - rewrite resetSession_eq.
    match goal with
    | |- context [stopCamera ?x] =>
        destruct (view_fields _ _ (keeps_view _ x keeps_stopCamera))
          as (_ & _ & Hcap & Ht & Hc & _)
    end.
    apply Z0; [rewrite Ht | rewrite Hc | rewrite Hcap]; reflexivity.
  - apply K. repeat split.
  - apply Q. unfold seqState.
    eapply quiet_trans; [apply keeps_setError | apply keeps_startCamera].
  - unfold startCountdown. destruct (_ <=? _); [apply K; repeat split|].
    eapply N. reflexivity.
  - apply Q, keeps_stopCamera.
  - apply Q, exportPhotos_quiet.
  - unfold countdownTick.
    destruct (countdownTimerRef s) as [t|] eqn:Ht;
      [|apply K; repeat split; exact Ht].
    destruct (count t - 1 =? 0); [|eapply N; reflexivity].
    unfold seqState.
    match goal with
    | |- context [capturePhoto ?c env ?x] =>
        destruct (capturePhoto_effect c env x)
          as (_ & _ & Eti & _)
    end.
    apply Z0; [exact Eti | reflexivity | reflexivity].
  - apply Q, keeps_flashTimeout.
  - apply Q. unfold seqState.
    eapply quiet_trans;
      [apply keeps_pendingReadyTimeouts | apply keeps_readyTimeoutBody].
  - apply Q, keeps_checkVideoElement.
Qed.

Lemma atRest_mount env : atRest (mount env).
Proof.
  unfold mount.
  match goal with
  | |- atRest (?f initialState) =>
      assert (K : keeps f);
      [| destruct (view_fields _ _ (keeps_view _ initialState K))
           as (_ & _ & Hcap & _ & Hc & _) ]
  end.
  { frame.
    - destruct (_ || _); frame.
    - apply keeps_checkVideoElement. }
  intros _. rewrite Hc, Hcap. split; reflexivity.
Qed.

Lemma atRest_run es : forall s, atRest s -> atRest (run es s).
Proof.
  unfold run. induction es as [|e es IH]; intros s Hs; cbn [fold_left];
    [exact Hs | apply IH, atRest_step, Hs].
Qed.

(** X7.  Between mount and unmount the welcome screen never shows with
    photos or a countdown behind it, the countdown overlay reads 0..3, and
    three things go together: the overlay is positive, the capturing flag
    is up, an interval is running. *)
Theorem countdown_flag_and_interval_go_together (env : MountEnv)
        (es : list Event) :
  let s := run es (mount env) in
  (isSessionActive s = false ->
   photos s = [] /\ countdownTimerRef s = None)
  /\ 0 <= countdown s <= 3
  /\ (isCapturing s = true <-> countdownTimerRef s <> None)
  /\ (0 < countdown s <-> countdownTimerRef s <> None).
Proof.
  cbv zeta.
  pose proof (Inv_run es _ (Inv_mount env)) as HI.
  pose proof (atRest_run es _ (atRest_mount env)) as HR.
  set (s := run es (mount env)) in *.
  split; [apply (inv_idle s HI)|].
  destruct (countdownTimerRef s) as [t|] eqn:Ht.
  - destruct (inv_timer s HI t Ht) as (Hcap & Hcd & Hcount & _).
    rewrite Hcd, Hcap.
    repeat split; try lia; try discriminate; auto.
  - destruct (HR Ht) as [Hcd Hcap]. rewrite Hcd, Hcap.
    repeat split; try lia; try discriminate; try congruence.
Qed.

(** X8.  Stopping the camera does not cancel a countdown: the interval,
    its count and the capturing flag are as before, although the stream is
    released; when the interval then reaches zero it still captures, and
    a frame the browser delivers becomes a photo. *)
Theorem stop_leaves_the_countdown_running (s : State) (t : Timer) :
  reachable s -> countdownTimerRef s = Some t -> isStreaming s = true ->
  let s1 := step s ClickStop in
  countdownTimerRef s1 = Some t
  /\ isCapturing s1 = true
  /\ isStreaming s1 = false
  /\ streamRef s1 = None
  /\ (count t = 1 ->
      forall env url,
        ctxAvailable env = true -> drawResult env = inl url ->
        exists p, photos (step s1 (IntervalFires env))
                  = (photos s ++ [p])%list
                  /\ dataUrl p = url).
Proof.
  intros Hreach Ht Hstr. cbv zeta.
  pose proof (Inv_reachable s Hreach) as HI.
  pose proof (Inv_active_of_timer s t HI Ht) as Ha.
  pose proof (Inv_step s ClickStop HI) as HI1.
  assert (E : step s ClickStop = commit (stopCamera s)).
  { unfold step. cbn [enabled handle]. now rewrite Ha, Hstr. }
  destruct (inv_timer s HI t Ht) as (Hcap & _).
  destruct (view_fields _ _ (keeps_view _ s keeps_stopCamera))
    as (Hp & _ & Hcap' & Hti & _).
  destruct (stopCamera_released s) as (Hst & Hstr' & _).
  destruct (commit_fields (stopCamera s))
    as (C1 & C2 & _ & _ & _ & C3 & C4 & _ & C5 & _).
  assert (Ht1 : countdownTimerRef (step s ClickStop) = Some t)
    by (rewrite E, C4, Hti; exact Ht).
  split; [exact Ht1|].
  split; [rewrite E, C5, Hcap'; exact Hcap|].
  split; [rewrite E, C1; exact Hstr'|].
  split; [rewrite E, C2; exact Hst|].
  intros Hone env url Hctx Hdraw.
  destruct (tick_captures env (step s ClickStop) t HI1 Ht1 Hone)
    as (_ & _ & _ & _ & Happ).
  destruct (Happ Hctx url Hdraw) as (p & Ep & Eu).
  exists p. split; [|exact Eu].
  rewrite Ep, E, C3, Hp. reflexivity.
Qed.

(** What [capturePhoto] does once it is past its guard. *)
Lemma capturePhoto_past_guard c env s :
  videoRef s <> None -> canvasRef s <> None ->
  c_photosLength c < c_maxPhotos c ->
  let s' := capturePhoto c env s in
  flashEffect s' = true
  /\ (ctxAvailable env = false ->
      photos s' = photos s /\ error s' = error s
      /\ canvasRef s' = canvasRef s)
  /\ (ctxAvailable env = true ->
      canvasRef s'
      = Some (mkCanvas (captureWidth env) (captureHeight env)
                       (currentFilterStyle (c_currentFilter c)))
      /\ forall e, drawResult env = inr e ->
           photos s' = photos s
           /\ error s' = "Failed to capture photo. Please try again.").
Proof.
  intros Hv Hc Hroom. unfold capturePhoto.
  destruct (videoRef s); [|congruence].
  destruct (canvasRef s) eqn:Hcv; [|congruence].
  apply Z.leb_gt in Hroom. rewrite Hroom.
  destruct (ctxAvailable env); cbn [negb]; cbv zeta.
  - split; [destruct (drawResult env); reflexivity|].
    split; [discriminate|]. intros _.
    split; [destruct (drawResult env); reflexivity|].
    intros e ->. split; reflexivity.
  - split; [reflexivity|]. split; [|discriminate].
    intros _. cbn. rewrite Hcv. repeat split.
Qed.

(** X9.  A capture that fails adds no photo and does not hold up the
    session: when the countdown reaches zero with no drawing context, or
    with a draw that throws, the photo sequence is as before, the interval
    is gone, the overlay is at 0 and the capturing flag is down.  A draw
    that throws puts "Failed to capture photo. Please try again." in the
    error slot; a missing context leaves the slot as it is. *)
Theorem failed_capture_adds_no_photo (s : State) (t : Timer)
        (env : CaptureEnv) :
  reachable s -> countdownTimerRef s = Some t -> count t = 1 ->
  let s' := step s (IntervalFires env) in
  countdownTimerRef s' = None /\ countdown s' = 0 /\ isCapturing s' = false
  /\ (ctxAvailable env = false ->
      photos s' = photos s /\ error s' = error s)
  /\ (ctxAvailable env = true -> forall e, drawResult env = inr e ->
      photos s' = photos s
      /\ error s' = "Failed to capture photo. Please try again.").
Proof.
  intros Hreach Ht Hone. cbv zeta.
  pose proof (Inv_reachable s Hreach) as HI.
  destruct (tick_captures env s t HI Ht Hone) as (E1 & E2 & E3 & _).
  split; [exact E1|]. split; [exact E2|]. split; [exact E3|].
  destruct (inv_timer s HI t Ht) as (_ & _ & _ & Hlen & Hmax & Hroom).
  pose proof (Inv_active_of_timer s t HI Ht) as Ha.
  pose proof (inv_video s HI Ha) as Hvid.
  pose proof (inv_canvas s HI) as Hcv.
  rewrite (step_interval env s t Ht).
  unfold countdownTick. rewrite Ht, Hone.
  cbn [Z.sub Z.eqb Z.add Z.opp Z.pos_sub]. unfold seqState.
  match goal with
  | |- context [capturePhoto ?c env ?x] =>
      destruct (capturePhoto_past_guard c env x Hvid Hcv ltac:(lia))
        as (_ & Hno & Hthrow);
      set (sc := capturePhoto c env x) in *
  end.
  match goal with
  | |- context [commit ?x] =>
      destruct (commit_fields x) as (_ & _ & -> & _ & _ & -> & _)
  end.
  split.
  - intro Hctx. destruct (Hno Hctx) as (Hp & He & _).
    split; [exact Hp | exact He].
  - intros Hctx e He. destruct (Hthrow Hctx) as (_ & Hf).
    destruct (Hf e He) as (Hp & Herr). split; [exact Hp | exact Herr].
Qed.

(** X10.  The canvas a capture draws on never has a zero width or height
    (a video without a size of its own falls back to its size on the page
    and then to 640 x 480), and its filter is never the empty string; a
    video that reports a width of its own is drawn at that width. *)
Theorem capture_canvas_is_never_degenerate (c : Closure) (env : CaptureEnv)
        (s : State) :
  videoRef s <> None -> canvasRef s <> None ->
  c_photosLength c < c_maxPhotos c -> ctxAvailable env = true ->
  exists cv, canvasRef (capturePhoto c env s) = Some cv
             /\ canvasWidth cv <> 0 /\ canvasHeight cv <> 0
             /\ ctxFilter cv <> ""
             /\ (videoWidth env <> 0 -> canvasWidth cv = videoWidth env)
             /\ (videoHeight env <> 0 -> canvasHeight cv = videoHeight env).
Proof.
  intros Hv Hc Hroom Hctx.
  destruct (capturePhoto_past_guard c env s Hv Hc Hroom) as (_ & _ & H).
  destruct (H Hctx) as (E & _).
  eexists. split; [exact E|]. cbn [canvasWidth canvasHeight ctxFilter].
  unfold captureWidth, captureHeight.
  split; [apply numOr_nonzero; discriminate|].
  split; [apply numOr_nonzero; discriminate|].
  split; [apply currentFilterStyle_nonempty|].
  split; intro Hnz; unfold JS.numOr;
    apply Z.eqb_neq in Hnz; rewrite Hnz;
    apply Z.eqb_neq in Hnz; apply Z.eqb_neq in Hnz; now rewrite Hnz.
Qed.

End SessionStates.

Section ExportEffects.

Context {clock : WallClock}.

Lemma onlyLogged_refl s : onlyLogged s s.
Proof. reflexivity. Qed.

Lemma onlyLogged_trans s1 s2 s3 :
  onlyLogged s1 s2 -> onlyLogged s2 s3 -> onlyLogged s1 s3.
Proof. unfold onlyLogged. congruence. Qed.

Lemma onlyLogged_addDebugInfo info s : onlyLogged s (addDebugInfo info s).
Proof. apply state_ext; reflexivity. Qed.

Lemma onlyLogged_tickClock s : onlyLogged s (tickClock s).
Proof. apply state_ext; reflexivity. Qed.

Lemma exportOne_onlyLogged format fault index photo acc :
  onlyLogged (fst acc) (fst (exportOne format fault index photo acc)).
Proof.
  destruct acc as [s clicked]. unfold exportOne.
  destruct fault; cbn [fst];
    (apply onlyLogged_refl || apply onlyLogged_addDebugInfo).
Qed.

Lemma forEachPhoto_onlyLogged format faults ps : forall index acc,
  onlyLogged (fst acc)
       (fst (forEachPhoto (fun i p => exportOne format (faults i) i p)
                          index ps acc)).
Proof.
  induction ps as [|p ps IH]; intros index acc; cbn [forEachPhoto].
  - apply onlyLogged_refl.
  - eapply onlyLogged_trans; [apply exportOne_onlyLogged | apply IH].
Qed.

Lemma exportIndividual_onlyLogged format faults ps s :
  onlyLogged s (fst (exportIndividual format faults ps s)).
Proof.
  unfold exportIndividual.
  pose proof (forEachPhoto_onlyLogged format faults ps 0%nat (s, [])) as H.
  destruct (forEachPhoto _ 0%nat ps (s, [])) as [s1 clicked].
  cbn [fst] in *.
  eapply onlyLogged_trans; [exact H | apply onlyLogged_addDebugInfo].
Qed.

Lemma settle_onlyLogged env ps r ev :
  onlyLogged (fst (fst r)) (fst (fst (settle env ps r ev))).
Proof.
  destruct r as [[s c] clicked]. unfold settle.
  destruct (nth_error ps (s_index ev)) as [photo|]; [|apply onlyLogged_refl].
  destruct (s_outcome ev) as [[drawError|]|].
  - apply onlyLogged_addDebugInfo.
  - unfold onload. destruct (cellOf (s_index ev)) as [x y].
    match goal with |- context [if ?b then _ else _] => destruct b end;
      [destruct (collageDataUrl env); [destruct (collageLinkFault env)|]|]; cbn [fst];
      try apply onlyLogged_refl;
      (eapply onlyLogged_trans;
       [apply onlyLogged_tickClock | apply onlyLogged_addDebugInfo]).
  - unfold onerror.
    match goal with |- context [if ?b then _ else _] => destruct b end;
      cbn [fst];
      [eapply onlyLogged_trans; apply onlyLogged_addDebugInfo
      | apply onlyLogged_addDebugInfo].
Qed.

Lemma settles_onlyLogged env ps evs : forall r,
  onlyLogged (fst (fst r)) (fst (fst (fold_left (settle env ps) evs r))).
Proof.
  induction evs as [|ev evs IH]; intro r; cbn [fold_left].
  - apply onlyLogged_refl.
  - eapply onlyLogged_trans; [apply settle_onlyLogged | apply IH].
Qed.

Lemma exportPhotos_onlyLogged format faults env ps s :
  onlyLogged s (fst (fst (exportPhotos format faults env ps s))).
Proof.
  unfold exportPhotos. destruct ps as [|p ps]; [apply onlyLogged_refl|].
  set (s1 := addDebugInfo _ s).
  assert (H1 : onlyLogged s s1) by apply onlyLogged_addDebugInfo.
  assert (HI : forall f,
             onlyLogged s
               (fst (fst (let (s2, clicked) :=
                            exportIndividual f faults (p :: ps) s1 in
                          (s2, @None Collage, clicked))))).
  { intro f.
    pose proof (exportIndividual_onlyLogged f faults (p :: ps) s1) as H.
    destruct (exportIndividual f faults (p :: ps) s1) as [s2 clicked].
    cbn [fst] in *. exact (onlyLogged_trans _ _ _ H1 H). }
  destruct format; try apply HI.
  unfold exportCollage.
  destruct (exportCtxAvailable env); cbn [negb];
    [|eapply onlyLogged_trans; [exact H1 | apply onlyLogged_addDebugInfo]].
  pose proof (settles_onlyLogged env (p :: ps) (settles env)
                (s1, newCollage (p :: ps), [])) as H.
  destruct (fold_left _ (settles env) _) as [[s2 c] clicked].
  cbn [fst] in *. exact (onlyLogged_trans _ _ _ H1 H).
Qed.

(** X11.  An export changes nothing but the debug log: whatever the
    format, the faults of the links and the outcomes of the decodes, the
    state after [exportPhotos] is the state before it apart from the log
    lines written (and the clock readings they took).  With no photos it
    does not even log: the state is returned as it is and nothing is
    downloaded. *)
Theorem export_only_writes_the_log (format : Format)
        (faults : nat -> LinkFault) (env : CollageEnv) (ps : list Photo)
        (s : State) :
  eraseLog (fst (fst (exportPhotos format faults env ps s))) = eraseLog s
  /\ exportPhotos format faults env [] s = (s, None, []).
Proof.
  split; [apply exportPhotos_onlyLogged | reflexivity].
Qed.

(** [s.replace(pat, rep)] leaves a string without [pat] as it is. *)
Lemma replace_absent (pat rep s : string) :
  JS.includes pat s = false -> JS.replace pat rep s = s.
Proof.
  induction s as [|ch s IH]; cbn [JS.includes JS.replace].
  - destruct (String.prefix pat ""); [discriminate | reflexivity].
  - destruct (String.prefix pat (String ch s)); [discriminate|].
    intro H. now rewrite IH.
Qed.

(** The links an individual export clicks. *)
Lemma exportPhotos_clicked format faults env ps s :
  format <> pdf ->
  snd (exportPhotos format faults env ps s)
  = flat_map (fun ip => if clicks (faults (fst ip))
                        then [photoLink format (fst ip) (snd ip)]
                        else [])
             (indexed 0 ps).
Proof.
  intro Hfmt. unfold exportPhotos. destruct ps as [|p ps]; [reflexivity|].
  set (s1 := addDebugInfo _ s).
  pose proof (exportIndividual_clicked format faults (p :: ps) s1) as H.
  destruct format; try congruence;
    destruct (exportIndividual _ faults (p :: ps) s1) as [s2 clicked];
    exact H.
Qed.

(** X12.  The JPEG export only re-tags the data URL: the link of a photo
    whose URL starts with "data:image/png" gets the URL with
    "data:image/jpeg" in its place and everything after it unchanged, so
    the file named [.jpeg] carries the PNG encoding; a URL without
    "image/png" is passed on as it is, and so is every URL of the PNG
    export. *)
Theorem jpeg_export_only_retags_the_url (faults : nat -> LinkFault)
        (env : CollageEnv) (ps : list Photo) (s : State) :
  (forall d, In d (snd (exportPhotos jpeg faults env ps s)) ->
     exists p, In p ps
       /\ (forall rest, dataUrl p = "data:image/png" ++ rest ->
                        href d = "data:image/jpeg" ++ rest)
       /\ (JS.includes "image/png" (dataUrl p) = false ->
           href d = dataUrl p))
  /\ (forall d, In d (snd (exportPhotos png faults env ps s)) ->
        exists p, In p ps /\ href d = dataUrl p).
Proof.
  rewrite !exportPhotos_clicked by discriminate. split.
  - intros d Hd. apply in_flat_map in Hd.
    destruct Hd as ([i p] & Hin & Hd). cbn [fst snd] in Hd.
    destruct (clicks (faults i)); [|contradiction].
    destruct Hd as [<- | []].
    exists p. split; [eapply in_combine_r; exact Hin|].
    cbn [href photoLink]. split.
    + intros rest ->. destruct rest; vm_compute; reflexivity.
    + apply replace_absent.
  - intros d Hd. apply in_flat_map in Hd.
    destruct Hd as ([i p] & Hin & Hd). cbn [fst snd] in Hd.
    destruct (clicks (faults i)); [|contradiction].
    destruct Hd as [<- | []].
    exists p. split; [eapply in_combine_r; exact Hin | reflexivity].
Qed.

(** The counters of the collage closure after a run of callbacks. *)
Lemma settles_loadedCount env ps evs : forall r,
  loadedCount (snd (fst (fold_left (settle env ps) evs r)))
  = loadedCount (snd (fst r)) + countedCallbacks ps evs
  /\ totalPhotos (snd (fst (fold_left (settle env ps) evs r)))
     = totalPhotos (snd (fst r)).
Proof.
  unfold countedCallbacks.
  induction evs as [|ev evs IH]; intro r; cbn [fold_left filter].
  - cbn. split; [lia | reflexivity].
  - destruct (IH (settle env ps r ev)) as [-> ->].
    destruct r as [[s c] clicked]. unfold settle.
    destruct (nth_error ps (s_index ev)) as [photo|] eqn:Hn;
      [destruct (s_outcome ev) as [[drawError|]|] eqn:Ho|];
      unfold counted at 2; rewrite Hn, ?Ho; unfold onload, onerror;
      cbn [fst snd].
    + split; [lia | reflexivity].
    + destruct (cellOf (s_index ev)) as [x y].
      match goal with |- context [if ?b then _ else _] => destruct b end;
        [destruct (collageDataUrl env); [destruct (collageLinkFault env)|]|];
        cbn [fst snd loadedCount totalPhotos List.length];
        rewrite ?Nat2Z.inj_succ; split; (lia || reflexivity).
    + unfold onerror.
      match goal with |- context [if ?b then _ else _] => destruct b end;
        cbn [fst snd loadedCount totalPhotos List.length];
        rewrite ?Nat2Z.inj_succ; split; (lia || reflexivity).
    + split; [lia | reflexivity].
Qed.

Lemma settles_no_download env ps evs : forall r,
  snd r = [] ->
  loadedCount (snd (fst r)) + countedCallbacks ps evs
  < totalPhotos (snd (fst r)) ->
  snd (fold_left (settle env ps) evs r) = [].
Proof.
  unfold countedCallbacks.
  induction evs as [|ev evs IH]; intros r Hr Hlt; cbn [fold_left];
    [exact Hr|].
  cbn [filter] in Hlt.
  set (n := List.length (filter (counted ps) evs)) in *.
  assert (Hn0 : 0 <= Z.of_nat n) by lia.
  destruct r as [[s c] clicked]; cbn [fst snd] in *.
  assert (Hstep : snd (settle env ps (s, c, clicked) ev) = []
                  /\ loadedCount (snd (fst (settle env ps (s, c, clicked) ev)))
                     + Z.of_nat n
                     < totalPhotos
                         (snd (fst (settle env ps (s, c, clicked) ev)))).
  { unfold settle.
    destruct (nth_error ps (s_index ev)) as [photo|] eqn:Hn;
      [destruct (s_outcome ev) as [[drawError|]|] eqn:Ho|];
      unfold counted in Hlt at 1; rewrite Hn, ?Ho in Hlt;
      cbn [List.length] in Hlt; fold n in Hlt;
      rewrite ?Nat2Z.inj_succ in Hlt.
    - unfold onload. cbn [fst snd]. split; [exact Hr | exact Hlt].
    - unfold onload. destruct (cellOf (s_index ev)) as [x y].
      cbn [loadedCount totalPhotos].
      destruct (loadedCount c + 1 =? totalPhotos c) eqn:E;
        [apply Z.eqb_eq in E; lia|].
      cbn [fst snd loadedCount totalPhotos]. split; [exact Hr | lia].
    - unfold onerror. cbn [loadedCount totalPhotos].
      destruct (loadedCount c + 1 =? totalPhotos c);
        cbn [fst snd loadedCount totalPhotos]; split; (exact Hr || lia).
    - cbn [fst snd]. split; [exact Hr | exact Hlt]. }
  destruct Hstep as [H1 H2]. apply IH; assumption.
Qed.

(** X13.  A collage is not downloaded before every photo has called
    back: as long as fewer callbacks than photos have reached the counter
    (a decode that has not settled yet, or a loaded image whose draw
    threw), no link is clicked. *)
Theorem collage_waits_for_every_callback (env : CollageEnv)
        (ps : list Photo) (s : State) :
  countedCallbacks ps (settles env) < Z.of_nat (List.length ps) ->
  snd (exportCollage env ps s) = [].
Proof.
  intro Hlt. unfold exportCollage.
  destruct (exportCtxAvailable env); cbn [negb]; [|reflexivity].
  pose proof (settles_no_download env ps (settles env)
                (s, newCollage ps, []) eq_refl) as H.
  cbn [fst snd newCollage loadedCount totalPhotos] in H.
  specialize (H ltac:(lia)).
  destruct (fold_left _ (settles env) _) as [[s' c] clicked].
  exact H.
Qed.

(** X14.  When every photo calls back once, it is the last callback that
    decides: if the last image to settle loaded, the canvas could be
    encoded and nothing threw before [link.click()], exactly one link is
    clicked, named [photobooth-session-<clock>.png] and carrying the
    encoded canvas, also when [removeChild] throws after the click; if
    the last image to settle failed to load, or [toDataURL] or a call
    before the click threw, nothing is downloaded. *)
Theorem collage_download_hangs_on_the_last_callback (env : CollageEnv)
        (ps : list Photo) (s : State) (before : list Settle)
        (last : Settle) :
  exportCtxAvailable env = true ->
  settles env = (before ++ [last])%list ->
  forallb (counted ps) (settles env) = true ->
  List.length (settles env) = List.length ps ->
  let clicked := snd (exportCollage env ps s) in
  match s_outcome last, collageDataUrl env with
  | Decoded _, inl url =>
      if clicks (collageLinkFault env)
      then exists reading,
          clicked = [mkDownload ("photobooth-session-"
                                   ++ JS.toString (wallClock reading)
                                   ++ ".png")
                                url]
      else clicked = []
  | _, _ => clicked = []
  end.
Proof.
  intros Hctx Hsplit Hall Hlen. cbv zeta.
  unfold exportCollage. rewrite Hctx. cbn [negb].
  rewrite Hsplit in *. rewrite fold_left_app. cbn [fold_left].
  rewrite forallb_app in Hall. apply andb_prop in Hall.
  destruct Hall as [Hb Hl]. cbn [forallb] in Hl.
  rewrite andb_true_r in Hl.
  rewrite length_app in Hlen. cbn [List.length] in Hlen.
  assert (Hcb : countedCallbacks ps before = Z.of_nat (List.length before)).
  { unfold countedCallbacks. f_equal. f_equal.
    clear -Hb. induction before as [|ev evs IH]; [reflexivity|].
    cbn [forallb] in Hb. apply andb_prop in Hb. destruct Hb as [H1 H2].
    cbn [filter]. rewrite H1. cbn [List.length]. now rewrite IH. }
  destruct (settles_loadedCount env ps before (s, newCollage ps, []))
    as [Hcount Htotal].
  pose proof (settles_no_download env ps before
                (s, newCollage ps, []) eq_refl) as Hnone.
  cbn [fst snd newCollage loadedCount totalPhotos] in Hcount, Htotal, Hnone.
  specialize (Hnone ltac:(lia)).
  destruct (fold_left (settle env ps) before (s, newCollage ps, []))
    as [[s1 c1] clicked1].
  cbn [fst snd] in *. subst clicked1.
  unfold settle. unfold counted in Hl.
  destruct (nth_error ps (s_index last)) as [photo|]; [|discriminate].
  destruct (s_outcome last) as [[drawError|]|]; [discriminate| |].
  - unfold onload. destruct (cellOf (s_index last)) as [x y].
    cbn [loadedCount totalPhotos].
    assert (E : (loadedCount c1 + 1 =? totalPhotos c1) = true)
      by (apply Z.eqb_eq; lia).
    rewrite E.
    destruct (collageDataUrl env) as [url|err]; cbn [snd];
      [|reflexivity].
    destruct (collageLinkFault env); cbn [clicks snd];
      try reflexivity; exists (clockReads s1); reflexivity.
  - unfold onerror. cbn [loadedCount totalPhotos].
    destruct (loadedCount c1 + 1 =? totalPhotos c1);
      destruct (collageDataUrl env);
      try destruct (clicks (collageLinkFault env)); reflexivity.
Qed.

End ExportEffects.

Section StaleClosures.

Context {clock : WallClock}.




(** X16.  The secure-origin test is made once, at mount.  On a page that
    is neither HTTPS nor local the error slot is set from the first
    render, which disables "Start PhotoBooth"; the retry button that the
    message brings up clears it and starts the session all the same.  On
    a secure page the slot is empty and the start button works. *)
Theorem insecure_origin_disables_start (env : MountEnv) :
  error (mount env)
  = (if secureOrigin env then ""
     else "Camera requires HTTPS or localhost. Please use a secure connection.")
  /\ (forall cam, enabled (ClickStartSession cam) (mount env)
                  = secureOrigin env)
  /\ (secureOrigin env = false ->
      forall cam,
        step (mount env) (ClickStartSession cam) = mount env
        /\ isSessionActive (step (mount env) (ClickRetry cam)) = true).
Proof.
  assert (F : error (mount env)
              = (if secureOrigin env then ""
                 else "Camera requires HTTPS or localhost. Please use a secure connection.")
              /\ isSessionActive (mount env) = false
              /\ isLoading (mount env) = false).
  { unfold mount, secureOrigin, seqState.
    destruct (_ || _ || _ || _); repeat split. }
  destruct F as (Ferr & Fact & Fload).
  assert (Hen : forall cam, enabled (ClickStartSession cam) (mount env)
                            = secureOrigin env).
  { intro cam. cbn [enabled]. unfold startDisabled.
    rewrite Fact, Fload, Ferr.
    destruct (secureOrigin env); reflexivity. }
  split; [exact Ferr|]. split; [exact Hen|].
  intros Hins cam. split.
  - unfold step. rewrite Hen, Hins. reflexivity.
  - unfold step. cbn [enabled]. rewrite Fact, Ferr, Hins.
    cbn [negb andb JS.truthy String.eqb]. cbn [handle]. unfold seqState.
    destruct (commit_fields
                (startSession cam
                   (setDebugInfo (fun _ => []) (setError "" (mount env)))))
      as (_ & _ & _ & _ & _ & _ & _ & _ & _ & -> & _).
    unfold startSession, seqState.
    destruct (view_fields _ _
                (keeps_view _
                   (commit (setIsSessionActive true
                              (setDebugInfo (fun _ => [])
                                            (setError "" (mount env)))))
                   (keeps_startCamera cam)))
      as (_ & _ & _ & _ & _ & -> & _).
    destruct (commit_fields
                (setIsSessionActive true
                   (setDebugInfo (fun _ => []) (setError "" (mount env)))))
      as (_ & _ & _ & _ & _ & _ & _ & _ & _ & -> & _).
    reflexivity.
Qed.

(** X17.  The 3 s ready timeout of [startCamera] does not look at the
    feed's current state: whenever it fires it marks the feed as
    streaming, also after the camera has been stopped and with no stream
    held, and leaves [streamRef] as it is.  From then on the page offers
    "Take Photo" where the session has room and no countdown, and does not
    offer "Start Camera". *)
Theorem ready_timeout_marks_the_feed_as_streaming (s : State) :
  pendingReadyTimeouts s <> 0%nat ->
  let s' := step s ReadyTimeoutFires in
  isStreaming s' = true
  /\ streamRef s' = streamRef s
  /\ (forall env, enabled (ClickStartCamera env) s' = false)
  /\ enabled ClickTakePhoto s'
     = isSessionActive s && negb (takePhotoDisabled s).
Proof.
  intro Hp. cbv zeta. unfold step. cbn [enabled].
  apply Nat.eqb_neq in Hp. rewrite Hp. cbn [negb handle].
  set (x := (upd_pendingReadyTimeouts Nat.pred ;; readyTimeoutBody) s).
  assert (Hx : isStreaming x = true /\ streamRef x = streamRef s)
    by (split; reflexivity).
  assert (Kx : quiet s x).
  { subst x. unfold seqState.
    eapply quiet_trans;
      [apply keeps_pendingReadyTimeouts | apply keeps_readyTimeoutBody]. }
  destruct Kx as [Vx _].
  destruct (view_fields _ _ Vx) as (Hph & Hmax & Hcap & _ & _ & Hact & _).
  destruct (commit_fields x)
    as (Cst & Csr & _ & _ & _ & Cph & _ & _ & Ccap & Cact & _).
  destruct (view_fields _ _ (keeps_view commit x keeps_commit))
    as (_ & Cmax & _).
  destruct Hx as [Hst Hsr].
  assert (Est : isStreaming (commit x) = true) by congruence.
  repeat split.
  - exact Est.
  - congruence.
  - intro env. rewrite Est. apply andb_false_iff. left.
    apply andb_false_r.
  - unfold takePhotoDisabled, photosLength.
    rewrite Est, Cact, Ccap, Cmax, Cph, Hact, Hcap, Hmax, Hph.
    now rewrite andb_true_r.
Qed.

End StaleClosures.

Section Flash.

Context {clock : WallClock}.

Lemma steady_refl s : steady s s.
Proof. reflexivity. Qed.

Lemma steady_trans s1 s2 s3 : steady s1 s2 -> steady s2 s3 -> steady s1 s3.
Proof. unfold steady. congruence. Qed.

Lemma steady_fields s s' :
  steady s s' ->
  flashEffect s' = flashEffect s /\ flashTimerRef s' = flashTimerRef s.
Proof. intro H. injection H as H1 H2. split; assumption. Qed.

Lemma spares_seq f g : spares f -> spares g -> spares (f ;; g).
Proof.
  intros Hf Hg s. unfold seqState.
  eapply steady_trans; [apply Hf | apply Hg].
Qed.

Lemma spares_id : spares (fun s => s).
Proof. intro s. reflexivity. Qed.

Lemma spares_addDebugInfo info : spares (addDebugInfo info).
Proof. intro s. reflexivity. Qed.

Lemma spares_commit : spares commit.
Proof.
  intro s. unfold commit.
  destruct (isSessionActive s); [destruct (videoRef s)|]; reflexivity.
Qed.

End Flash.

(** Splits a sequence of updates and closes the log lines and the updates
    of fields other than the flash. *)
Ltac spares :=
  repeat lazymatch goal with
         | |- spares (seqState _ _) => apply spares_seq
         end;
  try first [ apply spares_addDebugInfo | apply spares_id
            | apply spares_commit | (intro; reflexivity) ].

Section FlashHandlers.

Context {clock : WallClock}.

Lemma spares_readyTimeoutBody : spares readyTimeoutBody.
Proof. unfold readyTimeoutBody. spares. Qed.

Lemma spares_enumerateDevicesStep env : spares (enumerateDevicesStep env).
Proof.
  unfold enumerateDevicesStep.
  destruct (enumerated env) as [n|]; [destruct (Nat.eqb n 0)|]; spares.
Qed.

Lemma spares_stopAndLogTracks st : spares (stopAndLogTracks st).
Proof.
  unfold stopAndLogTracks. induction st as [|track st IH]; intro s.
  - reflexivity.
  - cbn [fold_left]. eapply steady_trans; [|apply IH].
    apply (spares_seq (stopTracks [track]) (addDebugInfo _)); spares.
Qed.

Lemma spares_stopCamera : spares stopCamera.
Proof.
  unfold stopCamera. spares.
  - intro s. destruct (streamRef s) as [st|]; [|reflexivity].
    apply spares_seq; [apply spares_stopAndLogTracks | spares].
  - intro s. destruct (videoRef s); reflexivity.
Qed.

Lemma spares_startCameraCatch e : spares (startCameraCatch e).
Proof.
  unfold startCameraCatch. spares.
  intro s. destruct (streamRef s); reflexivity.
Qed.

Lemma acquireStream_steady env s : steady s (fst (acquireStream env s)).
Proof.
  unfold acquireStream.
  destruct (idealAttempt env); [reflexivity|].
  destruct (basicAttempt env); [reflexivity|].
  destruct (minimalAttempt env); reflexivity.
Qed.

Lemma startCameraTry_steady env s : steady s (fst (startCameraTry env s)).
Proof.
  unfold startCameraTry.
  set (s1 := match videoRef s with Some _ => s | None => _ end).
  assert (H1 : steady s s1).
  { subst s1. destruct (videoRef s); [reflexivity|].
    eapply steady_trans; [apply spares_addDebugInfo | apply spares_commit]. }
  destruct (videoRef s1); [|exact H1].
  destruct (mediaDevicesSupported env); cbn [negb];
    [|eapply steady_trans; [exact H1 | apply spares_addDebugInfo]].
  match goal with
  | |- context [acquireStream env ?x] =>
      assert (H3 : steady s x);
      [| pose proof (acquireStream_steady env x) as HA;
         destruct (acquireStream env x) as [s4 [stream|e]] ]
  end.
  { eapply steady_trans; [exact H1|].
    eapply steady_trans; [apply spares_addDebugInfo|].
    apply (spares_seq (addDebugInfo "getUserMedia is supported")
                      (enumerateDevicesStep env));
      [spares | apply spares_enumerateDevicesStep]. }
  - cbn [fst] in HA.
    assert (H4 : steady s s4) by (eapply steady_trans; eassumption).
    match goal with
    | |- context [seqState ?f ?g s4] =>
        assert (K5 : spares (f ;; g))
    end.
    { spares. destruct (playRejection env); spares. }
    match goal with
    | |- context [?f s4] =>
        lazymatch f with
        | seqState _ _ =>
            assert (H5 : steady s (f s4))
              by (eapply steady_trans; [exact H4 | apply K5]);
            set (s5 := f s4) in *
        end
    end.
    destruct (ready env); cbn [fst];
      (eapply steady_trans; [exact H5|]); reflexivity.
  - cbn [fst] in *. eapply steady_trans; eassumption.
Qed.

Lemma spares_startCamera env : spares (startCamera env).
Proof.
  intro s. unfold startCamera.
  match goal with
  | |- context [startCameraTry env ?x] =>
      assert (H0 : steady s x) by reflexivity;
      pose proof (startCameraTry_steady env x) as HT;
      destruct (startCameraTry env x) as [s1 thrown]
  end.
  cbn [fst] in HT.
  eapply steady_trans; [exact H0|].
  eapply steady_trans; [exact HT|].
  eapply steady_trans;
    [|apply (ltac:(intro; reflexivity) : spares (setIsLoading false))].
  destruct thrown as [e|];
    [apply spares_startCameraCatch | reflexivity].
Qed.

Lemma spares_startSession env : spares (startSession env).
Proof.
  unfold startSession. spares. apply spares_startCamera.
Qed.

Lemma exportPhotos_steady format faults env ps s :
  steady s (fst (fst (exportPhotos format faults env ps s))).
Proof.
  pose proof (exportPhotos_onlyLogged format faults env ps s) as H.
  unfold onlyLogged in H. unfold steady, flashView.
  change (flashEffect (fst (fst (exportPhotos format faults env ps s))))
    with (flashEffect
            (eraseLog (fst (fst (exportPhotos format faults env ps s))))).
  change (flashTimerRef (fst (fst (exportPhotos format faults env ps s))))
    with (flashTimerRef
            (eraseLog (fst (fst (exportPhotos format faults env ps s))))).
  rewrite H. reflexivity.
Qed.

(** The handlers that leave the flash alone: all but the capture at the
    end of a countdown, the flash's own timeout and the reset. *)
Lemma handle_steady e s :
  (forall env, e <> IntervalFires env) -> e <> FlashTimeoutFires ->
  e <> ClickReset -> steady s (handle e s).
Proof.
  intros Hi Hf Hr. destruct e; cbn [handle]; try congruence.
  - reflexivity.
  - apply spares_startSession.
  - apply (spares_seq (setError "" ;; setDebugInfo (fun _ => []))
                      (startSession env));
      [spares | apply spares_startSession].
  - reflexivity.
  - reflexivity.
  - apply (spares_seq (setError "") (startCamera env));
      [spares | apply spares_startCamera].
  - unfold startCountdown. destruct (_ <=? _); reflexivity.
  - apply spares_stopCamera.
  - apply exportPhotos_steady.
  - apply (spares_seq (upd_pendingReadyTimeouts Nat.pred) readyTimeoutBody);
      [spares | apply spares_readyTimeoutBody].
  - unfold checkVideoElement. destruct (videoRef s); reflexivity.
Qed.

Lemma resetSession_flash s :
  flashEffect (resetSession s) = flashEffect s
  /\ flashTimerRef (resetSession s) = None.
Proof.
  unfold resetSession, seqState.
  match goal with
  | |- context [stopCamera ?x] =>
      pose proof (spares_stopCamera x) as H;
      set (r := stopCamera x) in *
  end.
  destruct (steady_fields _ _ H) as [H1 H2].
  rewrite H1, H2. split; reflexivity.
Qed.

(** Without a pending timeout a flash that is on stays on through every
    event that is not a firing of the countdown. *)
Lemma step_flash_stuck s e :
  (forall env, e <> IntervalFires env) ->
  flashEffect s = true -> flashTimerRef s = None ->
  flashEffect (step s e) = true /\ flashTimerRef (step s e) = None.
Proof.
  intros Hi Hon Hnone. unfold step.
  destruct (enabled e s) eqn:Hen; [|split; assumption].
  destruct (steady_fields _ _ (spares_commit (handle e s))) as [-> ->].
  destruct e;
    try (match goal with
         | |- context [handle ?ev s] =>
             destruct (steady_fields _ _
                         (handle_steady ev s Hi ltac:(discriminate)
                                        ltac:(discriminate))) as [-> ->];
             split; assumption
         end).
  - cbn [handle]. destruct (resetSession_flash s) as [-> ->].
    split; [exact Hon | reflexivity].
  - cbn [enabled] in Hen. rewrite Hnone in Hen. discriminate.
Qed.

(** X18.  A reset does not end the flash.  It cancels the 200 ms timeout
    that was to switch the flash off and leaves [flashEffect] as it is, so
    after a reset during the flash the overlay stays on: through the
    welcome screen, a new session, the settings, exports and camera
    restarts, until a later countdown reaches a capture. *)
Theorem reset_during_the_flash_leaves_it_on (s : State)
        (es : list Event) :
  isSessionActive s = true -> flashEffect s = true ->
  Forall (fun e => forall env, e <> IntervalFires env) es ->
  let s' := run (ClickReset :: es) s in
  flashEffect s' = true /\ flashTimerRef s' = None.
Proof.
  intros Ha Hon Hes. cbv zeta. unfold run. cbn [fold_left].
  assert (H1 : flashEffect (step s ClickReset) = true
               /\ flashTimerRef (step s ClickReset) = None).
  { unfold step. cbn [enabled]. rewrite Ha. cbn [handle].
    destruct (steady_fields _ _ (spares_commit (resetSession s)))
      as [-> ->].
    destruct (resetSession_flash s) as [-> ->].
    split; [exact Hon | reflexivity]. }
  generalize dependent (step s ClickReset).
  induction Hes as [|e es He _ IH]; intros x Hx; cbn [fold_left];
    [exact Hx|].
  apply IH. apply step_flash_stuck; [exact He | apply Hx | apply Hx].
Qed.

End FlashHandlers.

Section Retention.

Context {clock : WallClock}.

(** What one event other than a reset does to the photos: nothing, or
    one more at the end. *)
Lemma step_keeps_photos s e :
  e <> ClickReset ->
  photos (step s e) = photos s
  \/ exists p env, e = IntervalFires env
                   /\ photos (step s e) = (photos s ++ [p])%list.
Proof.
  intro Hr.
  assert (Q : forall s', calm s s' -> photos (commit s') = photos s).
  { intros s' Hc.
    destruct (calm_trans _ _ _ Hc (quiet_calm _ _ (keeps_commit s')))
      as [P _].
    exact P. }
  unfold step. destruct (enabled e s) eqn:Hen; [|left; reflexivity].
  destruct e; cbn [handle]; try congruence.
  - left. apply Q. split; [reflexivity | apply Nat.le_refl].
  - left. apply Q, calm_startSession.
  - left. apply Q. unfold seqState.
    eapply calm_trans; [|apply calm_startSession].
    split; [reflexivity | apply Nat.le_refl].
  - left. apply Q. split; [reflexivity | apply Nat.le_refl].
  - left. apply Q. split; [reflexivity | apply Nat.le_refl].
  - left. apply Q. unfold seqState. apply quiet_calm.
    eapply quiet_trans; [apply keeps_setError | apply keeps_startCamera].
  - left. apply Q. unfold startCountdown.
    destruct (_ <=? _); split; (reflexivity || apply Nat.le_refl).
  - left. apply Q, quiet_calm, keeps_stopCamera.
  - left. apply Q, quiet_calm, exportPhotos_quiet.
  - unfold countdownTick.
    destruct (countdownTimerRef s) as [t|];
      [|left; apply Q; split; auto].
    destruct (count t - 1 =? 0);
      [|left; apply Q; split; [reflexivity | apply Nat.le_refl]].
    unfold seqState.
    match goal with
    | |- context [capturePhoto ?c env ?x] =>
        pose proof (capturePhoto_effect c env x) as HE;
        set (sc := capturePhoto c env x) in *;
        change (photos x) with (photos s) in HE
    end.
    cbv zeta in HE.
    destruct HE as (_ & _ & _ & _ & _ & _ & _ & _ & Eph).
    match goal with
    | |- context [commit ?x] =>
        destruct (keeps_commit x) as [V _];
        apply view_fields in V; destruct V as (Hp & _);
        change (photos x) with (photos sc) in Hp
    end.
    rewrite Hp.
    destruct Eph as [E | (_ & p & r & E & _)]; [now left|].
    right. exists p, env. split; [reflexivity | exact E].
  - left. apply Q, quiet_calm, keeps_flashTimeout.
  - left. apply Q, quiet_calm. unfold seqState.
    eapply quiet_trans;
      [apply keeps_pendingReadyTimeouts | apply keeps_readyTimeoutBody].
  - left. apply Q, quiet_calm, keeps_checkVideoElement.
Qed.

(** X19.  Photos are only lost to a reset.  Through any events without a
    click on "Reset" (stopping and restarting the camera, changing the
    filter, exports, further countdowns) the photos taken so far stay in
    the sequence, unchanged and in place, and the later ones come after
    them, at most one for each firing of the interval. *)
Theorem photos_are_kept_until_reset (s : State) (es : list Event) :
  ~ In ClickReset es ->
  exists later,
    photos (run es s) = (photos s ++ later)%list
    /\ (List.length later
        <= List.length
             (filter (fun e => match e with
                               | IntervalFires _ => true
                               | _ => false
                               end) es))%nat.
Proof.
  unfold run. revert s.
  induction es as [|e es IH]; intros s Hno; cbn [fold_left].
  - exists []. split; [symmetry; apply app_nil_r | apply Nat.le_refl].
  - assert (He : e <> ClickReset) by (intro E; apply Hno; left; exact E).
    destruct (IH (step s e)) as (later & Eq & Len);
      [intro Hin; apply Hno; right; exact Hin|].
    destruct (step_keeps_photos s e He) as [Hs | (p & env & -> & Hs)].
    + exists later. rewrite Eq, Hs. split; [reflexivity|].
      cbn [filter]. destruct e; cbn [List.length]; lia.
    + exists (p :: later). rewrite Eq, Hs, <- app_assoc.
      split; [reflexivity|]. cbn [filter List.length]. lia.
Qed.

End Retention.

(** ** The claims on concrete sessions *)

Import Sample.

Lemma photo_count_never_exceeds_target_witness :
  let s := @run tickingClock oneShotSession (@mount tickingClock page) in
  photosLength s = maxPhotos s /\ @step tickingClock s ClickTakePhoto = s.
Proof.
  cbv zeta.
  destruct (@photo_count_never_exceeds_target tickingClock page
              oneShotSession) as (_ & _ & H).
  assert (E : photosLength
                (@run tickingClock oneShotSession (@mount tickingClock page))
              = maxPhotos
                  (@run tickingClock oneShotSession
                        (@mount tickingClock page)))
    by (vm_compute; reflexivity).
  split; [exact E | exact (proj1 (H E))].
Defined.

Lemma capture_request_during_countdown_is_ignored_witness :
  let s := @run tickingClock countingSession (@mount tickingClock page) in
  countdown s = 2 /\ @step tickingClock s ClickTakePhoto = s.
Proof.
  cbv zeta. split; [vm_compute; reflexivity|].
  refine (proj1 (@capture_request_during_countdown_is_ignored tickingClock
                   _ (mkTimer 2 (mkClosure 0 4 "none")) _ _)).
  - apply reachable_run. apply reachable_mount.
  - vm_compute. reflexivity.
Defined.

Lemma individual_export_triggers_each_photo_witness :
  map download
      (snd (@exportPhotos tickingClock jpeg (fun _ => NoFault) bothLoad
                          twoPhotos (@mount tickingClock page)))
  = ["photo-1.jpeg"; "photo-2.jpeg"].
Proof.
  refine (proj2 (proj2
            (proj2 (proj2 (proj2
               (@individual_export_triggers_each_photo tickingClock jpeg
                  (fun _ => NoFault) bothLoad twoPhotos
                  (@mount tickingClock page) _ _))) _))).
  - discriminate.
  - discriminate.
  - reflexivity.
Defined.

Lemma collage_layout_follows_sequence_index_witness :
  exists s' c clicked,
    @exportCollage tickingClock failureFirst twoPhotos
                   (@mount tickingClock page) = (s', Some c, clicked)
    /\ exportWidth c = 660.
Proof.
  destruct (@collage_layout_follows_sequence_index tickingClock failureFirst
              twoPhotos (@mount tickingClock page))
    as (s' & c & clicked & E & _ & W & _).
  - discriminate.
  - reflexivity.
  - exists s', c, clicked. split; assumption.
Defined.


Lemma photo_ids_follow_the_clock_witness :
  NoDup (map id (photos (@run coarseClock twoShotSession
                              (@mount coarseClock page)))).
Proof.
  destruct (@photo_ids_follow_the_clock coarseClock page twoShotSession)
    as (reads & _ & Hgap & _ & _ & Hstrict).
  refine (proj1 (Hstrict _)).
  intros i j Hi Hj Hij. specialize (Hgap i j Hi Hj Hij).
  change (1700000000000 + 1000 * (Z.of_nat i / 2)
          < 1700000000000 + 1000 * (Z.of_nat j / 2)).
  assert (Hdiv : Z.of_nat i / 2 < Z.of_nat j / 2).
  { apply Z.div_lt_upper_bound; [lia|].
    pose proof (Z.mul_div_le (Z.of_nat j) 2 ltac:(lia)).
    pose proof (Z.mod_pos_bound (Z.of_nat j) 2 ltac:(lia)).
    pose proof (Z.div_mod (Z.of_nat j) 2 ltac:(lia)).
    lia. }
  lia.
Defined.

(** C3 as stated fails: after a session in which "Vintage" was selected,
    a reset leaves "sepia" as the current filter, not the default
    "none". *)
Lemma reset_resets_filter_counterexample :
  let s := @run tickingClock sepiaSession (@mount tickingClock page) in
  currentFilter (@step tickingClock s ClickReset) = "sepia"
  /\ currentFilter (@step tickingClock s ClickReset) <> "none".
Proof.
  cbv zeta. split; [vm_compute; reflexivity|].
  vm_compute. discriminate.
Qed.

(** C4 fails on the code.  With two photos, one decode loading and the
    other failing, the collage is downloaded when the failure settles
    first and is not downloaded at all when the failure settles last. *)
Theorem collage_download_lost_when_failure_settles_last :
  snd (@exportCollage tickingClock failureLast twoPhotos
                      (@mount tickingClock page)) = []
  /\ List.length (snd (@exportCollage tickingClock failureFirst twoPhotos
                                      (@mount tickingClock page))) = 1%nat
  /\ List.length (snd (@exportCollage tickingClock bothLoad twoPhotos
                                      (@mount tickingClock page))) = 1%nat.
Proof.
  repeat split; vm_compute; reflexivity.
Qed.


(** C8 as stated fails: when the clock is set back between two captures,
    the later photo gets the smaller identifier. *)
Lemma photo_ids_monotone_counterexample :
  let s := @run steppedBackClock twoShotSession
                (@mount steppedBackClock page) in
  map idNumber (photos s) = [1700000015000; 1699996419000]
  /\ ~ StronglySorted Z.le (map idNumber (photos s)).
Proof.
  cbv zeta.
  assert (E : map idNumber
                (photos (@run steppedBackClock twoShotSession
                              (@mount steppedBackClock page)))
              = [1700000015000; 1699996419000])
    by (vm_compute; reflexivity).
  split; [exact E|]. rewrite E. intro H.
  inversion H as [|? ? _ Hall]; subst.
  inversion Hall as [|? ? Hle _]; subst. lia.
Qed.

(** C9 as stated fails: a second release is not a no-op, it writes
    another line to the debug log. *)
Lemma release_twice_counterexample :
  let s := @run tickingClock
                [ClickStartSession (fallbackCamera LoadedMetadata)]
                (@mount tickingClock page) in
  @stopCamera tickingClock (@stopCamera tickingClock s)
  <> @stopCamera tickingClock s.
Proof.
  cbv zeta. intro H. apply (f_equal debugInfo) in H.
  vm_compute in H. discriminate.
Qed.

(** C10 as stated fails: the reset pushes the oldest entries out of the
    ten-entry log. *)
Lemma reset_retains_log_counterexample :
  let s := @run tickingClock oneShotSession (@mount tickingClock page) in
  ~ (forall entry, In entry (debugInfo s) ->
                   In entry (debugInfo (@resetSession tickingClock s))).
Proof.
  cbv zeta. intro H.
  specialize (H "1700000007000: Video element found and captured").
  vm_compute in H.
  assert (F : False -> False) by trivial.
  destruct H as [H | H]; [left; reflexivity | discriminate H |].
  repeat (destruct H as [H | H]; [discriminate H|]).
  exact H.
Qed.

(** ** The further properties on concrete sessions *)

Import Scene.

Lemma settings_change_only_by_their_controls_witness :
  let s := @run tickingClock sepiaSession (@mount tickingClock page) in
  currentFilter (@step tickingClock s ClickTakePhoto) = currentFilter s
  /\ maxPhotos (@step tickingClock s ClickTakePhoto) = maxPhotos s.
Proof.
  cbv zeta.
  destruct (@settings_change_only_by_their_controls tickingClock
              (@run tickingClock sepiaSession (@mount tickingClock page))
              ClickTakePhoto) as [Hf Hm].
  split; [apply Hf | apply Hm]; intros; discriminate.
Defined.

Lemma startCamera_succeeds_iff_witness :
  error (@startCamera tickingClock unlistedCamera
           (@run tickingClock stoppedSession (@mount tickingClock page)))
  = "".
Proof.
  refine (proj2 (@startCamera_succeeds_iff tickingClock unlistedCamera
                   (@run tickingClock stoppedSession
                         (@mount tickingClock page)) _) _).
  - vm_compute. discriminate.
  - reflexivity.
Defined.

Lemma startCamera_reports_last_rejection_witness :
  error (@startCamera tickingClock deniedCamera
           (@run tickingClock stoppedSession (@mount tickingClock page)))
  = "Camera permission denied. Please allow camera access and try again.".
Proof.
  refine (proj1 (proj2
            (@startCamera_reports_last_rejection tickingClock deniedCamera
               (@run tickingClock stoppedSession (@mount tickingClock page))
               overconstrained overconstrained
               (mkJsError true "Permission denied"
                          "NotAllowedError: Permission denied")
               _ eq_refl eq_refl eq_refl eq_refl)) _).
  - vm_compute. discriminate.
  - vm_compute. reflexivity.
Defined.

Lemma startCamera_without_getUserMedia_witness :
  error (@startCamera tickingClock legacyBrowser
           (@run tickingClock stoppedSession (@mount tickingClock page)))
  = "Camera access not supported. Please use HTTPS or a modern browser.".
Proof.
  refine (proj1 (@startCamera_without_getUserMedia tickingClock
                   legacyBrowser
                   (@run tickingClock stoppedSession
                         (@mount tickingClock page)) _ eq_refl)).
  vm_compute. discriminate.
Defined.

Lemma countdown_flag_and_interval_go_together_witness :
  let s := @run tickingClock resetAfterShot (@mount tickingClock page) in
  photos s = [] /\ countdownTimerRef s = None.
Proof.
  cbv zeta.
  refine (proj1 (@countdown_flag_and_interval_go_together tickingClock page
                   resetAfterShot) _).
  vm_compute. reflexivity.
Defined.

Lemma stop_leaves_the_countdown_running_witness :
  let s := @run tickingClock lastSecondSession (@mount tickingClock page) in
  let s1 := @step tickingClock s ClickStop in
  streamRef s1 = None
  /\ exists p, photos (@step tickingClock s1 (IntervalFires frame))
               = (photos s ++ [p])%list
               /\ dataUrl p = "data:image/png;base64,iVBORw0KGgo=".
Proof.
  cbv zeta.
  destruct (@stop_leaves_the_countdown_running tickingClock
              (@run tickingClock lastSecondSession
                    (@mount tickingClock page))
              (mkTimer 1 (mkClosure 0 4 "none")))
    as (_ & _ & _ & Hs & Hp).
  - apply reachable_run. apply reachable_mount.
  - vm_compute. reflexivity.
  - vm_compute. reflexivity.
  - split; [exact Hs|].
    exact (Hp eq_refl frame _ eq_refl eq_refl).
Defined.

Lemma failed_capture_adds_no_photo_witness :
  let s := @run tickingClock lastSecondSession (@mount tickingClock page) in
  let s' := @step tickingClock s (IntervalFires noContext) in
  isCapturing s' = false /\ photos s' = photos s.
Proof.
  cbv zeta.
  destruct (@failed_capture_adds_no_photo tickingClock
              (@run tickingClock lastSecondSession
                    (@mount tickingClock page))
              (mkTimer 1 (mkClosure 0 4 "none")) noContext)
    as (_ & _ & Hc & Hn & _).
  - apply reachable_run. apply reachable_mount.
  - vm_compute. reflexivity.
  - reflexivity.
  - split; [exact Hc | exact (proj1 (Hn eq_refl))].
Defined.

Lemma capture_canvas_is_never_degenerate_witness :
  exists cv,
    canvasRef (@capturePhoto tickingClock (mkClosure 0 4 "none") unsizedVideo
                 (@run tickingClock
                       [ClickStartSession (fallbackCamera LoadedMetadata)]
                       (@mount tickingClock page)))
    = Some cv
    /\ canvasWidth cv <> 0 /\ canvasHeight cv <> 0.
Proof.
  destruct (@capture_canvas_is_never_degenerate tickingClock
              (mkClosure 0 4 "none") unsizedVideo
              (@run tickingClock
                    [ClickStartSession (fallbackCamera LoadedMetadata)]
                    (@mount tickingClock page)))
    as (cv & E & W & H & _).
  - vm_compute. discriminate.
  - vm_compute. discriminate.
  - reflexivity.
  - reflexivity.
  - exists cv. repeat split; assumption.
Defined.

Lemma jpeg_export_only_retags_the_url_witness :
  exists p,
    In p twoPhotos
    /\ href (mkDownload "photo-1.png" "data:image/png;base64,iVBORw0KGgo=")
       = dataUrl p.
Proof.
  apply (proj2 (@jpeg_export_only_retags_the_url tickingClock
                  (fun _ => NoFault) bothLoad twoPhotos
                  (@mount tickingClock page))).
  vm_compute. left. reflexivity.
Defined.

Lemma collage_waits_for_every_callback_witness :
  snd (@exportCollage tickingClock oneSettled twoPhotos
         (@mount tickingClock page)) = [].
Proof.
  apply (@collage_waits_for_every_callback tickingClock oneSettled twoPhotos
           (@mount tickingClock page)).
  vm_compute. reflexivity.
Defined.

Lemma collage_download_hangs_on_the_last_callback_witness :
  exists reading,
    snd (@exportCollage tickingClock bothLoad twoPhotos
           (@mount tickingClock page))
    = [mkDownload ("photobooth-session-"
                     ++ JS.toString (@wallClock tickingClock reading)
                     ++ ".png")
                  "data:image/png;base64,Y29sbGFnZQ=="].
Proof.
  exact (@collage_download_hangs_on_the_last_callback tickingClock bothLoad
           twoPhotos (@mount tickingClock page)
           [mkSettle 0 (Decoded None)] (mkSettle 1 (Decoded None))
           eq_refl eq_refl eq_refl eq_refl).
Defined.


Lemma insecure_origin_disables_start_witness :
  @step tickingClock (@mount tickingClock insecurePage)
        (ClickStartSession (fallbackCamera LoadedMetadata))
  = @mount tickingClock insecurePage
  /\ isSessionActive
       (@step tickingClock (@mount tickingClock insecurePage)
              (ClickRetry (fallbackCamera LoadedMetadata))) = true.
Proof.
  exact (proj2 (proj2 (@insecure_origin_disables_start tickingClock
                         insecurePage))
               eq_refl (fallbackCamera LoadedMetadata)).
Defined.

Lemma ready_timeout_marks_the_feed_as_streaming_witness :
  let s := @run tickingClock stoppedSession (@mount tickingClock page) in
  streamRef s = None
  /\ isStreaming s = false
  /\ isStreaming (@step tickingClock s ReadyTimeoutFires) = true
  /\ streamRef (@step tickingClock s ReadyTimeoutFires) = streamRef s.
Proof.
  cbv zeta. split; [vm_compute; reflexivity|].
  split; [vm_compute; reflexivity|].
  destruct (@ready_timeout_marks_the_feed_as_streaming tickingClock
              (@run tickingClock stoppedSession (@mount tickingClock page)))
    as (H1 & H2 & _).
  - vm_compute. discriminate.
  - split; assumption.
Defined.

Lemma reset_during_the_flash_leaves_it_on_witness :
  let s := @run tickingClock flashingSession (@mount tickingClock page) in
  flashEffect
    (@run tickingClock
          [ClickReset; ClickStartSession (fallbackCamera LoadedMetadata);
           ClickSettings] s) = true.
Proof.
  cbv zeta.
  refine (proj1 (@reset_during_the_flash_leaves_it_on tickingClock
                   (@run tickingClock flashingSession
                         (@mount tickingClock page))
                   [ClickStartSession (fallbackCamera LoadedMetadata);
                    ClickSettings] _ _ _)).
  - vm_compute. reflexivity.
  - vm_compute. reflexivity.
  - apply Forall_cons; [intros; discriminate|].
    apply Forall_cons; [intros; discriminate|].
    apply Forall_nil.
Defined.

Lemma photos_are_kept_until_reset_witness :
  let s := @run tickingClock oneShotSession (@mount tickingClock page) in
  exists later,
    photos (@run tickingClock restartAndExport s)
    = (photos s ++ later)%list
    /\ (List.length later <= 0)%nat.
Proof.
  cbv zeta.
  apply (@photos_are_kept_until_reset tickingClock
           (@run tickingClock oneShotSession (@mount tickingClock page))
           restartAndExport).
  intros [H | [H | [H | []]]]; discriminate.
Defined.
